(** * WoT-to-MCP bridge: event buffer, translator and session manager

    A shallow embedding of the TypeScript sources of the bridge
    ([src/server/EventBuffer.ts], [src/translator/ThingTranslator.ts],
    [src/server/McpServer.ts], [src/WotMcpBridge.ts]) together with the
    properties its design document states about them, followed by the
    device operations and event subscriptions of [src/client/WotClient.ts],
    the loop of [src/main.ts] over the configured things, and further
    properties of all of these.

    Conventions of the embedding:
    - a JavaScript [number] that the code uses as a count, a cap or a
      millisecond clock reading is a [Z];
    - a timestamp is the millisecond reading that [toISOString] prints and
      [new Date(..).getTime()] reads back; where the code compares the
      printed strings ([getStats]) the strings are compared;
    - strings are [string]s of 8-bit code units;
    - [Date.now()], [crypto.randomUUID()], the device callbacks, the
      servient and the SDK transport are inputs of the functions that
      consult them;
    - an SDK server object is an identity ([ServerId]) into a store of
      instances, so that maps keyed by the object are maps keyed by the
      identity; an instance holds the tools and resources registered on
      it, [registerTool] and [registerResource] throw where the SDK does,
      and the state records the notifications sent, those of the class
      and those by which a connected instance announces a registration;
    - a call that may throw returns how it ended together with the state
      it left;
    - a method body runs to its end without another task running between
      its [await]s;
    - a node-wot subscription handle is an identity, and the device side is
      the list of subscriptions made and not stopped. *)

From Stdlib Require Import ZArith String Ascii List Bool Lia DecimalString.
From stdpp Require Import base option list gmap strings.

Import ListNotations.
Set Warnings "-register-all".
Local Open Scope string_scope.
Local Open Scope list_scope.
Local Open Scope Z_scope.

(** ** JavaScript values *)

Module Js.

(** The fragment of JavaScript values that flows through the bridge as
    [unknown]: schemas, tool arguments, event payloads. Numbers are the
    integers. *)
Inductive Value : Type :=
| Undefined
| Null
| Bool (b : bool)
| Num (n : Z)
| Str (s : string)
| Arr (items : list Value)
| Obj (members : list (string * Value)).

(** [!!v] *)
Definition truthy (v : Value) : bool :=
  match v with
  | Undefined | Null => false
  | Bool b => b
  | Num n => negb (Z.eqb n 0)
  | Str s => negb (String.eqb s "")
  | Arr _ | Obj _ => true
  end.

Fixpoint assoc (k : string) (kvs : list (string * Value)) : Value :=
  match kvs with
  | [] => Undefined
  | (k', v) :: rest => if String.eqb k k' then v else assoc k rest
  end.

(** [v.k] for the member names the bridge reads ([type], [properties],
    [required], [value], [unit], [input], ...); none of them is an own or
    inherited member of a primitive or of an array. The bridge reads
    members of a value it has found truthy, through [?.], or of an
    affordance, which a Thing Description gives as an object; reading a
    member of [null] or [undefined] otherwise (a TypeError) is not
    modelled. *)
Definition member (v : Value) (k : string) : Value :=
  match v with
  | Obj kvs => assoc k kvs
  | _ => Undefined
  end.

(** [v === s] for a string literal [s] *)
Definition is_str (v : Value) (s : string) : bool :=
  match v with
  | Str s' => String.eqb s' s
  | _ => false
  end.

(** [Array.prototype.slice(start)] with one argument. *)
Definition slice {A : Type} (start : Z) (l : list A) : list A :=
  let len := Z.of_nat (length l) in
  let k := if start <? 0 then Z.max (len + start) 0 else Z.min start len in
  drop (Z.to_nat k) l.

(** [n] written with [width] decimal digits, the way [padStart] pads *)
Fixpoint digits (width : nat) (n : Z) : string :=
  match width with
  | O => ""
  | S w => digits w (n / 10) +:+ String (ascii_of_nat (48 + Z.to_nat (n mod 10))) ""
  end.

(** The time values a [Date] can hold, in milliseconds since the epoch. *)
Definition validTime (t : Z) : Prop :=
  -8640000000000000 <= t <= 8640000000000000.

(** year, month and day of a day number counted from 1970-01-01, in the
    proleptic Gregorian calendar *)
Definition civil (day : Z) : Z * Z * Z :=
  let z := day + 719468 in
  let era := z / 146097 in
  let doe := z mod 146097 in
  let yoe := (doe - doe / 1460 + doe / 36524 - doe / 146096) / 365 in
  let doy := doe - (365 * yoe + yoe / 4 - yoe / 100) in
  let mp := (5 * doy + 2) / 153 in
  let d := doy - (153 * mp + 2) / 5 + 1 in
  let m := if mp <? 10 then mp + 3 else mp - 9 in
  let y := yoe + era * 400 + (if m <=? 2 then 1 else 0) in
  (y, m, d).

(** [new Date(t).toISOString()] for a valid time value: the years 0 to
    9999 are written with four digits, any other with a sign and six. *)
Definition toISOString (t : Z) : string :=
  let ms := t mod 86400000 in
  let '(y, m, d) := civil (t / 86400000) in
  let year :=
    if (0 <=? y) && (y <=? 9999) then digits 4 y
    else (if y <? 0 then "-" else "+") +:+ digits 6 (Z.abs y) in
  year +:+ "-" +:+ digits 2 m +:+ "-" +:+ digits 2 d
    +:+ "T" +:+ digits 2 (ms / 3600000)
    +:+ ":" +:+ digits 2 (ms / 60000 mod 60)
    +:+ ":" +:+ digits 2 (ms / 1000 mod 60)
    +:+ "." +:+ digits 3 (ms mod 1000) +:+ "Z".

End Js.

(** ** EventBuffer.ts *)

Module EventBuffer.

Record BufferedEvent : Type := mkEvent {
  timestamp : Z;
  eventType : string;
  data : Js.Value
}.

Record EventBufferOptions : Type := mkOptions {
  maxEventsPerUri : option Z;
  eventTtlMs : option Z
}.

Definition no_options : EventBufferOptions :=
  {| maxEventsPerUri := None; eventTtlMs := None |}.

Record t : Type := mk {
  buffers : gmap string (list BufferedEvent);
  maxEvents : Z;
  ttlMs : Z;
  lastUpdated : gmap string Z
}.

(** [constructor(options = {})] *)
Definition new (options : EventBufferOptions) : t :=
  {| buffers := ∅;
     maxEvents := default 100 (maxEventsPerUri options);
     ttlMs := default (60 * 60 * 1000) (eventTtlMs options);
     lastUpdated := ∅ |}.

Definition set_buffers (eb : t) (bs : gmap string (list BufferedEvent)) : t :=
  {| buffers := bs; maxEvents := maxEvents eb; ttlMs := ttlMs eb;
     lastUpdated := lastUpdated eb |}.

(** [this.buffers.get(uri) ?? []] without pruning; also what [count]
    measures. *)
Definition stored (eb : t) (uri : string) : list BufferedEvent :=
  default [] (buffers eb !! uri).

(** [push(uri, eventType, data)]; [now] is the clock reading taken by
    [new Date()]. *)
Definition push (now : Z) (uri eventType : string) (d : Js.Value) (eb : t)
  : BufferedEvent * t :=
  let bs := match buffers eb !! uri with
            | Some _ => buffers eb
            | None => <[uri := []]> (buffers eb)
            end in
  let buffer := default [] (bs !! uri) in
  let event := {| timestamp := now; eventType := eventType; data := d |} in
  let buffer := buffer ++ [event] in
  let buffer := if Z.of_nat (length buffer) >? maxEvents eb
                then tail buffer else buffer in
  (event,
   {| buffers := <[uri := buffer]> bs;
      maxEvents := maxEvents eb;
      ttlMs := ttlMs eb;
      lastUpdated := <[uri := timestamp event]> (lastUpdated eb) |}).

(** [pruneExpired(uri)] *)
Definition pruneExpired (now : Z) (uri : string) (eb : t) : t :=
  match buffers eb !! uri with
  | None => eb
  | Some buffer =>
      let cutoff := now - ttlMs eb in
      let pruned := List.filter (fun e => timestamp e >? cutoff) buffer in
      if negb (Nat.eqb (length pruned) (length buffer))
      then set_buffers eb (<[uri := pruned]> (buffers eb))
      else eb
  end.

(** [get(uri)] *)
Definition get (now : Z) (uri : string) (eb : t) : list BufferedEvent * t :=
  let eb := pruneExpired now uri eb in
  (stored eb uri, eb).

(** [getSince(uri, since)]; [sinceDate] is [new Date(since).getTime()],
    [None] when the string does not parse (NaN compares false). *)
Definition getSince (now : Z) (uri : string) (sinceDate : option Z) (eb : t)
  : list BufferedEvent * t :=
  let '(events, eb) := get now uri eb in
  (List.filter (fun e => match sinceDate with
                         | Some s => timestamp e >? s
                         | None => false
                         end) events, eb).

(** [getRecent(uri, count)] *)
Definition getRecent (now : Z) (uri : string) (count : Z) (eb : t)
  : list BufferedEvent * t :=
  let '(events, eb) := get now uri eb in
  (Js.slice (- count) events, eb).

Definition getLastUpdated (uri : string) (eb : t) : option Z :=
  lastUpdated eb !! uri.

Definition has (uri : string) (eb : t) : bool :=
  match buffers eb !! uri with
  | Some b => Nat.ltb 0 (length b)
  | None => false
  end.

Definition count (uri : string) (eb : t) : nat :=
  match buffers eb !! uri with
  | Some b => length b
  | None => 0%nat
  end.

Definition clear (uri : string) (eb : t) : t :=
  {| buffers := delete uri (buffers eb);
     maxEvents := maxEvents eb;
     ttlMs := ttlMs eb;
     lastUpdated := delete uri (lastUpdated eb) |}.

Definition clearAll (eb : t) : t :=
  {| buffers := ∅; maxEvents := maxEvents eb; ttlMs := ttlMs eb;
     lastUpdated := ∅ |}.

(** [initialize(uri)] *)
Definition initialize (uri : string) (eb : t) : t :=
  match buffers eb !! uri with
  | Some _ => eb
  | None => set_buffers eb (<[uri := []]> (buffers eb))
  end.

(** A run of [push] calls on one resource, each with its own clock
    reading, event type and payload. *)
Fixpoint pushAll (uri : string) (calls : list (Z * string * Js.Value)) (eb : t) : t :=
  match calls with
  | [] => eb
  | (now, ty, d) :: rest => pushAll uri rest (snd (push now uri ty d eb))
  end.

Definition eventOf (call : Z * string * Js.Value) : BufferedEvent :=
  let '(now, ty, d) := call in
  {| timestamp := now; eventType := ty; data := d |}.

(** no resource holds more entries than the cap *)
Definition within_cap (eb : t) : Prop :=
  forall uri, (length (stored eb uri) <= Z.to_nat (maxEvents eb))%nat.

(** The public methods, as calls a client of the object can make; each
    carries the clock reading its body takes, if any. *)
Inductive Call : Type :=
| CallPush (now : Z) (uri eventType : string) (d : Js.Value)
| CallGet (now : Z) (uri : string)
| CallGetSince (now : Z) (uri : string) (sinceDate : option Z)
| CallGetRecent (now : Z) (uri : string) (count : Z)
| CallClear (uri : string)
| CallClearAll
| CallInitialize (uri : string).

Definition step (eb : t) (c : Call) : t :=
  match c with
  | CallPush now uri ty d => snd (push now uri ty d eb)
  | CallGet now uri => snd (get now uri eb)
  | CallGetSince now uri s => snd (getSince now uri s eb)
  | CallGetRecent now uri n => snd (getRecent now uri n eb)
  | CallClear uri => clear uri eb
  | CallClearAll => clearAll eb
  | CallInitialize uri => initialize uri eb
  end.

(** The object after a history of calls on a fresh one. *)
Definition after (options : EventBufferOptions) (history : list Call) : t :=
  fold_left step history (new options).

End EventBuffer.

(** ** ThingTranslator.ts and translator/types.ts *)

Module Translator.

Record TranslatedProperty : Type := mkProperty {
  prop_uri : string;
  prop_name : string;
  prop_description : string;
  prop_mimeType : string;
  prop_writable : bool;
  prop_wotName : string;
  prop_schema : Js.Value
}.

(** [TranslatedAction['inputSchema']]; its [type] member is the constant
    ['object']. [required] is [Js.Undefined] when the member is absent. *)
Record InputSchema : Type := mkInputSchema {
  schema_properties : Js.Value;
  schema_required : Js.Value
}.

Record TranslatedAction : Type := mkAction {
  action_name : string;
  action_description : string;
  action_inputSchema : InputSchema;
  action_wotName : string;
  action_thingId : string;
  action_inputWrapped : bool
}.

Record TranslatedEvent : Type := mkEventResource {
  event_uri : string;
  event_name : string;
  event_description : string;
  event_mimeType : string;
  event_wotName : string;
  event_schema : Js.Value
}.

Record TranslatedThing : Type := mkThing {
  thing_id : string;
  thing_title : string;
  thing_description : option string;
  thing_properties : list TranslatedProperty;
  thing_actions : list TranslatedAction;
  thing_events : list TranslatedEvent
}.

(** The members of a Thing Description that [translate] reads. The three
    affordance tables are given as their [Object.entries], affordances
    themselves as the JSON objects they are. *)
Record ThingDescription : Type := mkTD {
  td_id : option string;
  td_title : string;
  td_description : option string;
  td_properties : option (list (string * Js.Value));
  td_actions : option (list (string * Js.Value));
  td_events : option (list (string * Js.Value))
}.

(** *** Characters *)

Definition in_range (lo hi : nat) (c : ascii) : bool :=
  (Nat.leb lo (nat_of_ascii c) && Nat.leb (nat_of_ascii c) hi)%bool.

Definition is_digit (c : ascii) : bool := in_range 48 57 c.
Definition is_lower (c : ascii) : bool := in_range 97 122 c.
Definition is_upper (c : ascii) : bool := in_range 65 90 c.

(** the class [[a-z0-9]] *)
Definition is_lower_alnum (c : ascii) : bool := (is_lower c || is_digit c)%bool.

Definition hyphen : ascii := "-"%char.

Definition is_hyphen (c : ascii) : bool := Ascii.eqb c hyphen.

Definition lower_char (c : ascii) : ascii :=
  if is_upper c then ascii_of_nat (nat_of_ascii c + 32) else c.

(** [str.toLowerCase()] *)
Fixpoint toLowerCase (s : string) : string :=
  match s with
  | EmptyString => EmptyString
  | String c rest => String (lower_char c) (toLowerCase rest)
  end.

(** [.replace(/[^a-z0-9]+/g, '-')]; [in_run] tells that the previous
    character already belongs to the run being replaced. *)
Fixpoint replace_runs (in_run : bool) (s : string) : string :=
  match s with
  | EmptyString => EmptyString
  | String c rest =>
      if is_lower_alnum c then String c (replace_runs false rest)
      else if in_run then replace_runs true rest
      else String hyphen (replace_runs true rest)
  end.

(** the [-$] alternative of [.replace(/^-|-$/g, '')] *)
Fixpoint strip_trailing_hyphen (s : string) : string :=
  match s with
  | EmptyString => EmptyString
  | String c EmptyString => if is_hyphen c then EmptyString else s
  | String c rest => String c (strip_trailing_hyphen rest)
  end.

(** the [^-] alternative *)
Definition strip_leading_hyphen (s : string) : string :=
  match s with
  | String c rest => if is_hyphen c then rest else s
  | EmptyString => EmptyString
  end.

(** [.replace(/^-|-$/g, '')]: the scan removes a hyphen at position 0,
    resumes after it, and removes a hyphen that is the last character. *)
Definition trim_hyphens (s : string) : string :=
  strip_trailing_hyphen (strip_leading_hyphen s).

(** [sanitizeId(str)] *)
Definition sanitizeId (str : string) : string :=
  trim_hyphens (replace_runs false (toLowerCase str)).

Definition is_separator (c : ascii) : bool :=
  (Ascii.eqb c ":"%char || Ascii.eqb c "/"%char)%bool.

(** [str.split(/[:/]/)] *)
Fixpoint split (s : string) : list string :=
  match s with
  | EmptyString => [EmptyString]
  | String c rest =>
      if is_separator c then EmptyString :: split rest
      else match split rest with
           | seg :: segs => String c seg :: segs
           | [] => [String c EmptyString]
           end
  end.

(** [extractThingId(td)] *)
Definition extractThingId (td : ThingDescription) : string :=
  match td_id td with
  | Some id =>
      if negb (String.eqb id "") then
        let parts := split id in
        sanitizeId (List.last parts "")
      else sanitizeId (td_title td)
  | None => sanitizeId (td_title td)
  end.

(** [v || fallback] for a member typed [string | undefined] *)
Definition str_or (v : Js.Value) (fallback : string) : string :=
  match v with
  | Js.Str s => if String.eqb s "" then fallback else s
  | _ => fallback
  end.

(** [translateProperties(thingId, td)] *)
Definition translateProperties (thingId : string) (td : ThingDescription)
  : list TranslatedProperty :=
  match td_properties td with
  | None => []
  | Some entries =>
      map (fun '(name, prop) =>
             {| prop_uri := "wot://" +:+ thingId +:+ "/properties/" +:+ name;
                prop_name := str_or (Js.member prop "title") name;
                prop_description :=
                  str_or (Js.member prop "description")
                         ("Property " +:+ name +:+ " of " +:+ td_title td);
                prop_mimeType := "application/json";
                prop_writable := negb (Js.truthy (Js.member prop "readOnly"));
                prop_wotName := name;
                prop_schema := prop |}) entries
  end.

(** [buildActionInputSchema(input)] *)
Definition buildActionInputSchema (input : Js.Value) : InputSchema * bool :=
  if negb (Js.truthy input) then
    ({| schema_properties := Js.Obj []; schema_required := Js.Undefined |}, false)
  else
    let schema := input in
    if (Js.is_str (Js.member schema "type") "object"
        && Js.truthy (Js.member schema "properties"))%bool then
      ({| schema_properties := Js.member schema "properties";
          schema_required := Js.member schema "required" |}, false)
    else
      ({| schema_properties := Js.Obj [("value", schema)];
          schema_required := Js.Arr [Js.Str "value"] |}, true).

(** [translateActions(thingId, td)] *)
Definition translateActions (thingId : string) (td : ThingDescription)
  : list TranslatedAction :=
  match td_actions td with
  | None => []
  | Some entries =>
      map (fun '(name, action) =>
             let '(inputSchema, inputWrapped) :=
               buildActionInputSchema (Js.member action "input") in
             {| action_name := thingId +:+ "_" +:+ name;
                action_description :=
                  str_or (Js.member action "description")
                         ("Execute " +:+ name +:+ " on " +:+ td_title td);
                action_inputSchema := inputSchema;
                action_wotName := name;
                action_thingId := thingId;
                action_inputWrapped := inputWrapped |}) entries
  end.

(** [translateEvents(thingId, td)] *)
Definition translateEvents (thingId : string) (td : ThingDescription)
  : list TranslatedEvent :=
  match td_events td with
  | None => []
  | Some entries =>
      map (fun '(name, event) =>
             {| event_uri := "wot://" +:+ thingId +:+ "/events/" +:+ name;
                event_name := str_or (Js.member event "title") name;
                event_description :=
                  str_or (Js.member event "description")
                         ("Event stream for " +:+ name +:+ " from " +:+ td_title td);
                event_mimeType := "application/json";
                event_wotName := name;
                event_schema := Js.member event "data" |}) entries
  end.

(** [translate(td)] *)
Definition translate (td : ThingDescription) : TranslatedThing :=
  let thingId := extractThingId td in
  {| thing_id := thingId;
     thing_title := td_title td;
     thing_description := td_description td;
     thing_properties := translateProperties thingId td;
     thing_actions := translateActions thingId td;
     thing_events := translateEvents thingId td |}.

(** *** The shape of an identifier *)

(** every character is in [[a-z0-9-]] *)
Fixpoint id_chars (s : string) : bool :=
  match s with
  | EmptyString => true
  | String c rest => ((is_lower_alnum c || is_hyphen c) && id_chars rest)%bool
  end.

Definition starts_with_hyphen (s : string) : bool :=
  match s with
  | String c _ => is_hyphen c
  | EmptyString => false
  end.

Fixpoint ends_with_hyphen (s : string) : bool :=
  match s with
  | EmptyString => false
  | String c EmptyString => is_hyphen c
  | String _ rest => ends_with_hyphen rest
  end.

Fixpoint no_double_hyphen (s : string) : bool :=
  match s with
  | EmptyString => true
  | String c rest =>
      (negb (is_hyphen c && starts_with_hyphen rest) && no_double_hyphen rest)%bool
  end.

(** the characters of [[a-z0-9]] in a string, in order *)
Fixpoint alnum_part (s : string) : string :=
  match s with
  | EmptyString => EmptyString
  | String c rest =>
      if is_lower_alnum c then String c (alnum_part rest) else alnum_part rest
  end.

Fixpoint has_separator (s : string) : bool :=
  match s with
  | EmptyString => false
  | String c rest => (is_separator c || has_separator rest)%bool
  end.

(** An object-with-properties schema: its [type] is ['object'] and it has
    a [properties] member. *)
Definition objectWithProperties (schema : Js.Value) : bool :=
  (Js.is_str (Js.member schema "type") "object"
   && Js.truthy (Js.member schema "properties"))%bool.

End Translator.

(** ** JavaScript [Map<string, V>] *)

Module JsMap.

(** Entries in insertion order; [set] on a present key replaces the value
    where it stands, as [Map.prototype.set] does. *)
Definition t (V : Type) : Type := list (string * V).

Section Ops.
Context {V : Type}.

Definition empty : t V := [].

Fixpoint get (k : string) (m : t V) : option V :=
  match m with
  | [] => None
  | (k', v) :: rest => if String.eqb k k' then Some v else get k rest
  end.

Fixpoint set (k : string) (v : V) (m : t V) : t V :=
  match m with
  | [] => [(k, v)]
  | (k', v') :: rest =>
      if String.eqb k k' then (k, v) :: rest else (k', v') :: set k v rest
  end.

Fixpoint delete (k : string) (m : t V) : t V :=
  match m with
  | [] => []
  | (k', v') :: rest =>
      if String.eqb k k' then rest else (k', v') :: delete k rest
  end.

Definition has (k : string) (m : t V) : bool :=
  match get k m with Some _ => true | None => false end.

Definition keys (m : t V) : list string := map fst m.

Definition values (m : t V) : list V := map snd m.

(** [for (const x of l) m.set(key(x), val(x))] *)
Definition setAll {X : Type} (key : X -> string) (val : X -> V) (l : list X)
  (m : t V) : t V :=
  fold_left (fun m x => set (key x) (val x) m) l m.

End Ops.

End JsMap.

(** ** Strings: the regular expressions of McpServer.ts *)

Module Re.

Fixpoint strip_prefix (p s : string) : option string :=
  match p, s with
  | EmptyString, _ => Some s
  | String a p', String b s' =>
      if Ascii.eqb a b then strip_prefix p' s' else None
  | String _ _, EmptyString => None
  end.

(** the longest prefix of characters satisfying [keep], and the rest *)
Fixpoint span (keep : ascii -> bool) (s : string) : string * string :=
  match s with
  | EmptyString => (EmptyString, EmptyString)
  | String c rest =>
      if keep c then
        let '(taken, remainder) := span keep rest in (String c taken, remainder)
      else (EmptyString, s)
  end.

Definition is_slash (c : ascii) : bool := Ascii.eqb c "/"%char.

(** what [.] refuses *)
Definition is_line_terminator (c : ascii) : bool :=
  (Nat.eqb (nat_of_ascii c) 10 || Nat.eqb (nat_of_ascii c) 13)%bool.

Definition is_empty (s : string) : bool :=
  match s with EmptyString => true | String _ _ => false end.

(** [wot:\/\/([^/]+)\/properties\/(.+)] tried at the head of [s]: the
    two groups and what follows the match. Both groups are greedy and
    no shorter choice of either lets the rest of the pattern match. *)
Definition property_uri_at (s : string) : option (string * string * string) :=
  match strip_prefix "wot://" s with
  | None => None
  | Some after_scheme =>
      let '(thingId, after_thing) := span (fun c => negb (is_slash c)) after_scheme in
      if is_empty thingId then None
      else match strip_prefix "/properties/" after_thing with
           | None => None
           | Some after_slash =>
               let '(propName, remainder) :=
                 span (fun c => negb (is_line_terminator c)) after_slash in
               if is_empty propName then None
               else Some (thingId, propName, remainder)
           end
  end.

(** [uri.match(/wot:\/\/([^/]+)\/properties\/(.+)/)]: leftmost match *)
Fixpoint property_uri (s : string) : option (string * string) :=
  match property_uri_at s with
  | Some (thingId, propName, _) => Some (thingId, propName)
  | None =>
      match s with
      | EmptyString => None
      | String _ rest => property_uri rest
      end
  end.

(** [uri.match(/^wot:\/\/([^/]+)\/properties\/(.+)$/)] *)
Definition property_uri_anchored (s : string) : option (string * string) :=
  match property_uri_at s with
  | Some (thingId, propName, EmptyString) => Some (thingId, propName)
  | _ => None
  end.

Definition is_alnum (c : ascii) : bool :=
  (Translator.is_lower c || Translator.is_upper c || Translator.is_digit c)%bool.

(** [.replace(/[^a-z0-9]/gi, '_')] *)
Fixpoint underscore (s : string) : string :=
  match s with
  | EmptyString => EmptyString
  | String c rest =>
      String (if is_alnum c then c else "_"%char) (underscore rest)
  end.

(** [.replace(/^wot:\/\//, '')] *)
Definition drop_scheme (s : string) : string :=
  match strip_prefix "wot://" s with
  | Some rest => rest
  | None => s
  end.

End Re.

(** ** McpServer.ts *)

Module McpServer.

Import Translator.

Inductive ToolStrategy : Type := explicit | generic.

Inductive TransportMode : Type := stdio | streamable_http.

Record McpServerConfig : Type := mkConfig {
  name : string;
  version : string;
  eventBufferSize : option Z;
  toolStrategy : option ToolStrategy
}.

(** Identities of the SDK objects the class creates and keeps. *)
Definition ServerId : Type := nat.
Definition TransportId : Type := nat.

(** *** The SDK server instance, as far as the class drives it *)

(** The closure handed to [registerTool], by what it captures. *)
Inductive ToolHandler : Type :=
| GetterHandler (prop : TranslatedProperty)
| SetterHandler (prop : TranslatedProperty)
| ActionHandler (action : TranslatedAction)
| ListDevicesHandler
| ReadPropertyHandler
| WritePropertyHandler
| InvokeActionHandler.

Record RegisteredTool : Type := mkTool {
  tool_name : string;
  tool_handler : ToolHandler
}.

Record RegisteredResource : Type := mkResource {
  resource_name : string;
  resource_uri : string;
  resource_event : TranslatedEvent
}.

(** How a call that may throw, or a promise, ends. *)
Inductive Settled (A : Type) : Type :=
| Resolved (a : A)
| Rejected (message : string).
Arguments Resolved {A} a.
Arguments Rejected {A} message.

Inductive Notification : Type :=
| ResourcesUpdated (uri : string)
| ResourcesListChanged
| ToolsListChanged.

(** An instance keeps the tools and the resources registered on it in
    the order they came ([_registeredTools], [_registeredResources]), the
    transport it is connected to ([server.server.transport]), whether the
    subscribe/unsubscribe request handlers are installed, and whether it
    has installed its own request handlers for tools and for resources
    ([_toolHandlersInitialized], [_resourceHandlersInitialized]). *)
Record SdkMcpServer : Type := mkSdkServer {
  registeredTools : list RegisteredTool;
  registeredResources : list RegisteredResource;
  transport : option TransportId;
  subscriptionHandlers : bool;
  toolHandlers : bool;
  resourceHandlers : bool
}.

(** [new SdkMcpServer(..)] *)
Definition sdk_new : SdkMcpServer :=
  {| registeredTools := []; registeredResources := [];
     transport := None; subscriptionHandlers := false;
     toolHandlers := false; resourceHandlers := false |}.

Definition with_tools (ts : list RegisteredTool) (srv : SdkMcpServer) : SdkMcpServer :=
  mkSdkServer ts (registeredResources srv) (transport srv) (subscriptionHandlers srv)
    (toolHandlers srv) (resourceHandlers srv).

Definition with_resources (rs : list RegisteredResource) (srv : SdkMcpServer)
  : SdkMcpServer :=
  mkSdkServer (registeredTools srv) rs (transport srv) (subscriptionHandlers srv)
    (toolHandlers srv) (resourceHandlers srv).

Definition with_transport (tr : option TransportId) (srv : SdkMcpServer) : SdkMcpServer :=
  mkSdkServer (registeredTools srv) (registeredResources srv) tr
    (subscriptionHandlers srv) (toolHandlers srv) (resourceHandlers srv).

Definition with_toolHandlers (b : bool) (srv : SdkMcpServer) : SdkMcpServer :=
  mkSdkServer (registeredTools srv) (registeredResources srv) (transport srv)
    (subscriptionHandlers srv) b (resourceHandlers srv).

Definition with_resourceHandlers (b : bool) (srv : SdkMcpServer) : SdkMcpServer :=
  mkSdkServer (registeredTools srv) (registeredResources srv) (transport srv)
    (subscriptionHandlers srv) (toolHandlers srv) b.

(** A call on an instance: how it returns, the instance after it, and
    the notifications the instance sent on its transport meanwhile. *)
Definition SdkCall : Type := Settled unit * SdkMcpServer * list Notification.

(** [isConnected()] *)
Definition sdk_connected (srv : SdkMcpServer) : bool :=
  match transport srv with Some _ => true | None => false end.

(** The instance keeps its tools and resources as members of a plain
    object and looks a name up with [this._registeredTools[name]]: the
    members every object inherits are found too. *)
Definition inheritedMembers : list string :=
  ["__defineGetter__"; "__defineSetter__"; "__lookupGetter__"; "__lookupSetter__";
   "__proto__"; "constructor"; "hasOwnProperty"; "isPrototypeOf";
   "propertyIsEnumerable"; "toLocaleString"; "toString"; "valueOf"].

Definition sdk_hasTool (n : string) (srv : SdkMcpServer) : bool :=
  (existsb (String.eqb n) (map tool_name (registeredTools srv))
   || existsb (String.eqb n) inheritedMembers)%bool.

Definition sdk_hasResource (uri : string) (srv : SdkMcpServer) : bool :=
  (existsb (String.eqb uri) (map resource_uri (registeredResources srv))
   || existsb (String.eqb uri) inheritedMembers)%bool.

(** [server.registerTool(name, config, cb)] of the SDK. A name the
    instance has is refused. Otherwise the tool is recorded; the first
    tool of an instance makes it install its tool handlers and declare
    the capability, which the SDK refuses once a transport is connected
    (the tool stays recorded); then a connected instance announces that
    its tool list changed. *)
Definition sdk_registerTool (n : string) (h : ToolHandler) (srv : SdkMcpServer)
  : SdkCall :=
  if sdk_hasTool n srv
  then (Rejected ("Tool " +:+ n +:+ " is already registered"), srv, [])
  else
    let srv := with_tools (registeredTools srv ++ [mkTool n h]) srv in
    if toolHandlers srv
    then (Resolved tt, srv, if sdk_connected srv then [ToolsListChanged] else [])
    else if sdk_connected srv
    then (Rejected "Cannot register capabilities after connecting to transport", srv, [])
    else (Resolved tt, with_toolHandlers true srv, []).

(** [server.registerResource(name, uri, config, readCallback)] of the
    SDK, for a fixed URI: as [registerTool], by URI. *)
Definition sdk_registerResource (n uri : string) (e : TranslatedEvent)
  (srv : SdkMcpServer) : SdkCall :=
  if sdk_hasResource uri srv
  then (Rejected ("Resource " +:+ uri +:+ " is already registered"), srv, [])
  else
    let srv := with_resources (registeredResources srv ++ [mkResource n uri e]) srv in
    if resourceHandlers srv
    then (Resolved tt, srv, if sdk_connected srv then [ResourcesListChanged] else [])
    else if sdk_connected srv
    then (Rejected "Cannot register capabilities after connecting to transport", srv, [])
    else (Resolved tt, with_resourceHandlers true srv, []).

Definition sdk_connect (tr : TransportId) (srv : SdkMcpServer) : SdkMcpServer :=
  with_transport (Some tr) srv.

(** the transport is closed: the SDK detaches it *)
Definition sdk_disconnect (srv : SdkMcpServer) : SdkMcpServer :=
  with_transport None srv.

Definition sdk_setRequestHandlers (srv : SdkMcpServer) : SdkMcpServer :=
  mkSdkServer (registeredTools srv) (registeredResources srv) (transport srv)
    true (toolHandlers srv) (resourceHandlers srv).

(** *** Device callbacks and what a tool body does with them *)

Definition PropertyReader : Type := string -> string -> Settled Js.Value.
Definition PropertyWriter : Type := string -> string -> Js.Value -> Settled unit.
Definition ActionInvoker : Type := string -> string -> Js.Value -> Settled Js.Value.

Inductive DeviceCall : Type :=
| ReadCall (thingId propertyName : string)
| WriteCall (thingId propertyName : string) (value : Js.Value)
| InvokeCall (thingId actionName : string) (params : Js.Value).

(** An [async] body: how it settles, and the device calls it made. *)
Definition Async (A : Type) : Type := Settled A * list DeviceCall.

Definition ret {A : Type} (a : A) : Async A := (Resolved a, []).

Definition throw {A : Type} (message : string) : Async A := (Rejected message, []).

Definition bind {A B : Type} (m : Async A) (k : A -> Async B) : Async B :=
  match m with
  | (Resolved a, calls) => let '(r, calls') := k a in (r, calls ++ calls')
  | (Rejected e, calls) => (Rejected e, calls)
  end.

(** [try { m } catch (error) { h error.message }] *)
Definition catch {A : Type} (m : Async A) (h : string -> Async A) : Async A :=
  match m with
  | (Rejected e, calls) => let '(r, calls') := h e in (r, calls ++ calls')
  | settled => settled
  end.

Definition await {A : Type} (call : DeviceCall) (outcome : Settled A) : Async A :=
  (outcome, [call]).

Notation "'await!' x <- m 'in' k" := (bind m (fun x => k))
  (at level 10, x name, m at level 100, k at level 200).

Inductive Text : Type :=
| Plain (s : string)
| Json (v : Js.Value).      (* JSON.stringify(v, null, 2) *)

Record CallToolResult : Type := mkResult {
  isError : bool;
  text : Text
}.

Record Session : Type := mkSession {
  session_server : ServerId;
  session_transport : TransportId
}.

(** *** The class state *)

Record t : Type := mk {
  config : McpServerConfig;
  eventBuffer : EventBuffer.t;
  stdioServer : option ServerId;
  sessions : JsMap.t Session;
  serverSubscriptions : gmap ServerId (gset string);
  httpServer : bool;
  things : JsMap.t TranslatedThing;
  properties : JsMap.t TranslatedProperty;
  actions : JsMap.t TranslatedAction;
  events : JsMap.t TranslatedEvent;
  propertyReader : option PropertyReader;
  propertyWriter : option PropertyWriter;
  actionInvoker : option ActionInvoker;
  (* the SDK objects created so far, by identity *)
  instances : gmap ServerId SdkMcpServer;
  nextObject : nat;
  (* the [server.server.notification] calls made so far *)
  notifications : list (ServerId * Notification)
}.

Definition set_eventBuffer (eb : EventBuffer.t) (st : t) : t :=
  mk (config st) eb (stdioServer st) (sessions st) (serverSubscriptions st)
     (httpServer st) (things st) (properties st) (actions st) (events st)
     (propertyReader st) (propertyWriter st) (actionInvoker st)
     (instances st) (nextObject st) (notifications st).

Definition set_stdioServer (s : option ServerId) (st : t) : t :=
  mk (config st) (eventBuffer st) s (sessions st) (serverSubscriptions st)
     (httpServer st) (things st) (properties st) (actions st) (events st)
     (propertyReader st) (propertyWriter st) (actionInvoker st)
     (instances st) (nextObject st) (notifications st).

Definition set_sessions (m : JsMap.t Session) (st : t) : t :=
  mk (config st) (eventBuffer st) (stdioServer st) m (serverSubscriptions st)
     (httpServer st) (things st) (properties st) (actions st) (events st)
     (propertyReader st) (propertyWriter st) (actionInvoker st)
     (instances st) (nextObject st) (notifications st).

Definition set_serverSubscriptions (m : gmap ServerId (gset string)) (st : t) : t :=
  mk (config st) (eventBuffer st) (stdioServer st) (sessions st) m
     (httpServer st) (things st) (properties st) (actions st) (events st)
     (propertyReader st) (propertyWriter st) (actionInvoker st)
     (instances st) (nextObject st) (notifications st).

Definition set_httpServer (b : bool) (st : t) : t :=
  mk (config st) (eventBuffer st) (stdioServer st) (sessions st)
     (serverSubscriptions st) b (things st) (properties st) (actions st)
     (events st) (propertyReader st) (propertyWriter st) (actionInvoker st)
     (instances st) (nextObject st) (notifications st).

Definition set_things (m : JsMap.t TranslatedThing) (st : t) : t :=
  mk (config st) (eventBuffer st) (stdioServer st) (sessions st)
     (serverSubscriptions st) (httpServer st) m (properties st) (actions st)
     (events st) (propertyReader st) (propertyWriter st) (actionInvoker st)
     (instances st) (nextObject st) (notifications st).

Definition set_properties (m : JsMap.t TranslatedProperty) (st : t) : t :=
  mk (config st) (eventBuffer st) (stdioServer st) (sessions st)
     (serverSubscriptions st) (httpServer st) (things st) m (actions st)
     (events st) (propertyReader st) (propertyWriter st) (actionInvoker st)
     (instances st) (nextObject st) (notifications st).

Definition set_actions (m : JsMap.t TranslatedAction) (st : t) : t :=
  mk (config st) (eventBuffer st) (stdioServer st) (sessions st)
     (serverSubscriptions st) (httpServer st) (things st) (properties st) m
     (events st) (propertyReader st) (propertyWriter st) (actionInvoker st)
     (instances st) (nextObject st) (notifications st).

Definition set_events (m : JsMap.t TranslatedEvent) (st : t) : t :=
  mk (config st) (eventBuffer st) (stdioServer st) (sessions st)
     (serverSubscriptions st) (httpServer st) (things st) (properties st)
     (actions st) m (propertyReader st) (propertyWriter st) (actionInvoker st)
     (instances st) (nextObject st) (notifications st).

Definition set_instances (m : gmap ServerId SdkMcpServer) (st : t) : t :=
  mk (config st) (eventBuffer st) (stdioServer st) (sessions st)
     (serverSubscriptions st) (httpServer st) (things st) (properties st)
     (actions st) (events st) (propertyReader st) (propertyWriter st)
     (actionInvoker st) m (nextObject st) (notifications st).

Definition set_nextObject (n : nat) (st : t) : t :=
  mk (config st) (eventBuffer st) (stdioServer st) (sessions st)
     (serverSubscriptions st) (httpServer st) (things st) (properties st)
     (actions st) (events st) (propertyReader st) (propertyWriter st)
     (actionInvoker st) (instances st) n (notifications st).

Definition set_notifications (l : list (ServerId * Notification)) (st : t) : t :=
  mk (config st) (eventBuffer st) (stdioServer st) (sessions st)
     (serverSubscriptions st) (httpServer st) (things st) (properties st)
     (actions st) (events st) (propertyReader st) (propertyWriter st)
     (actionInvoker st) (instances st) (nextObject st) l.

(** [constructor(config)] *)
Definition new (cfg : McpServerConfig) : t :=
  {| config := cfg;
     eventBuffer :=
       EventBuffer.new
         {| EventBuffer.maxEventsPerUri := Some (default 100 (eventBufferSize cfg));
            EventBuffer.eventTtlMs := None |};
     stdioServer := None;
     sessions := JsMap.empty;
     serverSubscriptions := ∅;
     httpServer := false;
     things := JsMap.empty;
     properties := JsMap.empty;
     actions := JsMap.empty;
     events := JsMap.empty;
     propertyReader := None;
     propertyWriter := None;
     actionInvoker := None;
     instances := ∅;
     nextObject := 0%nat;
     notifications := [] |}.

(** [setCallbacks(callbacks)] *)
Definition setCallbacks (r : PropertyReader) (w : PropertyWriter) (i : ActionInvoker)
  (st : t) : t :=
  mk (config st) (eventBuffer st) (stdioServer st) (sessions st)
     (serverSubscriptions st) (httpServer st) (things st) (properties st)
     (actions st) (events st) (Some r) (Some w) (Some i)
     (instances st) (nextObject st) (notifications st).

(** A method call on the server object [server]. *)
Definition onServer (server : ServerId) (f : SdkMcpServer -> SdkMcpServer) (st : t) : t :=
  set_instances (alter f server (instances st)) st.

(** A call on the server object [server] that may throw and may make
    the instance send notifications. *)
Definition callServer (server : ServerId) (call : SdkMcpServer -> SdkCall) (st : t)
  : Settled unit * t :=
  match instances st !! server with
  | Some srv =>
      let '(outcome, srv, sent) := call srv in
      (outcome,
       set_notifications (notifications st ++ map (fun n => (server, n)) sent)
         (set_instances (<[server := srv]> (instances st)) st))
  | None => (Resolved tt, st)
  end.

(** [a; b] where [a] may throw *)
Definition andThen (a b : t -> Settled unit * t) (st : t) : Settled unit * t :=
  match a st with
  | (Resolved _, st) => b st
  | (Rejected e, st) => (Rejected e, st)
  end.

(** [for (const x of l) body(x)] where the body may throw *)
Fixpoint forEach {X : Type} (body : X -> t -> Settled unit * t) (l : list X) (st : t)
  : Settled unit * t :=
  match l with
  | [] => (Resolved tt, st)
  | x :: l => andThen (body x) (forEach body l) st
  end.

(** [createMcpServerInstance()] *)
Definition createMcpServerInstance (st : t) : ServerId * t :=
  let server := nextObject st in
  (server,
   set_nextObject (S server)
     (set_instances (<[server := sdk_new]> (instances st)) st)).

(** [new StreamableHTTPServerTransport(..)], [new StdioServerTransport()] *)
Definition createTransport (st : t) : TransportId * t :=
  (nextObject st, set_nextObject (S (nextObject st)) st).

(** [server.connect(transport)] *)
Definition connect (server : ServerId) (tr : TransportId) (st : t) : t :=
  onServer server (sdk_connect tr) st.

(** [server.server.transport], as a condition *)
Definition hasTransport (server : ServerId) (st : t) : bool :=
  match instances st !! server with
  | Some srv => match transport srv with Some _ => true | None => false end
  | None => false
  end.

Definition strategyOf (st : t) : ToolStrategy :=
  default explicit (toolStrategy (config st)).

(** *** Tool and resource registration *)

Definition getterToolName (prop : TranslatedProperty) : string :=
  match Re.property_uri_anchored (prop_uri prop) with
  | Some (thingId, propName) =>
      "get_" +:+ Re.underscore propName +:+ "_" +:+ Re.underscore thingId
  | None => "get_" +:+ Re.underscore (Re.drop_scheme (prop_uri prop))
  end.

Definition setterToolName (prop : TranslatedProperty) : string :=
  match Re.property_uri_anchored (prop_uri prop) with
  | Some (thingId, propName) =>
      "set_" +:+ Re.underscore propName +:+ "_" +:+ Re.underscore thingId
  | None => "set_" +:+ Re.underscore (Re.drop_scheme (prop_uri prop))
  end.

Definition actionToolName (action : TranslatedAction) : string :=
  Re.underscore (action_wotName action) +:+ "_"
    +:+ Re.underscore (action_thingId action).

(** [registerPropertyGetterToolOnServer(server, prop)] *)
Definition registerPropertyGetterToolOnServer (server : ServerId)
  (prop : TranslatedProperty) : t -> Settled unit * t :=
  callServer server (sdk_registerTool (getterToolName prop) (GetterHandler prop)).

(** [registerPropertySetterToolOnServer(server, prop)] *)
Definition registerPropertySetterToolOnServer (server : ServerId)
  (prop : TranslatedProperty) : t -> Settled unit * t :=
  callServer server (sdk_registerTool (setterToolName prop) (SetterHandler prop)).

(** [registerActionToolOnServer(server, action)] *)
Definition registerActionToolOnServer (server : ServerId)
  (action : TranslatedAction) : t -> Settled unit * t :=
  callServer server (sdk_registerTool (actionToolName action) (ActionHandler action)).

(** [registerEventResourceOnServer(server, event)] *)
Definition registerEventResourceOnServer (server : ServerId)
  (event : TranslatedEvent) : t -> Settled unit * t :=
  callServer server (sdk_registerResource (event_name event) (event_uri event) event).

(** [registerGenericTools(server)] *)
Definition registerGenericTools (server : ServerId) : t -> Settled unit * t :=
  andThen (callServer server (sdk_registerTool "list_devices" ListDevicesHandler))
    (andThen (callServer server (sdk_registerTool "read_property" ReadPropertyHandler))
       (andThen (callServer server (sdk_registerTool "write_property" WritePropertyHandler))
          (callServer server (sdk_registerTool "invoke_action" InvokeActionHandler)))).

(** [setupSubscriptionHandlers(server)] *)
Definition setupSubscriptionHandlers (server : ServerId) (st : t) : t :=
  let st := match serverSubscriptions st !! server with
            | Some _ => st
            | None =>
                set_serverSubscriptions (<[server := ∅]> (serverSubscriptions st)) st
            end in
  onServer server sdk_setRequestHandlers st.

(** the [SubscribeRequestSchema] handler installed on [server] *)
Definition handleSubscribe (server : ServerId) (uri : string) (st : t) : t :=
  match serverSubscriptions st !! server with
  | Some subs =>
      set_serverSubscriptions (<[server := {[uri]} ∪ subs]> (serverSubscriptions st)) st
  | None => st
  end.

(** the [UnsubscribeRequestSchema] handler installed on [server] *)
Definition handleUnsubscribe (server : ServerId) (uri : string) (st : t) : t :=
  match serverSubscriptions st !! server with
  | Some subs =>
      set_serverSubscriptions (<[server := subs ∖ {[uri]}]> (serverSubscriptions st)) st
  | None => st
  end.

(** the body of [for (const prop of ..)] under the explicit strategy *)
Definition registerPropertyTools (server : ServerId) (prop : TranslatedProperty)
  : t -> Settled unit * t :=
  andThen (registerPropertyGetterToolOnServer server prop)
    (fun st => if prop_writable prop
               then registerPropertySetterToolOnServer server prop st
               else (Resolved tt, st)).

(** [initializeServer(server)] *)
Definition initializeServer (server : ServerId) : t -> Settled unit * t :=
  andThen
    (fun st =>
       match strategyOf st with
       | explicit =>
           andThen
             (fun st => forEach (registerPropertyTools server)
                                (JsMap.values (properties st)) st)
             (fun st => forEach (registerActionToolOnServer server)
                                (JsMap.values (actions st)) st)
             st
       | generic => registerGenericTools server st
       end)
    (andThen
       (fun st => forEach (registerEventResourceOnServer server)
                          (JsMap.values (events st)) st)
       (fun st => (Resolved tt, setupSubscriptionHandlers server st))).

(** the [servers] array built by [applyThingToAllServers],
    [handleWotEvent] and [notifyResourceListChanged] *)
Definition activeServers (st : t) : list ServerId :=
  match stdioServer st with Some s => [s] | None => [] end
    ++ map session_server (JsMap.values (sessions st)).

(** the body of [for (const server of servers)] in
    [applyThingToAllServers] *)
Definition applyThingToServer (thing : TranslatedThing) (server : ServerId)
  : t -> Settled unit * t :=
  andThen
    (fun st =>
       match strategyOf st with
       | explicit =>
           andThen (forEach (registerPropertyTools server) (thing_properties thing))
                   (forEach (registerActionToolOnServer server) (thing_actions thing))
                   st
       | generic => (Resolved tt, st)
       end)
    (forEach (registerEventResourceOnServer server) (thing_events thing)).

(** [applyThingToAllServers(thing)] *)
Definition applyThingToAllServers (thing : TranslatedThing) (st : t) : Settled unit * t :=
  let servers := activeServers st in
  forEach (applyThingToServer thing) servers st.

(** [registerThing(thing)]: the registry is written first; an exception
    of the SDK ends the call where it is thrown. *)
Definition registerThing (thing : TranslatedThing) (st : t) : Settled unit * t :=
  let st := set_things (JsMap.set (thing_id thing) thing (things st)) st in
  let st := fold_left (fun st prop =>
                         set_properties (JsMap.set (prop_uri prop) prop (properties st)) st)
                      (thing_properties thing) st in
  let st := fold_left (fun st action =>
                         set_actions (JsMap.set (action_name action) action (actions st)) st)
                      (thing_actions thing) st in
  let st := fold_left (fun st event =>
                         let st := set_events (JsMap.set (event_uri event) event (events st)) st in
                         set_eventBuffer
                           (EventBuffer.initialize (event_uri event) (eventBuffer st)) st)
                      (thing_events thing) st in
  applyThingToAllServers thing st.

(** *** Notifications *)

(** [try { await server.server.notification(n) } catch { }]: the call is
    made; whether the transport delivers it does not reach the class. *)
Definition notification (server : ServerId) (n : Notification) (st : t) : t :=
  set_notifications (notifications st ++ [(server, n)]) st.

Definition subscribed (server : ServerId) (uri : string) (st : t) : bool :=
  match serverSubscriptions st !! server with
  | Some subs => bool_decide (uri ∈ subs)
  | None => false
  end.

Definition eventUri (thingId eventName : string) : string :=
  "wot://" +:+ thingId +:+ "/events/" +:+ eventName.

(** [handleWotEvent(thingId, eventName, data)], run without another task
    interleaving at its [await]s; [now] is the clock reading of the
    buffered entry. *)
Definition handleWotEvent (now : Z) (thingId eventName : string) (d : Js.Value)
  (st : t) : t :=
  let uri := eventUri thingId eventName in
  let st := set_eventBuffer
              (snd (EventBuffer.push now uri eventName d (eventBuffer st))) st in
  let servers := activeServers st in
  fold_left (fun st server =>
               if (hasTransport server st && subscribed server uri st)%bool
               then notification server (ResourcesUpdated uri) st
               else st)
            servers st.

(** [notifyResourceListChanged()] *)
Definition notifyResourceListChanged (st : t) : t :=
  let servers := activeServers st in
  fold_left (fun st server =>
               if hasTransport server st
               then notification server ResourcesListChanged st
               else st)
            servers st.

(** *** Transports *)

Inductive HttpMethod : Type := GET | POST | DELETE.

Inductive Response : Type :=
| Delegated (tr : TransportId) (sessionHeader : option string)
    (* transport.handleRequest(req, res), after res.setHeader if any *)
| Status404 (body : string)
| Thrown (message : string).
    (* the handler's promise rejects; nothing is written to res *)

(** [!sessionId] for the [mcp-session-id] header *)
Definition noSessionId (header : option string) : bool :=
  match header with
  | None => true
  | Some s => String.eqb s ""
  end.

(** the [transport.onclose] assigned for a new session, followed by the
    SDK detaching the transport from its server *)
Definition sessionClosed (newSessionId : string) (server : ServerId) (st : t) : t :=
  let st := set_sessions (JsMap.delete newSessionId (sessions st)) st in
  let st := set_serverSubscriptions (delete server (serverSubscriptions st)) st in
  onServer server sdk_disconnect st.

(** Whether the new transport calls [onsessioninitialized] while it
    handles the request: it does so for a POST that carries an initialize
    request, which [initialize] tells; a GET or a DELETE on a transport
    that has no session yet is refused by the transport. *)
Definition opensSession (method : HttpMethod) (initialize : bool) : bool :=
  match method with
  | POST => initialize
  | GET | DELETE => false
  end.

(** the [/mcp] route handler of [start('streamable-http')].
    [newSessionId] is what [crypto.randomUUID()] returns if asked;
    [initialize] tells whether the body of a POST is an initialize
    request. *)
Definition handleMcpRequest (header : option string) (method : HttpMethod)
  (newSessionId : string) (initialize : bool) (st : t) : Response * t :=
  if noSessionId header then
    let '(server, st) := createMcpServerInstance st in
    match initializeServer server st with
    | (Rejected e, st) => (Thrown e, st)
    | (Resolved _, st) =>
        let '(tr, st) := createTransport st in
        let st := connect server tr st in
        let st := if opensSession method initialize
                  then set_sessions
                         (JsMap.set newSessionId
                            {| session_server := server; session_transport := tr |}
                            (sessions st)) st
                  else st in
        (Delegated tr (match method with GET => Some newSessionId | _ => None end), st)
    end
  else
    match JsMap.get (default "" header) (sessions st) with
    | None => (Status404 "Session not found", st)
    | Some session => (Delegated (session_transport session) None, st)
    end.

(** [start('stdio')] *)
Definition startStdio (st : t) : Settled unit * t :=
  let '(server, st) := createMcpServerInstance st in
  let st := set_stdioServer (Some server) st in
  match initializeServer server st with
  | (Rejected e, st) => (Rejected e, st)
  | (Resolved _, st) =>
      let '(tr, st) := createTransport st in
      (Resolved tt, connect server tr st)
  end.

(** [start('streamable-http', port)] up to [listen] *)
Definition startHttp (st : t) : t := set_httpServer true st.

(** *** Tool bodies *)

Definition isUndefined (v : Js.Value) : bool :=
  match v with Js.Undefined => true | _ => false end.

(** [invokePropertyGetter(prop)] *)
Definition invokePropertyGetter (st : t) (prop : TranslatedProperty)
  : Async CallToolResult :=
  match propertyReader st with
  | None => throw "Property reader not configured"
  | Some reader =>
      match Re.property_uri (prop_uri prop) with
      | None => throw ("Invalid property URI: " +:+ prop_uri prop)
      | Some (thingId, propName) =>
          await! value <- await (ReadCall thingId propName) (reader thingId propName) in
          let schema := prop_schema prop in
          let response := [("name", Js.Str (prop_wotName prop)); ("value", value)] in
          let response :=
            if (Js.truthy schema && negb (isUndefined (Js.member schema "unit")))%bool
            then response ++ [("unit", Js.member schema "unit")]
            else response in
          ret {| isError := false; text := Json (Js.Obj response) |}
      end
  end.

(** [invokePropertySetter(prop, args)] *)
Definition invokePropertySetter (st : t) (prop : TranslatedProperty) (args : Js.Value)
  : Async CallToolResult :=
  match propertyWriter st with
  | None => throw "Property writer not configured"
  | Some writer =>
      match Re.property_uri (prop_uri prop) with
      | None => throw ("Invalid property URI: " +:+ prop_uri prop)
      | Some (thingId, propName) =>
          let value := Js.member args "value" in
          await! _done <- await (WriteCall thingId propName value)
                                (writer thingId propName value) in
          ret {| isError := false;
                 text := Plain ("Property " +:+ propName +:+ " updated successfully") |}
      end
  end.

(** [invokeActionTool(action, args)] *)
Definition invokeActionTool (st : t) (action : TranslatedAction) (args : Js.Value)
  : Async CallToolResult :=
  match actionInvoker st with
  | None => throw "Action invoker not configured"
  | Some invoker =>
      let params :=
        if (action_inputWrapped action && Js.truthy args)%bool
        then Js.member args "value" else args in
      await! result <- await (InvokeCall (action_thingId action) (action_wotName action) params)
                             (invoker (action_thingId action) (action_wotName action) params) in
      ret {| isError := false;
             text := if negb (isUndefined result) then Json result
                     else Plain "Action executed successfully" |}
  end.

(** the [catch (error)] block of the generic tools;
    [error.message || error] prints an empty message as [Error] *)
Definition errorResult (message : string) : Async CallToolResult :=
  ret {| isError := true;
         text := Plain ("Error: " +:+ (if String.eqb message "" then "Error" else message)) |}.

(** Arguments of the generic tools, as their input schemas admit them. *)
Record PropertyArgs : Type := mkPropertyArgs {
  device_id : string;
  property_name : string;
  value : Js.Value            (* [undefined] for [read_property] *)
}.

Record ActionArgs : Type := mkActionArgs {
  action_device_id : string;
  action_name_arg : string;
  params : Js.Value
}.

Definition findProperty (thing : TranslatedThing) (n : string) : option TranslatedProperty :=
  List.find (fun p => String.eqb (prop_wotName p) n) (thing_properties thing).

Definition findAction (thing : TranslatedThing) (n : string) : option TranslatedAction :=
  List.find (fun a => String.eqb (action_wotName a) n) (thing_actions thing).

(** the [read_property] tool *)
Definition read_property (st : t) (args : PropertyArgs) : Async CallToolResult :=
  catch
    (match JsMap.get (device_id args) (things st) with
     | None => throw ("Device '" +:+ device_id args +:+ "' not found.")
     | Some thing =>
         match findProperty thing (property_name args) with
         | None => throw ("Property '" +:+ property_name args
                            +:+ "' not found on device '" +:+ device_id args +:+ "'.")
         | Some prop => invokePropertyGetter st prop
         end
     end)
    errorResult.

(** the [write_property] tool *)
Definition write_property (st : t) (args : PropertyArgs) : Async CallToolResult :=
  catch
    (match JsMap.get (device_id args) (things st) with
     | None => throw ("Device '" +:+ device_id args +:+ "' not found.")
     | Some thing =>
         match findProperty thing (property_name args) with
         | None => throw ("Property '" +:+ property_name args
                            +:+ "' not found on device '" +:+ device_id args +:+ "'.")
         | Some prop =>
             if negb (prop_writable prop)
             then throw ("Property '" +:+ property_name args +:+ "' is read-only.")
             else invokePropertySetter st prop (Js.Obj [("value", value args)])
         end
     end)
    errorResult.

(** the [invoke_action] tool *)
Definition invoke_action (st : t) (args : ActionArgs) : Async CallToolResult :=
  catch
    (match JsMap.get (action_device_id args) (things st) with
     | None => throw ("Device '" +:+ action_device_id args +:+ "' not found.")
     | Some thing =>
         match findAction thing (action_name_arg args) with
         | None => throw ("Action '" +:+ action_name_arg args
                            +:+ "' not found on device '" +:+ action_device_id args +:+ "'.")
         | Some action => invokeActionTool st action (params args)
         end
     end)
    errorResult.

(** The closures the explicit strategy registers, applied to the
    arguments of a call. *)
Definition callExplicitTool (st : t) (h : ToolHandler) (args : Js.Value)
  : option (Async CallToolResult) :=
  match h with
  | GetterHandler prop => Some (invokePropertyGetter st prop)
  | SetterHandler prop => Some (invokePropertySetter st prop args)
  | ActionHandler action => Some (invokeActionTool st action args)
  | _ => None
  end.

(** [readEventResource(event)]: the most recent 50 entries, the stored
    count and the last update. *)
Definition readEventResource (now : Z) (event : TranslatedEvent) (st : t)
  : (list EventBuffer.BufferedEvent * nat * option Z) * t :=
  let '(recent, eb) := EventBuffer.getRecent now (event_uri event) 50 (eventBuffer st) in
  ((recent, EventBuffer.count (event_uri event) eb,
    EventBuffer.getLastUpdated (event_uri event) eb),
   set_eventBuffer eb st).

(** *** The registrations of a loop, as lists *)

Inductive Registration : Type :=
| ToolReg (tl : RegisteredTool)
| ResourceReg (r : RegisteredResource).

Definition sdk_register (r : Registration) : SdkMcpServer -> SdkCall :=
  match r with
  | ToolReg tl => sdk_registerTool (tool_name tl) (tool_handler tl)
  | ResourceReg r =>
      sdk_registerResource (resource_name r) (resource_uri r) (resource_event r)
  end.

(** registrations made one after the other, up to the first that throws *)
Fixpoint sdk_registerAll (rs : list Registration) (srv : SdkMcpServer) : SdkCall :=
  match rs with
  | [] => (Resolved tt, srv, [])
  | r :: rest =>
      match sdk_register r srv with
      | (Resolved _, srv, sent) =>
          let '(outcome, srv, sent') := sdk_registerAll rest srv in
          (outcome, srv, sent ++ sent')
      | failed => failed
      end
  end.

Definition toolsOf (rs : list Registration) : list RegisteredTool :=
  flat_map (fun r => match r with ToolReg tl => [tl] | ResourceReg _ => [] end) rs.

Definition resourcesOf (rs : list Registration) : list RegisteredResource :=
  flat_map (fun r => match r with ResourceReg r => [r] | ToolReg _ => [] end) rs.

Definition announcement (r : Registration) : Notification :=
  match r with
  | ToolReg _ => ToolsListChanged
  | ResourceReg _ => ResourcesListChanged
  end.

Definition nonEmpty {X : Type} (l : list X) : bool :=
  match l with [] => false | _ :: _ => true end.

(** an instance with the registrations [rs] made on it *)
Definition sdk_added (rs : list Registration) (srv : SdkMcpServer) : SdkMcpServer :=
  {| registeredTools := registeredTools srv ++ toolsOf rs;
     registeredResources := registeredResources srv ++ resourcesOf rs;
     transport := transport srv;
     subscriptionHandlers := subscriptionHandlers srv;
     toolHandlers := toolHandlers srv || nonEmpty (toolsOf rs);
     resourceHandlers := resourceHandlers srv || nonEmpty (resourcesOf rs) |}.

(** what a connected instance announces of them *)
Definition sdk_announced (rs : list Registration) (srv : SdkMcpServer)
  : list Notification :=
  if sdk_connected srv then map announcement rs else [].

Fixpoint distinct (l : list string) : bool :=
  match l with
  | [] => true
  | x :: l => negb (existsb (String.eqb x) l) && distinct l
  end.

(** The condition under which the SDK takes the registrations [rs] on
    the instance: the tool names are pairwise different and none is a
    member the instance has, the same for the resource URIs, and a
    connected instance was given a tool before it was connected if [rs]
    has a tool, and a resource if [rs] has a resource. *)
Definition accepts (rs : list Registration) (srv : SdkMcpServer) : bool :=
  distinct (map tool_name (toolsOf rs))
  && forallb (fun tl => negb (sdk_hasTool (tool_name tl) srv)) (toolsOf rs)
  && distinct (map resource_uri (resourcesOf rs))
  && forallb (fun r => negb (sdk_hasResource (resource_uri r) srv)) (resourcesOf rs)
  && (negb (sdk_connected srv)
      || ((negb (nonEmpty (toolsOf rs)) || toolHandlers srv)
          && (negb (nonEmpty (resourcesOf rs)) || resourceHandlers srv))).

Definition getterTool (prop : TranslatedProperty) : RegisteredTool :=
  mkTool (getterToolName prop) (GetterHandler prop).

Definition setterTool (prop : TranslatedProperty) : RegisteredTool :=
  mkTool (setterToolName prop) (SetterHandler prop).

Definition actionTool (action : TranslatedAction) : RegisteredTool :=
  mkTool (actionToolName action) (ActionHandler action).

Definition eventResource (event : TranslatedEvent) : RegisteredResource :=
  mkResource (event_name event) (event_uri event) event.

Definition propertyTools (prop : TranslatedProperty) : list RegisteredTool :=
  getterTool prop :: (if prop_writable prop then [setterTool prop] else []).

Definition explicitTools (props : list TranslatedProperty)
  (acts : list TranslatedAction) : list RegisteredTool :=
  concat (map propertyTools props) ++ map actionTool acts.





(** the notifications a step appended *)
Definition sentBy (before after : t) : list (ServerId * Notification) :=
  drop (length (notifications before)) (notifications after).

(** [uri] is in the subscription set kept for [server] *)
Definition inSubscriptionSet (server : ServerId) (uri : string) (st : t) : Prop :=
  exists subs, serverSubscriptions st !! server = Some subs /\ uri ∈ subs.

(** what [applyThingToServer] adds to one instance *)
Definition newTools (strategy : ToolStrategy) (thing : TranslatedThing)
  : list RegisteredTool :=
  match strategy with
  | explicit => explicitTools (thing_properties thing) (thing_actions thing)
  | generic => []
  end.

(** the registrations [applyThingToServer] makes on one instance, in
    the order it makes them *)
Definition thingRegistrations (strategy : ToolStrategy) (thing : TranslatedThing)
  : list Registration :=
  map ToolReg (newTools strategy thing)
    ++ map (fun e => ResourceReg (eventResource e)) (thing_events thing).



(** the state after the three registry loops of [registerThing] *)
Definition storeDefinitions (thing : TranslatedThing) (st : t) : t :=
  set_eventBuffer
    (fold_left (fun eb event => EventBuffer.initialize (event_uri event) eb)
               (thing_events thing) (eventBuffer st))
    (set_events
       (JsMap.setAll event_uri id (thing_events thing) (events st))
       (set_actions
          (JsMap.setAll action_name id (thing_actions thing) (actions st))
          (set_properties
             (JsMap.setAll prop_uri id (thing_properties thing) (properties st))
             (set_things (JsMap.set (thing_id thing) thing (things st)) st)))).

(** Everything but the store of instances. *)
Definition frame (st : t) : t := set_instances ∅ st.

(** Everything but the instances and the log of notifications. *)
Definition core (st : t) : t := set_notifications [] (set_instances ∅ st).




(** the condition under which [handleWotEvent] notifies [server] *)
Definition notifiable (uri : string) (server : ServerId) (st : t) : bool :=
  (hasTransport server st && subscribed server uri st)%bool.

End McpServer.

(** ** WotMcpBridge.ts *)

Module WotMcpBridge.

Import Translator.

Record t : Type := mk {
  mcpServer : McpServer.t;
  translatedThings : JsMap.t TranslatedThing
}.

(** [addThing(tdOrUrl, subscribeToEvents)], from the point where
    [client.consume] has resolved to [td]. [subscribing] is how
    [client.subscribeAllEvents] settles if it is called. *)
Definition addThing (td : ThingDescription) (subscribeToEvents : bool)
  (subscribing : McpServer.Settled unit) (b : t)
  : McpServer.Settled TranslatedThing * t :=
  let translated := translate td in
  let things := JsMap.set (thing_id translated) translated (translatedThings b) in
  match McpServer.registerThing translated (mcpServer b) with
  | (McpServer.Rejected e, server) =>
      (McpServer.Rejected e, {| mcpServer := server; translatedThings := things |})
  | (McpServer.Resolved _, server) =>
      let subscribe :=
        (subscribeToEvents
         && match td_events td with Some _ => true | None => false end)%bool in
      match subscribe, subscribing with
      | true, McpServer.Rejected e =>
          (McpServer.Rejected e, {| mcpServer := server; translatedThings := things |})
      | _, _ =>
          let server := McpServer.notifyResourceListChanged server in
          (McpServer.Resolved translated,
           {| mcpServer := server; translatedThings := things |})
      end
  end.

(** [pushEvent(thingId, eventName, data)] *)
Definition pushEvent (now : Z) (thingId eventName : string) (d : Js.Value) (b : t) : t :=
  {| mcpServer := McpServer.handleWotEvent now thingId eventName d (mcpServer b);
     translatedThings := translatedThings b |}.

End WotMcpBridge.

(** ** EventBuffer.ts: statistics and the kinds of call *)

Module BufferObservers.

Import EventBuffer.

Record Stats : Type := mkStats {
  totalEvents : nat;
  uriCount : nat;
  oldestEvent : option string
}.

(** The timestamp an entry carries: the ISO string of the clock reading
    it was pushed at. *)
Definition isoTimestamp (e : BufferedEvent) : string := Js.toISOString (timestamp e).

(** One round of the loop of [getStats]: the running total and the least
    first timestamp seen so far. The timestamps are strings and [<]
    compares them as strings, code unit by code unit. *)
Definition statsStep (_ : string) (buffer : list BufferedEvent)
  (acc : nat * option string) : nat * option string :=
  let '(total, oldestEvent) := acc in
  ((total + length buffer)%nat,
   match buffer with
   | [] => oldestEvent
   | first :: _ =>
       let oldest := isoTimestamp first in
       match oldestEvent with
       | None => Some oldest
       | Some o => if String.ltb oldest o then Some oldest else oldestEvent
       end
   end).

(** the calls of a history take their clock readings from [new Date()] *)
Definition validCall (c : Call) : Prop :=
  match c with
  | CallPush now _ _ _ => Js.validTime now
  | _ => True
  end.

(** [getStats()]; the loop runs over the entries of [buffers], and its
    result does not depend on their order (see [statsStep_comm]). *)
Definition getStats (eb : EventBuffer.t) : Stats :=
  let '(total, oldest) := map_fold statsStep (0%nat, None) (buffers eb) in
  {| totalEvents := total; uriCount := size (buffers eb); oldestEvent := oldest |}.

(** the calls that only read: [get], [getSince], [getRecent] *)
Definition isRead (c : Call) : bool :=
  match c with
  | CallGet _ _ | CallGetSince _ _ _ | CallGetRecent _ _ _ => true
  | _ => false
  end.

(** the resource a call names, if it names one *)
Definition callUri (c : Call) : option string :=
  match c with
  | CallPush _ uri _ _ | CallGet _ uri | CallGetSince _ uri _
  | CallGetRecent _ uri _ | CallClear uri | CallInitialize uri => Some uri
  | CallClearAll => None
  end.

End BufferObservers.

(** ** WotClient.ts: thing identifiers and the device operations *)

Module WotClient.

Import Translator.

(** [.toLowerCase().replace(/[^a-z0-9]+/g, '-')]: the client does not
    trim hyphens *)
Definition hyphenate (str : string) : string :=
  replace_runs false (toLowerCase str).

(** [extractThingId(td)] of the client *)
Definition extractThingId (td : ThingDescription) : string :=
  match td_id td with
  | Some id =>
      if negb (String.eqb id "") then
        let parts := split id in
        hyphenate (List.last parts "")
      else hyphenate (td_title td)
  | None => hyphenate (td_title td)
  end.

(** The things consumed so far, by the client's identifier. The node-wot
    handle kept beside each description is outside these sources; what a
    call on it does is an argument of the operation that makes it. *)
Record t : Type := mk {
  consumedThings : JsMap.t ThingDescription;
  initialized : bool
}.

Definition new : t := {| consumedThings := JsMap.empty; initialized := false |}.

(** The argument of [consume]: [string | ThingDescription]. *)
Inductive TdOrUrl : Type :=
| Url (url : string)
| Td (td : ThingDescription).

(** How the servient and the network answer one [consume]:
    [servient.start()], [wotHelper.requestThingDescription(url)] and
    [wotHelper.consume(td)]. *)
Record Answers : Type := mkAnswers {
  starting : McpServer.Settled unit;
  fetching : McpServer.Settled ThingDescription;
  consuming : McpServer.Settled unit
}.

Definition allWell (td : ThingDescription) : Answers :=
  {| starting := McpServer.Resolved tt;
     fetching := McpServer.Resolved td;
     consuming := McpServer.Resolved tt |}.

(** [start()] *)
Definition start (starting : McpServer.Settled unit) (c : t) : McpServer.Settled unit * t :=
  if initialized c then (McpServer.Resolved tt, c)
  else
    match starting with
    | McpServer.Resolved _ =>
        (McpServer.Resolved tt,
         {| consumedThings := consumedThings c; initialized := true |})
    | McpServer.Rejected e => (McpServer.Rejected e, c)
    end.

(** [consume(tdOrUrl)]: the description is stored once the servient has
    started, the description was fetched if a URL was given, and the
    servient has consumed it; a rejection of any of the three ends the
    call before that. *)
Definition consume (answers : Answers) (tdOrUrl : TdOrUrl) (c : t)
  : McpServer.Settled ThingDescription * t :=
  match start (starting answers) c with
  | (McpServer.Rejected e, c) => (McpServer.Rejected e, c)
  | (McpServer.Resolved _, c) =>
      match (match tdOrUrl with
             | Url _ => fetching answers
             | Td td => McpServer.Resolved td
             end) with
      | McpServer.Rejected e => (McpServer.Rejected e, c)
      | McpServer.Resolved td =>
          match consuming answers with
          | McpServer.Rejected e => (McpServer.Rejected e, c)
          | McpServer.Resolved _ =>
              (McpServer.Resolved td,
               {| consumedThings :=
                    JsMap.set (extractThingId td) td (consumedThings c);
                  initialized := initialized c |})
          end
      end
  end.

(** [getThing(thingId)] *)
Definition getThing (thingId : string) (c : t) : option ThingDescription :=
  JsMap.get thingId (consumedThings c).

(** [error.message || error] in a template *)
Definition errorText (message : string) : string :=
  if String.eqb message "" then "Error" else message.

(** [readProperty(thingId, propertyName)]; [device] is how
    [thing.readProperty] followed by [output.value()] settles *)
Definition readProperty (c : t) (thingId propertyName : string)
  (device : McpServer.Settled Js.Value) : McpServer.Settled Js.Value :=
  match JsMap.get thingId (consumedThings c) with
  | None => McpServer.Rejected ("Thing not found: " +:+ thingId)
  | Some _ =>
      match device with
      | McpServer.Resolved v => McpServer.Resolved v
      | McpServer.Rejected m =>
          McpServer.Rejected
            ("Failed to read property '" +:+ propertyName +:+ "' from '"
               +:+ thingId +:+ "': " +:+ errorText m)
      end
  end.

(** [writeProperty(thingId, propertyName, value)] *)
Definition writeProperty (c : t) (thingId propertyName : string)
  (device : McpServer.Settled unit) : McpServer.Settled unit :=
  match JsMap.get thingId (consumedThings c) with
  | None => McpServer.Rejected ("Thing not found: " +:+ thingId)
  | Some _ =>
      match device with
      | McpServer.Resolved u => McpServer.Resolved u
      | McpServer.Rejected m =>
          McpServer.Rejected
            ("Failed to write property '" +:+ propertyName +:+ "' to '"
               +:+ thingId +:+ "': " +:+ errorText m)
      end
  end.

(** [invokeAction(thingId, actionName, params)]; [device] is how
    [thing.invokeAction] and, if it gave an output, [output.value()]
    settle ([undefined] without output) *)
Definition invokeAction (c : t) (thingId actionName : string)
  (device : McpServer.Settled Js.Value) : McpServer.Settled Js.Value :=
  match JsMap.get thingId (consumedThings c) with
  | None => McpServer.Rejected ("Thing not found: " +:+ thingId)
  | Some _ =>
      match device with
      | McpServer.Resolved v => McpServer.Resolved v
      | McpServer.Rejected m =>
          McpServer.Rejected
            ("Failed to invoke action '" +:+ actionName +:+ "' on '"
               +:+ thingId +:+ "': " +:+ errorText m)
      end
  end.

(** [subscribeAllEvents(thingId, callback)]; [subscribing] is how the
    loop of [subscribeEvent] calls settles when there is an event to
    subscribe to *)
Definition subscribeAllEvents (c : t) (thingId : string)
  (subscribing : McpServer.Settled unit) : McpServer.Settled unit :=
  match JsMap.get thingId (consumedThings c) with
  | None => McpServer.Rejected ("Thing not found: " +:+ thingId)
  | Some td =>
      match td_events td with
      | None | Some [] => McpServer.Resolved tt
      | Some (_ :: _) => subscribing
      end
  end.


Definition bridgeWriter (c : t)
  (device : string -> string -> Js.Value -> McpServer.Settled unit)
  : McpServer.PropertyWriter :=
  fun thingId propName value =>
    writeProperty c thingId propName (device thingId propName value).

Definition bridgeInvoker (c : t)
  (device : string -> string -> Js.Value -> McpServer.Settled Js.Value)
  : McpServer.ActionInvoker :=
  fun thingId actionName params =>
    invokeAction c thingId actionName (device thingId actionName params).

End WotClient.

(** ** Shapes of names *)

Module Names.

(** no character that [.] refuses *)
Fixpoint one_line (s : string) : bool :=
  match s with
  | EmptyString => true
  | String c rest => (negb (Re.is_line_terminator c) && one_line rest)%bool
  end.

(** every character is in [[A-Za-z0-9_]] *)
Fixpoint tool_chars (s : string) : bool :=
  match s with
  | EmptyString => true
  | String c rest =>
      ((Re.is_alnum c || Ascii.eqb c "_"%char) && tool_chars rest)%bool
  end.

End Names.

(** ** McpServer.ts: start and stop *)

Module Lifecycle.

Import Translator McpServer.

(** The server object together with [serverInstance], the HTTP listener
    that [start('streamable-http')] keeps beside [httpServer]. *)
Record Running : Type := mkRunning {
  server : McpServer.t;
  serverInstance : bool
}.

(** [start(mode, port)], for the two modes the type admits *)
Definition start (mode : TransportMode) (r : Running) : Settled unit * Running :=
  match mode with
  | stdio =>
      let '(outcome, st) := startStdio (server r) in
      (outcome, {| server := st; serverInstance := serverInstance r |})
  | streamable_http =>
      (Resolved tt, {| server := startHttp (server r); serverInstance := true |})
  end.

(** the loop of [stop] over the sessions: [closes id] tells whether
    [session.transport.close()] of session [id] gets as far as running
    [onclose]; a rejection is logged and the loop goes on *)
Definition closeSessions (closes : string -> bool) (st : McpServer.t) : McpServer.t :=
  fold_left (fun st entry =>
               if closes (fst entry)
               then sessionClosed (fst entry) (session_server (snd entry)) st
               else st)
            (sessions st) st.

(** [server.close()] on an instance: the SDK detaches the transport *)
Definition sdk_close (srv : SdkMcpServer) : SdkMcpServer := sdk_disconnect srv.

(** the last step of [stop]: [if (this.stdioServer) ..] *)
Definition stopStdio (stdioClosing : Settled unit) (r : Running) : Settled unit * Running :=
  match stdioServer (server r) with
  | None => (Resolved tt, r)
  | Some s =>
      match stdioClosing with
      | Rejected e => (Rejected e, r)
      | Resolved _ =>
          (Resolved tt,
           {| server := set_stdioServer None (onServer s sdk_close (server r));
              serverInstance := serverInstance r |})
      end
  end.

(** [stop()]; [listenerClosing] is how closing the HTTP listener settles,
    [stdioClosing] how [stdioServer.close()] does *)
Definition stop (closes : string -> bool) (listenerClosing stdioClosing : Settled unit)
  (r : Running) : Settled unit * Running :=
  let st := set_serverSubscriptions ∅ (server r) in
  let st :=
    if httpServer st
    then set_httpServer false (set_sessions JsMap.empty (closeSessions closes st))
    else st in
  if serverInstance r then
    match listenerClosing with
    | Rejected e => (Rejected e, {| server := st; serverInstance := true |})
    | Resolved _ => stopStdio stdioClosing {| server := st; serverInstance := false |}
    end
  else stopStdio stdioClosing {| server := st; serverInstance := false |}.

End Lifecycle.

(** ** McpServer.ts: the [list_devices] tool *)

Module Devices.

Import Translator McpServer.

(** the members that [removeForms] takes out *)
Definition bindingKeys : list string :=
  ["forms"; "op"; "href"; "contentType"; "htv:methodName"; "subprotocol"].

Definition isBindingKey (k : string) : bool := existsb (String.eqb k) bindingKeys.

(** the own keys of an array: its indices, written in decimal *)
Definition indexed (items : list Js.Value) : list (string * Js.Value) :=
  imap (fun i v => (NilZero.string_of_uint (Nat.to_uint i), v)) items.

(** [removeForms(schema)]: a falsy value or one that is not an object is
    returned as it is; of an object, the rest of the destructuring *)
Definition removeForms (schema : Js.Value) : Js.Value :=
  match schema with
  | Js.Obj members =>
      Js.Obj (List.filter (fun kv => negb (isBindingKey (fst kv))) members)
  | Js.Arr items => Js.Obj (indexed items)
  | other => other
  end.

Definition optional (s : option string) : Js.Value :=
  match s with Some s => Js.Str s | None => Js.Undefined end.

(** [v || fallback] *)
Definition or_else (v fallback : Js.Value) : Js.Value :=
  if Js.truthy v then v else fallback.

Definition propertyEntry (p : TranslatedProperty) : Js.Value :=
  Js.Obj [("name", Js.Str (prop_wotName p));
          ("description", Js.Str (prop_description p));
          ("type", or_else (Js.member (prop_schema p) "type") (Js.Str "unknown"));
          ("writable", Js.Bool (prop_writable p));
          ("schema", removeForms (prop_schema p))].

(** an absent [required] is the member [undefined], which
    [JSON.stringify] leaves out as it does an absent one *)
Definition actionEntry (a : TranslatedAction) : Js.Value :=
  Js.Obj [("name", Js.Str (action_wotName a));
          ("description", Js.Str (action_description a));
          ("inputSchema",
           Js.Obj [("type", Js.Str "object");
                   ("properties", schema_properties (action_inputSchema a));
                   ("required", schema_required (action_inputSchema a))])].

Definition eventEntry (e : TranslatedEvent) : Js.Value :=
  Js.Obj [("name", Js.Str (event_name e));
          ("description", Js.Str (event_description e))].

Definition deviceEntry (thing : TranslatedThing) : Js.Value :=
  Js.Obj [("id", Js.Str (thing_id thing));
          ("title", Js.Str (thing_title thing));
          ("description", optional (thing_description thing));
          ("properties", Js.Arr (map propertyEntry (thing_properties thing)));
          ("actions", Js.Arr (map actionEntry (thing_actions thing)));
          ("events", Js.Arr (map eventEntry (thing_events thing)))].

(** the [list_devices] tool *)
Definition list_devices (st : McpServer.t) : Async CallToolResult :=
  ret {| isError := false;
         text := Json (Js.Arr (map deviceEntry (JsMap.values (things st)))) |}.

End Devices.

(** ** WotMcpBridge.ts: the bridge with its client *)

Module Wiring.

Import Translator.

Record t : Type := mk {
  client : WotClient.t;
  bridge : WotMcpBridge.t
}.

(** [addThing(tdOrUrl, subscribeToEvents)]; [answers] is how the
    servient answers [client.consume], [subscribing] how the device
    answers the subscriptions *)
Definition addThing (answers : WotClient.Answers) (tdOrUrl : WotClient.TdOrUrl)
  (subscribeToEvents : bool) (subscribing : McpServer.Settled unit) (w : t)
  : McpServer.Settled TranslatedThing * t :=
  match WotClient.consume answers tdOrUrl (client w) with
  | (McpServer.Rejected e, c) =>
      (McpServer.Rejected e, {| client := c; bridge := bridge w |})
  | (McpServer.Resolved td, c) =>
      let '(settled, b) :=
        WotMcpBridge.addThing td subscribeToEvents
          (WotClient.subscribeAllEvents c (thing_id (translate td)) subscribing)
          (bridge w) in
      (settled, {| client := c; bridge := b |})
  end.

(** One thing to add, with what the world answers while it is added. *)
Record Attempt : Type := mkAttempt {
  tdOrUrl : WotClient.TdOrUrl;
  answers : WotClient.Answers;
  subscribing : McpServer.Settled unit
}.

(** [addThings(tdsOrUrls)]: the first rejection ends the loop *)
Fixpoint addThings (attempts : list Attempt) (w : t)
  : McpServer.Settled (list TranslatedThing) * t :=
  match attempts with
  | [] => (McpServer.Resolved [], w)
  | a :: rest =>
      match addThing (answers a) (tdOrUrl a) true (subscribing a) w with
      | (McpServer.Rejected e, w) => (McpServer.Rejected e, w)
      | (McpServer.Resolved translated, w) =>
          match addThings rest w with
          | (McpServer.Resolved results, w) =>
              (McpServer.Resolved (translated :: results), w)
          | (McpServer.Rejected e, w) => (McpServer.Rejected e, w)
          end
      end
  end.

(** [addThingSafe(bridge, tdOrUrl, label)] of [main]: a rejection is
    logged and swallowed *)
Definition addThingSafe (w : t) (a : Attempt) : t :=
  snd (addThing (answers a) (tdOrUrl a) true (subscribing a) w).

(** An entry of [config.things], with how reading and parsing its
    description file goes if [main] does so, and what the world answers
    while the thing is added. *)
Record ThingConfig : Type := mkThingConfig {
  protocol : string;
  url : string;
  td : option string;
  loaded : McpServer.Settled ThingDescription;
  world : WotClient.Answers;
  subscribed : McpServer.Settled unit
}.

(** The [addThingSafe] call that the body of
    [for (const thingConfig of config.things)] in [main] makes for an
    entry, if it makes one: an MQTT entry without description file is
    skipped, one whose file does not load is skipped, an MQTT entry whose
    file loads is added by its description, any other entry by its
    URL. *)
Definition attemptOf (entry : ThingConfig) : option Attempt :=
  if String.eqb (protocol entry) "mqtt" then
    match td entry with
    | None => None
    | Some path =>
        if String.eqb path "" then None
        else
          match loaded entry with
          | McpServer.Rejected _ => None
          | McpServer.Resolved description =>
              Some {| tdOrUrl := WotClient.Td description;
                      answers := world entry;
                      subscribing := subscribed entry |}
          end
    end
  else
    Some {| tdOrUrl := WotClient.Url (url entry);
            answers := world entry;
            subscribing := subscribed entry |}.

Definition addConfigured (w : t) (entry : ThingConfig) : t :=
  match attemptOf entry with
  | None => w
  | Some a => addThingSafe w a
  end.

(** the loop of [main] over the configured things *)
Definition addAllConfigured (entries : list ThingConfig) (w : t) : t :=
  fold_left addConfigured entries w.

(** [getThings()], [getThing(thingId)] *)
Definition getThings (w : t) : list TranslatedThing :=
  JsMap.values (WotMcpBridge.translatedThings (bridge w)).

Definition getThing (thingId : string) (w : t) : option TranslatedThing :=
  JsMap.get thingId (WotMcpBridge.translatedThings (bridge w)).

End Wiring.

(** ** A lamp, two sessions *)

Module Scenario.

Import Translator McpServer.

Definition statusAffordance : Js.Value :=
  Js.Obj [("type", Js.Str "string"); ("readOnly", Js.Bool true)].

Definition brightnessAffordance : Js.Value :=
  Js.Obj [("type", Js.Str "integer"); ("unit", Js.Str "percent")].

(** an action that declares no input *)
Definition toggleAffordance : Js.Value :=
  Js.Obj [("description", Js.Str "Toggle the lamp")].

(** an action whose input is a bare integer *)
Definition fadeAffordance : Js.Value :=
  Js.Obj [("input", Js.Obj [("type", Js.Str "integer")])].

Definition overheatAffordance : Js.Value :=
  Js.Obj [("data", Js.Obj [("type", Js.Str "number")])].

Definition lampTd : ThingDescription :=
  {| td_id := Some "urn:dev:ops:My Light_01";
     td_title := "My Light";
     td_description := None;
     td_properties := Some [("status", statusAffordance);
                            ("brightness", brightnessAffordance)];
     td_actions := Some [("toggle", toggleAffordance); ("fade", fadeAffordance)];
     td_events := Some [("overheat", overheatAffordance)] |}.

Definition lamp : TranslatedThing := translate lampTd.

Definition status : TranslatedProperty :=
  {| prop_uri := "wot://my-light-01/properties/status";
     prop_name := "status";
     prop_description := "Property status of My Light";
     prop_mimeType := "application/json";
     prop_writable := false;
     prop_wotName := "status";
     prop_schema := statusAffordance |}.

Definition toggle : TranslatedAction :=
  {| action_name := "my-light-01_toggle";
     action_description := "Toggle the lamp";
     action_inputSchema :=
       {| schema_properties := Js.Obj []; schema_required := Js.Undefined |};
     action_wotName := "toggle";
     action_thingId := "my-light-01";
     action_inputWrapped := false |}.

Definition fade : TranslatedAction :=
  {| action_name := "my-light-01_fade";
     action_description := "Execute fade on My Light";
     action_inputSchema :=
       {| schema_properties := Js.Obj [("value", Js.Obj [("type", Js.Str "integer")])];
          schema_required := Js.Arr [Js.Str "value"] |};
     action_wotName := "fade";
     action_thingId := "my-light-01";
     action_inputWrapped := true |}.

Definition overheat : string := "wot://my-light-01/events/overheat".

Definition config : McpServerConfig :=
  {| name := "wot-mcp"; version := "1.0.0";
     eventBufferSize := None; toolStrategy := None |}.

Definition reader : PropertyReader := fun _ _ => Resolved (Js.Num 1).
Definition writer : PropertyWriter := fun _ _ _ => Resolved tt.
Definition invoker : ActionInvoker := fun _ _ _ => Resolved Js.Undefined.

(** constructed, callbacks set, listening on HTTP *)
Definition started : McpServer.t :=
  startHttp (setCallbacks reader writer invoker (new config)).

Definition sessionA : Session :=
  {| session_server := 0%nat; session_transport := 1%nat |}.
Definition sessionB : Session :=
  {| session_server := 2%nat; session_transport := 3%nat |}.

(** two clients have initialized sessions *)
Definition twoSessions : McpServer.t :=
  snd (handleMcpRequest None POST "session-b" true
         (snd (handleMcpRequest None POST "session-a" true started))).

(** the first has subscribed to the overheat event *)
Definition subscribedA : McpServer.t := handleSubscribe 0%nat overheat twoSessions.

(** the lamp registered before any session is open, as [main] does *)
Definition withLamp : McpServer.t := snd (registerThing lamp started).




(** a description with two properties whose names differ in a hyphen *)
Definition twinTd : ThingDescription :=
  {| td_id := Some "urn:dev:ops:twin";
     td_title := "Twin";
     td_description := None;
     td_properties := Some [("on-off", statusAffordance); ("on_off", statusAffordance)];
     td_actions := None;
     td_events := None |}.

Definition twin : TranslatedThing := translate twinTd.

End Scenario.

(** ** WotClient.ts: event subscriptions *)

Module ClientEvents.

Import Translator.

(** A node-wot subscription handle, by identity. *)
Definition SubscriptionId : Type := nat.

(** A subscription the device is serving: made by [thing.subscribeEvent]
    and not stopped since. *)
Record Live : Type := mkLive {
  live_thing : string;
  live_event : string;
  live_id : SubscriptionId
}.

(** The client with its [eventSubscriptions], a map of maps; the inner
    map of a thing is one object, so an update of it is seen through the
    outer map. [live] is the device side. *)
Record t : Type := mk {
  client : WotClient.t;
  eventSubscriptions : JsMap.t (JsMap.t SubscriptionId);
  live : list Live;
  nextSubscription : SubscriptionId
}.

Definition new : t :=
  {| client := WotClient.new; eventSubscriptions := JsMap.empty; live := [];
     nextSubscription := 0%nat |}.

(** [this.eventSubscriptions.get(thingId)?.get(eventName)] *)
Definition lookup2 (thingId eventName : string) (m : JsMap.t (JsMap.t SubscriptionId))
  : option SubscriptionId :=
  match JsMap.get thingId m with
  | Some thingSubs => JsMap.get eventName thingSubs
  | None => None
  end.

(** what a resolved [sub.stop()] does on the device side *)
Definition stopped (sub : SubscriptionId) (l : list Live) : list Live :=
  List.filter (fun s => negb (Nat.eqb (live_id s) sub)) l.

Definition with_live (l : list Live) (c : t) : t :=
  {| client := client c; eventSubscriptions := eventSubscriptions c; live := l;
     nextSubscription := nextSubscription c |}.

Definition with_subscriptions (m : JsMap.t (JsMap.t SubscriptionId)) (c : t) : t :=
  {| client := client c; eventSubscriptions := m; live := live c;
     nextSubscription := nextSubscription c |}.

(** [subscribeEvent(thingId, eventName, callback)]; [stopping] is how
    [stop()] of a subscription already recorded settles, [subscribing] how
    [thing.subscribeEvent] does *)
Definition subscribeEvent (thingId eventName : string)
  (stopping subscribing : McpServer.Settled unit) (c : t) : McpServer.Settled unit * t :=
  match JsMap.get thingId (WotClient.consumedThings (client c)) with
  | None => (McpServer.Rejected ("Thing not found: " +:+ thingId), c)
  | Some _ =>
      let c := if JsMap.has thingId (eventSubscriptions c) then c
               else with_subscriptions
                      (JsMap.set thingId JsMap.empty (eventSubscriptions c)) c in
      let thingSubs := default JsMap.empty (JsMap.get thingId (eventSubscriptions c)) in
      let '(settled, c) :=
        match JsMap.get eventName thingSubs with
        | Some old =>
            match stopping with
            | McpServer.Resolved _ =>
                (McpServer.Resolved tt, with_live (stopped old (live c)) c)
            | McpServer.Rejected e => (McpServer.Rejected e, c)
            end
        | None => (McpServer.Resolved tt, c)
        end in
      match settled with
      | McpServer.Rejected e => (McpServer.Rejected e, c)
      | McpServer.Resolved _ =>
          match subscribing with
          | McpServer.Rejected e => (McpServer.Rejected e, c)
          | McpServer.Resolved _ =>
              let sub := nextSubscription c in
              (McpServer.Resolved tt,
               {| client := client c;
                  eventSubscriptions :=
                    JsMap.set thingId (JsMap.set eventName sub thingSubs)
                              (eventSubscriptions c);
                  live := live c ++ [mkLive thingId eventName sub];
                  nextSubscription := S sub |})
          end
      end
  end.

(** [unsubscribeEvent(thingId, eventName)] *)
Definition unsubscribeEvent (thingId eventName : string)
  (stopping : McpServer.Settled unit) (c : t) : McpServer.Settled unit * t :=
  match JsMap.get thingId (eventSubscriptions c) with
  | None => (McpServer.Resolved tt, c)
  | Some thingSubs =>
      match JsMap.get eventName thingSubs with
      | None => (McpServer.Resolved tt, c)
      | Some sub =>
          match stopping with
          | McpServer.Rejected e => (McpServer.Rejected e, c)
          | McpServer.Resolved _ =>
              (McpServer.Resolved tt,
               {| client := client c;
                  eventSubscriptions :=
                    JsMap.set thingId (JsMap.delete eventName thingSubs)
                              (eventSubscriptions c);
                  live := stopped sub (live c);
                  nextSubscription := nextSubscription c |})
          end
      end
  end.

(** the loop of [subscribeAllEvents]; [oracle name] gives the two
    outcomes for the event [name] *)
Fixpoint subscribeEach (thingId : string) (names : list string)
  (oracle : string -> McpServer.Settled unit * McpServer.Settled unit) (c : t)
  : McpServer.Settled unit * t :=
  match names with
  | [] => (McpServer.Resolved tt, c)
  | name :: rest =>
      match subscribeEvent thingId name (fst (oracle name)) (snd (oracle name)) c with
      | (McpServer.Rejected e, c) => (McpServer.Rejected e, c)
      | (McpServer.Resolved _, c) => subscribeEach thingId rest oracle c
      end
  end.

(** [subscribeAllEvents(thingId, callback)] *)
Definition subscribeAllEvents (thingId : string)
  (oracle : string -> McpServer.Settled unit * McpServer.Settled unit) (c : t)
  : McpServer.Settled unit * t :=
  match JsMap.get thingId (WotClient.consumedThings (client c)) with
  | None => (McpServer.Rejected ("Thing not found: " +:+ thingId), c)
  | Some td =>
      match td_events td with
      | None => (McpServer.Resolved tt, c)
      | Some events => subscribeEach thingId (map fst events) oracle c
      end
  end.

(** the handles in [eventSubscriptions], in the order of the two loops
    of [stop] *)
Definition recorded (m : JsMap.t (JsMap.t SubscriptionId)) : list SubscriptionId :=
  concat (map (fun entry => JsMap.values (snd entry)) m).

(** the loops of [stop]: the first rejection ends them *)
Fixpoint stopAll (stopping : SubscriptionId -> McpServer.Settled unit)
  (subs : list SubscriptionId) (l : list Live) : McpServer.Settled unit * list Live :=
  match subs with
  | [] => (McpServer.Resolved tt, l)
  | sub :: rest =>
      match stopping sub with
      | McpServer.Rejected e => (McpServer.Rejected e, l)
      | McpServer.Resolved _ => stopAll stopping rest (stopped sub l)
      end
  end.

(** [stop()]; [shutdown] is how [servient.shutdown()] settles *)
Definition stop (stopping : SubscriptionId -> McpServer.Settled unit)
  (shutdown : McpServer.Settled unit) (c : t) : McpServer.Settled unit * t :=
  match stopAll stopping (recorded (eventSubscriptions c)) (live c) with
  | (McpServer.Rejected e, l) => (McpServer.Rejected e, with_live l c)
  | (McpServer.Resolved _, l) =>
      let cleared (initialized : bool) :=
        {| client := {| WotClient.consumedThings := JsMap.empty;
                        WotClient.initialized := initialized |};
           eventSubscriptions := JsMap.empty;
           live := l;
           nextSubscription := nextSubscription c |} in
      match shutdown with
      | McpServer.Rejected e =>
          (McpServer.Rejected e, cleared (WotClient.initialized (client c)))
      | McpServer.Resolved _ => (McpServer.Resolved tt, cleared false)
      end
  end.

(** every subscription the device is serving is the one recorded for its
    thing and event *)
Definition tracked (c : t) : Prop :=
  forall s, In s (live c) ->
            lookup2 (live_thing s) (live_event s) (eventSubscriptions c)
            = Some (live_id s).

End ClientEvents.

(** ** Several things *)

Module Fleet.

Import Translator McpServer.






End Fleet.

(** ** A lamp whose title ends in a bracket *)

Module Kitchen.

Import Translator McpServer.

Definition lampTd : ThingDescription :=
  {| td_id := None;
     td_title := "Lamp (kitchen)";
     td_description := None;
     td_properties := Some [("on", Js.Obj [("type", Js.Str "boolean")])];
     td_actions := None;
     td_events := Some [("alarm", Js.Obj [])] |}.

(** a description whose title has no letter or digit *)
Definition namelessTd : ThingDescription :=
  {| td_id := None;
     td_title := "???";
     td_description := None;
     td_properties := Some [("on", Js.Obj [("type", Js.Str "boolean")])];
     td_actions := None;
     td_events := None |}.

(** what [translate] makes of the property [on] of each *)
Definition kitchenOn : TranslatedProperty :=
  {| prop_uri := "wot://lamp-kitchen/properties/on";
     prop_name := "on";
     prop_description := "Property on of Lamp (kitchen)";
     prop_mimeType := "application/json";
     prop_writable := true;
     prop_wotName := "on";
     prop_schema := Js.Obj [("type", Js.Str "boolean")] |}.

Definition namelessOn : TranslatedProperty :=
  {| prop_uri := "wot:///properties/on";
     prop_name := "on";
     prop_description := "Property on of ???";
     prop_mimeType := "application/json";
     prop_writable := true;
     prop_wotName := "on";
     prop_schema := Js.Obj [("type", Js.Str "boolean")] |}.

Definition device : string -> string -> Settled Js.Value :=
  fun _ _ => Resolved (Js.Bool true).


End Kitchen.

(** * Properties *)

(** ** Event buffer *)

Section EventBufferFacts.

Import EventBuffer.

Implicit Types (eb : EventBuffer.t) (uri : string).

(** What [push] leaves stored for the resource it pushes to. *)
Lemma stored_push now uri ty d eb :
  stored (snd (push now uri ty d eb)) uri =
    let buffer := stored eb uri ++ [mkEvent now ty d] in
    if Z.of_nat (length buffer) >? maxEvents eb then tail buffer else buffer.
Proof.
  unfold push, stored; cbn [snd buffers maxEvents].
  rewrite lookup_insert_eq. cbn [default].
  destruct (buffers eb !! uri) as [b|] eqn:Hb.
  - rewrite Hb. reflexivity.
  - rewrite lookup_insert_eq. reflexivity.
Qed.

Lemma stored_push_other now uri uri' ty d eb :
  uri <> uri' -> stored (snd (push now uri ty d eb)) uri' = stored eb uri'.
Proof.
  intros Hne. unfold push, stored; cbn [snd buffers].
  rewrite lookup_insert_ne by assumption.
  destruct (buffers eb !! uri); [reflexivity|].
  rewrite lookup_insert_ne by assumption. reflexivity.
Qed.

Lemma maxEvents_push now uri ty d eb :
  maxEvents (snd (push now uri ty d eb)) = maxEvents eb.
Proof. reflexivity. Qed.

Lemma ttlMs_push now uri ty d eb :
  ttlMs (snd (push now uri ty d eb)) = ttlMs eb.
Proof. reflexivity. Qed.

(** One [push] on a buffer within the cap: the entry is appended and at
    most one entry, the oldest, leaves. *)
Lemma stored_push_within now uri ty d eb :
  0 <= maxEvents eb ->
  (length (stored eb uri) <= Z.to_nat (maxEvents eb))%nat ->
  stored (snd (push now uri ty d eb)) uri =
    drop (length (stored eb uri) + 1 - Z.to_nat (maxEvents eb))
         (stored eb uri ++ [mkEvent now ty d]).
Proof.
  intros Hcap Hlen. rewrite stored_push. cbv zeta.
  rewrite length_app. cbn [length].
  destruct (Z.gtb_spec (Z.of_nat (length (stored eb uri) + 1)) (maxEvents eb)) as [Hgt|Hle].
  - replace (length (stored eb uri) + 1 - Z.to_nat (maxEvents eb))%nat with 1%nat by lia.
    destruct (stored eb uri); reflexivity.
  - replace (length (stored eb uri) + 1 - Z.to_nat (maxEvents eb))%nat with 0%nat by lia.
    reflexivity.
Qed.

Lemma pushAll_maxEvents uri calls eb :
  maxEvents (pushAll uri calls eb) = maxEvents eb.
Proof.
  revert eb. induction calls as [|[[now ty] d] calls IH]; intros eb; cbn [pushAll].
  - reflexivity.
  - rewrite IH. apply maxEvents_push.
Qed.

(** A run of pushes on a buffer within the cap keeps the newest
    [maxEvents] entries of the old contents followed by the pushed ones. *)
Lemma stored_pushAll uri calls eb :
  0 <= maxEvents eb ->
  (length (stored eb uri) <= Z.to_nat (maxEvents eb))%nat ->
  stored (pushAll uri calls eb) uri =
    drop (length (stored eb uri) + length calls - Z.to_nat (maxEvents eb))
         (stored eb uri ++ map eventOf calls).
Proof.
  revert eb. induction calls as [|[[now ty] d] calls IH]; intros eb Hcap Hlen.
  - cbn [pushAll map length]. rewrite app_nil_r.
    replace (length (stored eb uri) + 0 - Z.to_nat (maxEvents eb))%nat with 0%nat by lia.
    reflexivity.
  - cbn [pushAll map length eventOf].
    pose proof (stored_push_within now uri ty d eb Hcap Hlen) as Hone.
    set (eb1 := snd (push now uri ty d eb)) in *.
    assert (Hlen1 : (length (stored eb1 uri) <= Z.to_nat (maxEvents eb1))%nat).
    { rewrite Hone, length_drop, length_app. cbn [length].
      change (maxEvents eb1) with (maxEvents eb). lia. }
    rewrite IH by (try assumption; exact Hcap).
    change (maxEvents eb1) with (maxEvents eb).
    rewrite Hone at 2.
    set (n1 := (length (stored eb uri) + 1 - Z.to_nat (maxEvents eb))%nat).
    assert (Hn1 : (n1 <= length (stored eb uri ++ [mkEvent now ty d]))%nat).
    { rewrite length_app. cbn [length]. lia. }
    rewrite <- (drop_app_le _ (map eventOf calls) n1 Hn1).
    rewrite drop_drop, <- app_assoc. cbn [app].
    f_equal.
    rewrite Hone, length_drop, length_app. cbn [length]. lia.
Qed.

Lemma within_cap_push now uri ty d eb :
  0 <= maxEvents eb -> within_cap eb -> within_cap (snd (push now uri ty d eb)).
Proof.
  intros Hcap Hin uri'. rewrite maxEvents_push.
  destruct (decide (uri = uri')) as [<-|Hne].
  - rewrite stored_push_within by auto.
    rewrite length_drop, length_app. cbn [length]. specialize (Hin uri). lia.
  - rewrite stored_push_other by assumption. apply Hin.
Qed.

Lemma filter_all {A : Type} (f : A -> bool) (l : list A) :
  length (List.filter f l) = length l -> List.filter f l = l.
Proof.
  induction l as [|a l IH]; cbn [List.filter]; [reflexivity|].
  destruct (f a); cbn [length]; intros Hlen.
  - f_equal. apply IH. lia.
  - pose proof (List.filter_length_le f l). lia.
Qed.

Lemma stored_pruneExpired now uri uri' eb :
  stored (pruneExpired now uri eb) uri' =
    if decide (uri = uri')
    then List.filter (fun e => timestamp e >? now - ttlMs eb) (stored eb uri)
    else stored eb uri'.
Proof.
  unfold pruneExpired, stored.
  destruct (buffers eb !! uri) as [b|] eqn:Hb; cbn [default].
  - destruct (Nat.eqb_spec (length (List.filter (fun e => timestamp e >? now - ttlMs eb) b))
                           (length b)) as [Heq|Hneq]; cbn [negb set_buffers buffers].
    + destruct (decide (uri = uri')) as [<-|Hne]; [|reflexivity].
      rewrite Hb. cbn [default]. symmetry. apply filter_all, Heq.
    + destruct (decide (uri = uri')) as [<-|Hne].
      * rewrite lookup_insert_eq. reflexivity.
      * rewrite lookup_insert_ne by assumption. reflexivity.
  - destruct (decide (uri = uri')) as [<-|Hne]; [|reflexivity].
    rewrite Hb. reflexivity.
Qed.

Lemma maxEvents_pruneExpired now uri eb :
  maxEvents (pruneExpired now uri eb) = maxEvents eb.
Proof.
  unfold pruneExpired. destruct (buffers eb !! uri); [|reflexivity].
  destruct (negb _); reflexivity.
Qed.

Lemma ttlMs_pruneExpired now uri eb :
  ttlMs (pruneExpired now uri eb) = ttlMs eb.
Proof.
  unfold pruneExpired. destruct (buffers eb !! uri); [|reflexivity].
  destruct (negb _); reflexivity.
Qed.

Lemma within_cap_pruneExpired now uri eb :
  within_cap eb -> within_cap (pruneExpired now uri eb).
Proof.
  intros Hin uri'. rewrite maxEvents_pruneExpired, stored_pruneExpired.
  destruct (decide (uri = uri')); [|apply Hin].
  etransitivity; [apply List.filter_length_le|apply Hin].
Qed.

Lemma within_cap_step eb c :
  0 <= maxEvents eb -> within_cap eb ->
  within_cap (step eb c) /\ maxEvents (step eb c) = maxEvents eb.
Proof.
  intros Hcap Hin. destruct c; cbn [step].
  - split; [apply within_cap_push; assumption|reflexivity].
  - unfold get; cbn [snd].
    split; [apply within_cap_pruneExpired; assumption|apply maxEvents_pruneExpired].
  - unfold getSince, get; cbn [snd].
    split; [apply within_cap_pruneExpired; assumption|apply maxEvents_pruneExpired].
  - unfold getRecent, get; cbn [snd].
    split; [apply within_cap_pruneExpired; assumption|apply maxEvents_pruneExpired].
  - split; [|reflexivity]. intros uri'. unfold stored, clear; cbn [buffers maxEvents].
    destruct (decide (uri = uri')) as [<-|Hne].
    + rewrite lookup_delete_eq. cbn. lia.
    + rewrite lookup_delete_ne by assumption. apply Hin.
  - split; [|reflexivity]. intros uri'. unfold stored, clearAll; cbn [buffers maxEvents].
    rewrite lookup_empty. cbn. lia.
  - split.
    + intros uri'. unfold initialize.
      destruct (buffers eb !! uri) eqn:Hb; [apply Hin|].
      unfold stored, set_buffers; cbn [buffers maxEvents].
      destruct (decide (uri = uri')) as [<-|Hne].
      * rewrite lookup_insert_eq. cbn. lia.
      * rewrite lookup_insert_ne by assumption. apply Hin.
    + unfold initialize. destruct (buffers eb !! uri); reflexivity.
Qed.

Lemma within_cap_after options history :
  0 <= maxEvents (new options) ->
  within_cap (after options history)
  /\ maxEvents (after options history) = maxEvents (new options).
Proof.
  intros Hcap. unfold after.
  induction history as [|c history IH] using rev_ind.
  - split; [|reflexivity]. intros uri. cbn [fold_left]. unfold stored, new; cbn [buffers].
    rewrite lookup_empty. cbn. lia.
  - rewrite fold_left_app. cbn [fold_left].
    destruct IH as [Hin Hmax].
    destruct (within_cap_step (fold_left step history (new options)) c) as [Hin' Hmax'].
    + rewrite Hmax. exact Hcap.
    + exact Hin.
    + split; [exact Hin'|]. rewrite Hmax'. exact Hmax.
Qed.

Lemma ttlMs_step eb c : ttlMs (step eb c) = ttlMs eb.
Proof.
  destruct c as [now u ty d|now u|now u s|now u n|u| |u]; cbn [step];
    unfold getSince, getRecent, get; cbn [snd];
    try apply ttlMs_pruneExpired; try reflexivity.
  unfold initialize. destruct (buffers eb !! u); reflexivity.
Qed.

Lemma ttlMs_steps eb history : ttlMs (fold_left step history eb) = ttlMs eb.
Proof.
  induction history as [|c history IH] using rev_ind; [reflexivity|].
  rewrite fold_left_app. cbn [fold_left]. rewrite ttlMs_step. exact IH.
Qed.

(** C2. On an event buffer with a non-negative cap, in any state its
    methods can bring it to, pushing [maxEvents + k] events to one resource
    leaves exactly [maxEvents] entries for it, namely the pushed ones
    without their [k] oldest (first in, first out); every single push
    leaves the resource with at most [maxEvents] entries; and the cap is
    100 when no option is given. *)
Theorem C2_buffer_bound options history uri calls (k : nat) :
  0 <= maxEvents (new options) ->
  Z.of_nat (length calls) = maxEvents (new options) + Z.of_nat k ->
  let eb := after options history in
  let eb' := pushAll uri calls eb in
  stored eb' uri = drop k (map eventOf calls)
  /\ Z.of_nat (length (stored eb' uri)) = maxEvents (new options)
  /\ Z.of_nat (count uri eb') = maxEvents (new options)
  /\ (forall now uri' ty d,
         Z.of_nat (length (stored (snd (push now uri' ty d eb)) uri'))
         <= maxEvents (new options))
  /\ maxEvents (new no_options) = 100.
Proof.
  intros Hcap Hlen eb eb'.
  destruct (within_cap_after options history Hcap) as [Hin Hmax].
  fold eb in Hin, Hmax.
  assert (Hstored : stored eb' uri = drop k (map eventOf calls)).
  { unfold eb'. rewrite stored_pushAll by (first [apply Hin | rewrite Hmax; exact Hcap]).
    rewrite Hmax.
    replace (length (stored eb uri) + length calls - Z.to_nat (maxEvents (new options)))%nat
      with (length (stored eb uri) + k)%nat by lia.
    apply drop_app_add. }
  assert (Hcount : Z.of_nat (length (stored eb' uri)) = maxEvents (new options)).
  { rewrite Hstored, length_drop, length_map. lia. }
  split; [exact Hstored|]. split; [exact Hcount|]. split.
  - rewrite <- Hcount. unfold count, stored.
    destruct (buffers eb' !! uri); reflexivity.
  - split; [|reflexivity].
    intros now uri' ty d.
    pose proof (within_cap_push now uri' ty d eb) as Hpush.
    rewrite Hmax in Hpush. specialize (Hpush Hcap Hin uri').
    rewrite maxEvents_push, Hmax in Hpush. lia.
Qed.

(** C3. [get] returns, and leaves stored, exactly the entries younger than
    the TTL at the time of the read; so an event pushed at [t0] is absent
    from a [get] made once the TTL has elapsed since [t0]. [getSince] and
    [getRecent] select from that same pruned list and leave the same
    state as [get]. The TTL is one hour when no option is given. *)
Theorem C3_ttl_pruning eb uri now t0 ty d later :
  t0 + ttlMs eb <= later ->
  let pruned := fst (get now uri eb) in
  pruned = List.filter (fun e => timestamp e >? now - ttlMs eb) (stored eb uri)
  /\ stored (snd (get now uri eb)) uri = pruned
  /\ (forall e, In e pruned <-> In e (stored eb uri) /\ now - ttlMs eb < timestamp e)
  /\ ~ In (mkEvent t0 ty d) (fst (get later uri (snd (push t0 uri ty d eb))))
  /\ (forall history e,
         timestamp e + ttlMs eb <= later ->
         ~ In e (fst (get later uri (fold_left step history eb))))
  /\ (forall sinceDate,
         getSince now uri sinceDate eb =
           (List.filter (fun e => match sinceDate with
                                  | Some s => timestamp e >? s
                                  | None => false
                                  end) pruned,
            snd (get now uri eb)))
  /\ (forall n, getRecent now uri n eb = (Js.slice (- n) pruned, snd (get now uri eb)))
  /\ (forall sinceDate e,
         In e (fst (getSince now uri sinceDate eb)) ->
         In e pruned /\ now - ttlMs eb < timestamp e)
  /\ (forall n e,
         In e (fst (getRecent now uri n eb)) ->
         In e pruned /\ now - ttlMs eb < timestamp e)
  /\ ttlMs (new no_options) = 60 * 60 * 1000.
Proof.
  intros Helapsed pruned.
  assert (Hget : forall now' eb', fst (get now' uri eb') =
            List.filter (fun e => timestamp e >? now' - ttlMs eb') (stored eb' uri)).
  { intros now' eb'. unfold get; cbn [fst]. rewrite stored_pruneExpired.
    destruct (decide (uri = uri)); [reflexivity|congruence]. }
  assert (Hyoung : forall now' eb' e, In e (fst (get now' uri eb')) ->
            now' - ttlMs eb' < timestamp e).
  { intros now' eb' e. rewrite Hget, List.filter_In. intros [_ H]. lia. }
  split; [apply Hget|]. split.
  { unfold pruned, get; cbn [fst snd]. reflexivity. }
  split.
  { intros e. unfold pruned. rewrite Hget, List.filter_In.
    split; intros [Hin H]; (split; [exact Hin|lia]). }
  split.
  { intros Hin. apply Hyoung in Hin. rewrite ttlMs_push in Hin.
    cbn [timestamp] in Hin. lia. }
  split.
  { intros history e He Hin. apply Hyoung in Hin.
    rewrite ttlMs_steps in Hin. lia. }
  split; [intros sinceDate; reflexivity|].
  split; [intros n; reflexivity|].
  split.
  { intros sinceDate e. unfold getSince.
    change (get now uri eb) with (pruned, snd (get now uri eb)). cbn [fst].
    rewrite List.filter_In. intros [Hin _]. split; [exact Hin|].
    apply (Hyoung now eb), Hin. }
  split; [|reflexivity].
  intros n e. unfold getRecent.
  change (get now uri eb) with (pruned, snd (get now uri eb)). cbn [fst].
  unfold Js.slice. intros Hin.
  assert (Hin' : In e pruned).
  { rewrite <- (take_drop (Z.to_nat (if - n <? 0
                                     then Z.max (Z.of_nat (length pruned) + - n) 0
                                     else Z.min (- n) (Z.of_nat (length pruned))))
                          pruned).
    apply in_or_app. right. exact Hin. }
  split; [exact Hin'|]. apply (Hyoung now eb), Hin'.
Qed.

(** C10. [getRecent(uri, 0)] returns every entry [get] returns, hence a
    non-empty list whenever the pruned buffer is non-empty; for [n >= 1]
    it returns the last [n] of them (all of them when there are fewer). *)
Theorem C10_getRecent_zero eb uri now n :
  1 <= n ->
  let pruned := fst (get now uri eb) in
  fst (getRecent now uri 0 eb) = pruned
  /\ (pruned <> [] -> fst (getRecent now uri 0 eb) <> [])
  /\ fst (getRecent now uri n eb) = drop (length pruned - Z.to_nat n) pruned
  /\ length (fst (getRecent now uri n eb)) = Nat.min (Z.to_nat n) (length pruned).
Proof.
  intros Hn pruned.
  assert (Hzero : fst (getRecent now uri 0 eb) = pruned).
  { unfold getRecent, pruned. destruct (get now uri eb) as [events eb'].
    cbn [fst]. unfold Js.slice. cbn [Z.opp Z.ltb Z.compare].
    rewrite Z.min_l by lia. reflexivity. }
  assert (Hlast : fst (getRecent now uri n eb) = drop (length pruned - Z.to_nat n) pruned).
  { unfold getRecent, pruned. destruct (get now uri eb) as [events eb'].
    cbn [fst]. unfold Js.slice.
    destruct (Z.ltb_spec (- n) 0) as [_|Hge]; [|lia].
    f_equal. lia. }
  split; [exact Hzero|]. split; [rewrite Hzero; auto|].
  split; [exact Hlast|]. rewrite Hlast, length_drop. lia.
Qed.

End EventBufferFacts.

(** ** Translator *)

Section TranslatorFacts.

Import Translator.

Lemma alnum_not_hyphen c : is_lower_alnum c = true -> is_hyphen c = false.
Proof.
  destruct c as [b0 b1 b2 b3 b4 b5 b6 b7].
  destruct b0, b1, b2, b3, b4, b5, b6, b7; vm_compute; congruence.
Qed.

Lemma hyphen_is_hyphen : is_hyphen hyphen = true.
Proof. reflexivity. Qed.

Lemma hyphen_not_alnum : is_lower_alnum hyphen = false.
Proof. reflexivity. Qed.

(** *** [replace_runs] *)

Lemma replace_runs_chars b s : id_chars (replace_runs b s) = true.
Proof.
  revert b. induction s as [|c s IH]; intros b; cbn [replace_runs]; [reflexivity|].
  destruct (is_lower_alnum c) eqn:Hc.
  - cbn [id_chars]. rewrite Hc, IH. reflexivity.
  - destruct b; [apply IH|].
    cbn [id_chars]. rewrite hyphen_is_hyphen, IH, orb_true_r. reflexivity.
Qed.

Lemma replace_runs_in_run s : starts_with_hyphen (replace_runs true s) = false.
Proof.
  induction s as [|c s IH]; cbn [replace_runs]; [reflexivity|].
  destruct (is_lower_alnum c) eqn:Hc; [|exact IH].
  cbn [starts_with_hyphen]. apply alnum_not_hyphen, Hc.
Qed.

Lemma replace_runs_single b s : no_double_hyphen (replace_runs b s) = true.
Proof.
  revert b. induction s as [|c s IH]; intros b; cbn [replace_runs]; [reflexivity|].
  destruct (is_lower_alnum c) eqn:Hc.
  - cbn [no_double_hyphen]. rewrite (alnum_not_hyphen c Hc), IH. reflexivity.
  - destruct b; [apply IH|].
    cbn [no_double_hyphen]. rewrite replace_runs_in_run, IH, andb_false_r.
    reflexivity.
Qed.

Lemma replace_runs_alnum b s : alnum_part (replace_runs b s) = alnum_part s.
Proof.
  revert b. induction s as [|c s IH]; intros b; cbn [replace_runs alnum_part]; [reflexivity|].
  destruct (is_lower_alnum c) eqn:Hc.
  - cbn [alnum_part]. rewrite Hc, IH. reflexivity.
  - destruct b; [apply IH|].
    cbn [alnum_part]. rewrite hyphen_not_alnum. apply IH.
Qed.

(** *** [trim_hyphens] *)

Lemma hyphen_char_not_alnum c : is_hyphen c = true -> is_lower_alnum c = false.
Proof.
  intros Hc. destruct (is_lower_alnum c) eqn:Ha; [|reflexivity].
  apply alnum_not_hyphen in Ha. congruence.
Qed.

Lemma strip_leading_chars s : id_chars s = true -> id_chars (strip_leading_hyphen s) = true.
Proof.
  destruct s as [|c s]; cbn [strip_leading_hyphen]; [reflexivity|].
  intros H. destruct (is_hyphen c); [|exact H].
  cbn [id_chars] in H. apply andb_true_iff in H. apply H.
Qed.

Lemma strip_leading_single s :
  no_double_hyphen s = true ->
  no_double_hyphen (strip_leading_hyphen s) = true
  /\ starts_with_hyphen (strip_leading_hyphen s) = false.
Proof.
  destruct s as [|c s]; cbn [strip_leading_hyphen no_double_hyphen]; [split; reflexivity|].
  destruct (is_hyphen c) eqn:Hc; cbn [andb negb starts_with_hyphen no_double_hyphen].
  - intros H. apply andb_true_iff in H. destruct H as [H1 H2].
    split; [exact H2|]. destruct (starts_with_hyphen s); [discriminate|reflexivity].
  - rewrite Hc. cbn [andb negb]. intros H. split; [exact H|reflexivity].
Qed.

Lemma strip_leading_alnum s : alnum_part (strip_leading_hyphen s) = alnum_part s.
Proof.
  destruct s as [|c s]; cbn [strip_leading_hyphen alnum_part]; [reflexivity|].
  destruct (is_hyphen c) eqn:Hc; [|reflexivity].
  rewrite (hyphen_char_not_alnum c Hc). reflexivity.
Qed.

Lemma strip_trailing_cons c s :
  strip_trailing_hyphen (String c s) =
    match s with
    | EmptyString => if is_hyphen c then EmptyString else String c EmptyString
    | String _ _ => String c (strip_trailing_hyphen s)
    end.
Proof. destruct s; reflexivity. Qed.

Lemma strip_trailing_chars s : id_chars s = true -> id_chars (strip_trailing_hyphen s) = true.
Proof.
  induction s as [|c s IH]; [reflexivity|].
  rewrite strip_trailing_cons. cbn [id_chars]. intros H.
  apply andb_true_iff in H. destruct H as [Hc Hs].
  destruct s as [|c' s'].
  - revert Hc. destruct (is_hyphen c) eqn:Hy; cbn [id_chars]; [reflexivity|].
    rewrite Hy. intros ->. reflexivity.
  - cbn [id_chars]. rewrite Hc, (IH Hs). reflexivity.
Qed.

Lemma strip_trailing_start s :
  starts_with_hyphen s = false -> starts_with_hyphen (strip_trailing_hyphen s) = false.
Proof.
  destruct s as [|c s]; [reflexivity|].
  rewrite strip_trailing_cons. cbn [starts_with_hyphen]. intros Hc.
  destruct s; [rewrite Hc|]; exact Hc.
Qed.

Lemma strip_trailing_end s :
  no_double_hyphen s = true -> ends_with_hyphen (strip_trailing_hyphen s) = false.
Proof.
  induction s as [|c s IH]; [reflexivity|].
  rewrite strip_trailing_cons. cbn [no_double_hyphen]. intros H.
  apply andb_true_iff in H. destruct H as [Hc Hs].
  destruct s as [|c' s'].
  - destruct (is_hyphen c) eqn:Hy; cbn [ends_with_hyphen]; [reflexivity|exact Hy].
  - specialize (IH Hs). rewrite strip_trailing_cons in IH |- *.
    cbn [starts_with_hyphen] in Hc.
    destruct s' as [|c'' s''].
    + destruct (is_hyphen c') eqn:Hy'; cbn [ends_with_hyphen].
      * rewrite andb_true_r in Hc. destruct (is_hyphen c); [discriminate|reflexivity].
      * exact Hy'.
    + exact IH.
Qed.

Lemma strip_trailing_alnum s : alnum_part (strip_trailing_hyphen s) = alnum_part s.
Proof.
  induction s as [|c s IH]; [reflexivity|].
  rewrite strip_trailing_cons. destruct s as [|c' s'].
  - destruct (is_hyphen c) eqn:Hc; [|reflexivity].
    cbn [alnum_part]. rewrite (hyphen_char_not_alnum c Hc). reflexivity.
  - cbn [alnum_part] in *. rewrite IH. reflexivity.
Qed.

(** What [sanitizeId] returns, whatever it is given. *)
Lemma sanitizeId_shape str :
  id_chars (sanitizeId str) = true
  /\ starts_with_hyphen (sanitizeId str) = false
  /\ ends_with_hyphen (sanitizeId str) = false
  /\ alnum_part (sanitizeId str) = alnum_part (toLowerCase str).
Proof.
  unfold sanitizeId, trim_hyphens.
  set (r := replace_runs false (toLowerCase str)).
  pose proof (replace_runs_chars false (toLowerCase str)) as Hchars.
  pose proof (replace_runs_single false (toLowerCase str)) as Hsingle.
  fold r in Hchars, Hsingle.
  destruct (strip_leading_single r Hsingle) as [Hsingle' Hstart].
  split; [apply strip_trailing_chars, strip_leading_chars, Hchars|].
  split; [apply strip_trailing_start, Hstart|].
  split; [apply strip_trailing_end, Hsingle'|].
  rewrite strip_trailing_alnum, strip_leading_alnum. apply replace_runs_alnum.
Qed.

(** *** [split] *)

Lemma split_no_separator s : has_separator s = false -> split s = [s].
Proof.
  induction s as [|c s IH]; cbn [has_separator split]; [reflexivity|].
  intros H. apply orb_false_iff in H. destruct H as [Hc Hs].
  rewrite Hc, (IH Hs). reflexivity.
Qed.

Lemma split_not_nil s : split s <> [].
Proof.
  destruct s as [|c s]; cbn [split]; [discriminate|].
  destruct (is_separator c); [discriminate|].
  destruct (split s); discriminate.
Qed.

Lemma split_separator s :
  has_separator s = true -> exists a b l, split s = a :: b :: l.
Proof.
  induction s as [|c s IH]; cbn [has_separator split]; [discriminate|].
  destruct (is_separator c) eqn:Hc; cbn [orb].
  - intros _. destruct (split s) as [|b l] eqn:Hs; [destruct (split_not_nil s Hs)|].
    eauto.
  - intros Hs. destruct (IH Hs) as (a & b & l & ->). eauto.
Qed.

(** [parts[parts.length - 1]] is the part of the identifier after its last
    colon or slash. *)
Lemma last_segment s :
  exists before,
    s = before +:+ List.last (split s) ""
    /\ has_separator (List.last (split s) "") = false
    /\ (before = ""
        \/ exists before' c,
             before = before' +:+ String c "" /\ is_separator c = true).
Proof.
  induction s as [|c s IH].
  - exists "". repeat split; auto.
  - destruct (has_separator (String c s)) eqn:Hsep.
    + destruct IH as (before & Hs & Hlast & Hbefore).
      assert (Hlast_eq : List.last (split (String c s)) "" = List.last (split s) "").
      { cbn [split has_separator] in *.
        destruct (is_separator c) eqn:Hc.
        - destruct (split s) as [|b l] eqn:Hsp; [destruct (split_not_nil s Hsp)|].
          reflexivity.
        - cbn [orb] in Hsep. destruct (split_separator s Hsep) as (a & b & l & ->).
          reflexivity. }
      rewrite Hlast_eq. exists (String c before).
      split.
      { change (String c s = String c (before +:+ List.last (split s) "")).
        f_equal. exact Hs. }
      split; [exact Hlast|].
      right. destruct Hbefore as [->|(before' & c' & -> & Hc')].
      * exists "", c. split; [reflexivity|].
        cbn [has_separator] in Hsep.
        change (s = List.last (split s) "") in Hs. rewrite <- Hs in Hlast.
        rewrite Hlast, orb_false_r in Hsep. exact Hsep.
      * exists (String c before'), c'. split; [reflexivity|exact Hc'].
    + rewrite (split_no_separator _ Hsep). cbn [List.last].
      exists "". repeat split; auto.
Qed.

(** C5. The thing id is [sanitizeId] of the part of the description's
    identifier after its last colon or slash, or of the title when there
    is no (non-empty) identifier; [sanitizeId] lowercases, replaces each
    run of characters outside [[a-z0-9]] by one hyphen and trims a leading
    and a trailing hyphen. The result has only characters of [[a-z0-9-]],
    neither starts nor ends with a hyphen, and keeps the [[a-z0-9]]
    characters of the lowercased source in order; the identifier
    [urn:dev:ops:My Light_01] gives [my-light-01]. *)
Theorem C5_thing_id td :
  let source :=
    match td_id td with
    | Some id => if String.eqb id "" then td_title td else List.last (split id) ""
    | None => td_title td
    end in
  extractThingId td = sanitizeId source
  /\ sanitizeId source = trim_hyphens (replace_runs false (toLowerCase source))
  /\ (forall id, exists before,
         id = before +:+ List.last (split id) ""
         /\ has_separator (List.last (split id) "") = false
         /\ (before = ""
             \/ exists before' c,
                  before = before' +:+ String c "" /\ is_separator c = true))
  /\ id_chars (extractThingId td) = true
  /\ starts_with_hyphen (extractThingId td) = false
  /\ ends_with_hyphen (extractThingId td) = false
  /\ alnum_part (extractThingId td) = alnum_part (toLowerCase source)
  /\ (forall title description props acts evs,
         extractThingId (mkTD (Some "urn:dev:ops:My Light_01") title description
                              props acts evs) = "my-light-01").
Proof.
  intros source.
  assert (Hid : extractThingId td = sanitizeId source).
  { unfold extractThingId, source. destruct (td_id td) as [id|]; [|reflexivity].
    destruct (String.eqb id ""); reflexivity. }
  destruct (sanitizeId_shape source) as (Hchars & Hstart & Hend & Halnum).
  rewrite Hid.
  split; [reflexivity|]. split; [reflexivity|].
  split; [exact last_segment|].
  split; [exact Hchars|]. split; [exact Hstart|]. split; [exact Hend|].
  split; [exact Halnum|].
  intros title description props acts evs. reflexivity.
Qed.

Lemma member_value x : Js.member (Js.Obj [("value", x)]) "value" = x.
Proof. reflexivity. Qed.

Lemma objectWithProperties_truthy input :
  objectWithProperties input = true -> Js.truthy input = true.
Proof. destruct input; cbn; congruence. Qed.

(** [buildActionInputSchema], case by case. *)
Lemma buildActionInputSchema_cases input :
  (snd (buildActionInputSchema input) = true
   <-> Js.truthy input = true /\ objectWithProperties input = false)
  /\ (snd (buildActionInputSchema input) = true ->
      fst (buildActionInputSchema input) =
        {| schema_properties := Js.Obj [("value", input)];
           schema_required := Js.Arr [Js.Str "value"] |})
  /\ (objectWithProperties input = true ->
      fst (buildActionInputSchema input) =
        {| schema_properties := Js.member input "properties";
           schema_required := Js.member input "required" |})
  /\ (Js.truthy input = false ->
      fst (buildActionInputSchema input) =
        {| schema_properties := Js.Obj []; schema_required := Js.Undefined |}).
Proof.
  unfold buildActionInputSchema.
  fold (objectWithProperties input).
  pose proof (objectWithProperties_truthy input) as Hobj.
  destruct (Js.truthy input) eqn:Ht; cbn [negb].
  - destruct (objectWithProperties input) eqn:Ho; cbn [fst snd].
    + repeat split; try congruence. intros [_ H]; congruence.
    + repeat split; congruence.
  - cbn [fst snd]. repeat split; try congruence.
    + intros [H _]; congruence.
    + intros H. specialize (Hobj H). congruence.
Qed.

Lemma translateActions_In thingId td action :
  In action (translateActions thingId td) ->
  exists name affordance,
    In (name, affordance) (default [] (td_actions td))
    /\ action_wotName action = name
    /\ action_thingId action = thingId
    /\ action_name action = thingId +:+ "_" +:+ name
    /\ action_inputSchema action = fst (buildActionInputSchema (Js.member affordance "input"))
    /\ action_inputWrapped action = snd (buildActionInputSchema (Js.member affordance "input")).
Proof.
  unfold translateActions. destruct (td_actions td) as [entries|]; [|intros []].
  intros Hin. apply in_map_iff in Hin. destruct Hin as ([name affordance] & <- & Hin).
  exists name, affordance. cbn [default].
  destruct (buildActionInputSchema (Js.member affordance "input")) as [schema wrapped].
  repeat split; try reflexivity. exact Hin.
Qed.

(** C4, as the code has it. For every action [translate] produces,
    [inputWrapped] is true if and only if the action declares an input
    schema (a truthy [input]) that is not an object-with-properties
    schema; an action without declared input gets the empty object schema
    and [inputWrapped] false. A wrapped input has the schema
    [{type: object, properties: {value: input}, required: [value]}], and
    with an invoker configured, calling the tool of a wrapped action with
    [{value: x}] makes exactly one device call: the external invoke
    function with bare [x]. *)
Theorem C4_action_wrapping td thingId action st invoker x :
  In action (translateActions thingId td) ->
  McpServer.actionInvoker st = Some invoker ->
  exists name affordance,
    In (name, affordance) (default [] (td_actions td))
    /\ action_wotName action = name
    /\ let input := Js.member affordance "input" in
       (action_inputWrapped action = true
        <-> Js.truthy input = true /\ objectWithProperties input = false)
       /\ (Js.truthy input = false ->
           action_inputWrapped action = false
           /\ action_inputSchema action =
                {| schema_properties := Js.Obj []; schema_required := Js.Undefined |})
       /\ (objectWithProperties input = true ->
           action_inputSchema action =
             {| schema_properties := Js.member input "properties";
                schema_required := Js.member input "required" |})
       /\ (action_inputWrapped action = true ->
           action_inputSchema action =
             {| schema_properties := Js.Obj [("value", input)];
                schema_required := Js.Arr [Js.Str "value"] |}
           /\ McpServer.callExplicitTool st (McpServer.ActionHandler action)
                (Js.Obj [("value", x)])
              = Some (McpServer.invokeActionTool st action (Js.Obj [("value", x)]))
           /\ snd (McpServer.invokeActionTool st action (Js.Obj [("value", x)]))
              = [McpServer.InvokeCall thingId name x]).
Proof.
  intros Hin Hinvoker.
  destruct (translateActions_In thingId td action Hin)
    as (name & affordance & Hentry & Hname & Hthing & _ & Hschema & Hwrapped).
  exists name, affordance. split; [exact Hentry|]. split; [exact Hname|].
  intros input.
  destruct (buildActionInputSchema_cases input) as (Hiff & Hwrap & Hpass & Hnone).
  fold input in Hschema, Hwrapped. rewrite Hwrapped, Hschema.
  split; [exact Hiff|]. split.
  { intros Hfalsy. split; [|apply Hnone, Hfalsy].
    apply not_true_is_false. intros Hw. apply Hiff in Hw.
    destruct Hw; congruence. }
  split; [exact Hpass|].
  intros Hw. split; [apply Hwrap, Hw|]. split; [reflexivity|].
  unfold McpServer.invokeActionTool. rewrite Hinvoker, Hwrapped, Hw.
  cbn [andb Js.truthy]. rewrite member_value, Hthing, Hname.
  unfold McpServer.bind, McpServer.await.
  destruct (invoker thingId name x); reflexivity.
Qed.

End TranslatorFacts.

(** ** Insertion-ordered maps *)

Section JsMapFacts.

Context {V : Type}.

Implicit Types (m : JsMap.t V) (k : string).

Lemma jsmap_get_set_eq k v m : JsMap.get k (JsMap.set k v m) = Some v.
Proof.
  induction m as [|[k' v'] m IH]; cbn [JsMap.set JsMap.get].
  - rewrite String.eqb_refl. reflexivity.
  - destruct (String.eqb k k') eqn:Hk; cbn [JsMap.get].
    + rewrite String.eqb_refl. reflexivity.
    + rewrite Hk. exact IH.
Qed.

Lemma jsmap_get_set_ne k k' v m :
  k <> k' -> JsMap.get k' (JsMap.set k v m) = JsMap.get k' m.
Proof.
  intros Hne. induction m as [|[k0 v0] m IH]; cbn [JsMap.set JsMap.get].
  - destruct (String.eqb_spec k' k); [congruence|reflexivity].
  - destruct (String.eqb_spec k k0) as [->|Hk]; cbn [JsMap.get].
    + destruct (String.eqb_spec k' k0); [congruence|reflexivity].
    + destruct (String.eqb k' k0); [reflexivity|exact IH].
Qed.

Lemma jsmap_get_values k v m : JsMap.get k m = Some v -> In v (JsMap.values m).
Proof.
  induction m as [|[k' v'] m IH]; cbn [JsMap.get JsMap.values map snd]; [discriminate|].
  destruct (String.eqb k k'); [intros [= ->]; left; reflexivity|].
  intros H. right. apply IH, H.
Qed.

Lemma jsmap_set_fresh k v m :
  JsMap.get k m = None -> JsMap.set k v m = m ++ [(k, v)].
Proof.
  induction m as [|[k' v'] m IH]; cbn [JsMap.get JsMap.set app]; [reflexivity|].
  destruct (String.eqb k k'); [discriminate|].
  intros H. rewrite (IH H). reflexivity.
Qed.


Section Fold.

Context {X : Type} (key : X -> string) (val : X -> V).




End Fold.

End JsMapFacts.

(** ** Server instances *)

Section InstanceFacts.

Import Translator McpServer.

Implicit Types (st : McpServer.t) (server : ServerId) (srv : SdkMcpServer).

Lemma frame_onServer server f st : frame (onServer server f st) = frame st.
Proof. reflexivity. Qed.

Lemma onServer_compose server f g st :
  onServer server g (onServer server f st) = onServer server (fun srv => g (f srv)) st.
Proof.
  unfold onServer, set_instances; cbn. f_equal.
  apply (alter_alter_eq g f).
Qed.

Lemma onServer_ext server f g st :
  (forall srv, f srv = g srv) -> onServer server f st = onServer server g st.
Proof.
  intros Hfg. unfold onServer. f_equal. apply alter_ext. intros srv _. apply Hfg.
Qed.

Lemma onServer_id server f st :
  (forall srv, f srv = srv) -> onServer server f st = st.
Proof.
  intros Hf. unfold onServer. rewrite alter_id by (intros; apply Hf).
  destruct st; reflexivity.
Qed.

Lemma instances_onServer server server' f st :
  instances (onServer server f st) !! server' =
    if decide (server = server') then f <$> instances st !! server
    else instances st !! server'.
Proof.
  unfold onServer; cbn [instances set_instances].
  destruct (decide (server = server')) as [<-|Hne].
  - apply lookup_alter_eq.
  - apply lookup_alter_ne, Hne.
Qed.

Lemma concat_singletons {X Y : Type} (f : X -> Y) (l : list X) :
  concat (map (fun x => [f x]) l) = map f l.
Proof. induction l as [|x l IH]; cbn; [reflexivity|]. rewrite IH. reflexivity. Qed.

(** *** Registrations on one SDK instance *)

Lemma toolsOf_app rs1 rs2 : toolsOf (rs1 ++ rs2) = toolsOf rs1 ++ toolsOf rs2.
Proof. unfold toolsOf. apply flat_map_app. Qed.

Lemma resourcesOf_app rs1 rs2 :
  resourcesOf (rs1 ++ rs2) = resourcesOf rs1 ++ resourcesOf rs2.
Proof. unfold resourcesOf. apply flat_map_app. Qed.

Lemma toolsOf_tools ts : toolsOf (map ToolReg ts) = ts.
Proof. induction ts as [|tl ts IH]; cbn; [reflexivity|]. f_equal. exact IH. Qed.




Lemma sdk_registerAll_one r srv : sdk_registerAll [r] srv = sdk_register r srv.
Proof.
  cbn [sdk_registerAll].
  destruct (sdk_register r srv) as [[[[]|e] srv'] sent]; [|reflexivity].
  rewrite app_nil_r. reflexivity.
Qed.

Lemma sdk_registerAll_app rs1 rs2 srv :
  sdk_registerAll (rs1 ++ rs2) srv
  = match sdk_registerAll rs1 srv with
    | (Resolved _, srv', sent) =>
        let '(outcome, srv'', sent') := sdk_registerAll rs2 srv' in
        (outcome, srv'', sent ++ sent')
    | failed => failed
    end.
Proof.
  revert srv. induction rs1 as [|r rs1 IH]; intros srv; cbn [app sdk_registerAll].
  - destruct (sdk_registerAll rs2 srv) as [[o s] n]. reflexivity.
  - destruct (sdk_register r srv) as [[[u|e] srv1] sent1]; [|reflexivity].
    rewrite IH. destruct (sdk_registerAll rs1 srv1) as [[[u'|e'] srv2] sent2].
    + destruct (sdk_registerAll rs2 srv2) as [[o s] n]. rewrite app_assoc. reflexivity.
    + reflexivity.
Qed.

(** Whatever the outcome, what an instance holds afterwards is what it
    held and, in order, the registrations made up to the point where the
    calls ended; they are all of them if no call threw. *)
Lemma sdk_registerAll_records rs srv :
  exists made rest,
    rs = made ++ rest
    /\ registeredTools (snd (fst (sdk_registerAll rs srv)))
       = registeredTools srv ++ toolsOf made
    /\ registeredResources (snd (fst (sdk_registerAll rs srv)))
       = registeredResources srv ++ resourcesOf made
    /\ transport (snd (fst (sdk_registerAll rs srv))) = transport srv
    /\ subscriptionHandlers (snd (fst (sdk_registerAll rs srv)))
       = subscriptionHandlers srv
    /\ (fst (fst (sdk_registerAll rs srv)) = Resolved tt -> rest = []).
Proof.
  revert srv. induction rs as [|r rs IH]; intros srv.
  - exists [], []. cbn. rewrite !app_nil_r. repeat split; reflexivity.
  - cbn [sdk_registerAll].
    assert (Hone :
      (exists e, sdk_register r srv = (Rejected e, srv, []))
      \/ (exists o srv1 sent,
             sdk_register r srv = (o, srv1, sent)
             /\ registeredTools srv1 = registeredTools srv ++ toolsOf [r]
             /\ registeredResources srv1 = registeredResources srv ++ resourcesOf [r]
             /\ transport srv1 = transport srv
             /\ subscriptionHandlers srv1 = subscriptionHandlers srv)).
    { destruct r as [tl|res]; cbn [sdk_register].
      - unfold sdk_registerTool. destruct (sdk_hasTool (tool_name tl) srv); [left; eauto|].
        right. destruct tl as [n h]. cbn [tool_name tool_handler].
        destruct srv as [ts rsrc tr sh th rh]. unfold sdk_connected. cbn.
        destruct th; [|destruct tr];
          (do 3 eexists; split; [reflexivity|]); cbn; rewrite ?app_nil_r;
          repeat split; auto.
      - unfold sdk_registerResource.
        destruct (sdk_hasResource (resource_uri res) srv); [left; eauto|].
        right. destruct res as [n u e]. cbn [resource_name resource_uri resource_event].
        destruct srv as [ts rsrc tr sh th rh]. unfold sdk_connected. cbn.
        destruct rh; [|destruct tr];
          (do 3 eexists; split; [reflexivity|]); cbn; rewrite ?app_nil_r;
          repeat split; auto. }
    destruct Hone as [(e & ->)|(o & srv1 & sent & -> & Ht & Hr & Htr & Hs)].
    + exists [], (r :: rs). cbn. rewrite !app_nil_r.
      repeat split; try reflexivity. discriminate.
    + destruct o as [u|e].
      * destruct (IH srv1) as (made & rest & -> & Ht' & Hr' & Htr' & Hs' & Hall).
        destruct (sdk_registerAll (made ++ rest) srv1) as [[o' srv2] sent'].
        cbn [fst snd] in *.
        exists ([r] ++ made), rest.
        rewrite (toolsOf_app [r] made), (resourcesOf_app [r] made).
        rewrite Ht', Hr', Htr', Hs', Ht, Hr, Htr, Hs, !app_assoc.
        repeat split; auto.
      * exists [r], rs. cbn [fst snd]. repeat split; auto. discriminate.
Qed.

Lemma sdk_added_nil srv : sdk_added [] srv = srv.
Proof.
  destruct srv. unfold sdk_added. cbn. rewrite !app_nil_r, !orb_false_r. reflexivity.
Qed.

Lemma sdk_added_app rs1 rs2 srv :
  sdk_added (rs1 ++ rs2) srv = sdk_added rs2 (sdk_added rs1 srv).
Proof.
  unfold sdk_added. cbn. rewrite toolsOf_app, resourcesOf_app, !app_assoc.
  f_equal.
  - destruct (toolsOf rs1), (toolsOf rs2), (toolHandlers srv); reflexivity.
  - destruct (resourcesOf rs1), (resourcesOf rs2), (resourceHandlers srv); reflexivity.
Qed.

Lemma existsb_eqb_app n l1 l2 :
  existsb (String.eqb n) (l1 ++ l2)
  = (existsb (String.eqb n) l1 || existsb (String.eqb n) l2)%bool.
Proof. apply existsb_app. Qed.

Lemma distinct_cons_true x l :
  distinct (x :: l) = true -> existsb (String.eqb x) l = false /\ distinct l = true.
Proof.
  cbn [distinct]. intros H. apply andb_true_iff in H. destruct H as [H1 H2].
  apply negb_true_iff in H1. auto.
Qed.

Lemma existsb_eqb_false x l y :
  existsb (String.eqb x) l = false -> In y l -> String.eqb y x = false.
Proof.
  intros Hx Hy. destruct (String.eqb_spec y x) as [->|]; [|reflexivity].
  assert (existsb (String.eqb x) l = true); [|congruence].
  apply existsb_exists. exists x. split; [exact Hy|apply String.eqb_refl].
Qed.

(** The first registration of an accepted list is taken, and the rest is
    accepted by the instance that has it. *)
Lemma accepts_cons r rs srv :
  accepts (r :: rs) srv = true ->
  sdk_register r srv = (Resolved tt, sdk_added [r] srv, sdk_announced [r] srv)
  /\ accepts rs (sdk_added [r] srv) = true.
Proof.
  unfold accepts. intros H.
  repeat (apply andb_true_iff in H; destruct H as [H ?]).
  rename H into Hdt, H3 into Hft, H2 into Hdr, H1 into Hfr, H0 into Hh.
  destruct r as [tl|res].
  - change (toolsOf (ToolReg tl :: rs)) with (tl :: toolsOf rs) in *.
    change (resourcesOf (ToolReg tl :: rs)) with (resourcesOf rs) in *.
    cbn [map forallb nonEmpty negb orb] in *.
    apply distinct_cons_true in Hdt. destruct Hdt as [Hfresh Hdt].
    apply andb_true_iff in Hft. destruct Hft as [Hnew Hft].
    apply negb_true_iff in Hnew.
    assert (Hth : sdk_connected srv = true -> toolHandlers srv = true).
    { intros Hc. rewrite Hc in Hh. cbn in Hh. apply andb_true_iff in Hh. tauto. }
    split.
    + cbn [sdk_register]. unfold sdk_registerTool. rewrite Hnew.
      destruct tl as [n h]. cbn [tool_name tool_handler].
      unfold sdk_added, sdk_announced. cbn.
      destruct srv as [ts rsrc tr sh th rh]. cbn in *.
      rewrite app_nil_r, orb_true_r, orb_false_r.
      destruct th; [destruct tr; reflexivity|].
      destruct tr; [specialize (Hth eq_refl); discriminate|reflexivity].
    + rewrite Hdt, Hdr. cbn [andb].
      assert (Hft' : forallb (fun tl0 => negb (sdk_hasTool (tool_name tl0)
                                                 (sdk_added [ToolReg tl] srv)))
                             (toolsOf rs) = true).
      { apply forallb_forall. intros tl0 Hin.
        rewrite forallb_forall in Hft. specialize (Hft tl0 Hin).
        apply negb_true_iff in Hft. apply negb_true_iff.
        unfold sdk_hasTool in *. cbn [sdk_added registeredTools toolsOf flat_map app].
        rewrite map_app, existsb_eqb_app. cbn [map existsb].
        apply orb_false_iff in Hft. destruct Hft as [Hk Hi].
        rewrite Hk, Hi, !orb_false_r. cbn [orb].
        apply (existsb_eqb_false _ (map tool_name (toolsOf rs))); [exact Hfresh|].
        apply in_map, Hin. }
      rewrite Hft'. cbn [andb].
      assert (Hfr' : forallb (fun r0 => negb (sdk_hasResource (resource_uri r0)
                                                (sdk_added [ToolReg tl] srv)))
                             (resourcesOf rs) = true).
      { apply forallb_forall. intros r0 Hin.
        rewrite forallb_forall in Hfr. specialize (Hfr r0 Hin).
        unfold sdk_hasResource in *. cbn in *. rewrite app_nil_r. exact Hfr. }
      rewrite Hfr'. cbn [andb].
      unfold sdk_added, sdk_connected in *. cbn in *.
      rewrite orb_true_r, orb_false_r, orb_true_r. cbn [andb].
      destruct (transport srv); cbn in *; [|reflexivity].
      apply andb_true_iff in Hh. destruct Hh as [_ Hh]. exact Hh.
  - change (toolsOf (ResourceReg res :: rs)) with (toolsOf rs) in *.
    change (resourcesOf (ResourceReg res :: rs)) with (res :: resourcesOf rs) in *.
    cbn [map forallb nonEmpty negb orb] in *.
    apply distinct_cons_true in Hdr. destruct Hdr as [Hfresh Hdr].
    apply andb_true_iff in Hfr. destruct Hfr as [Hnew Hfr].
    apply negb_true_iff in Hnew.
    assert (Hrh : sdk_connected srv = true -> resourceHandlers srv = true).
    { intros Hc. rewrite Hc in Hh. cbn in Hh. apply andb_true_iff in Hh. tauto. }
    split.
    + cbn [sdk_register]. unfold sdk_registerResource. rewrite Hnew.
      destruct res as [n u e]. cbn [resource_name resource_uri resource_event].
      unfold sdk_added, sdk_announced. cbn.
      destruct srv as [ts rsrc tr sh th rh]. cbn in *.
      rewrite app_nil_r, orb_true_r, orb_false_r.
      destruct rh; [destruct tr; reflexivity|].
      destruct tr; [specialize (Hrh eq_refl); discriminate|reflexivity].
    + rewrite Hdt, Hdr. cbn [andb].
      assert (Hft' : forallb (fun tl0 => negb (sdk_hasTool (tool_name tl0)
                                                 (sdk_added [ResourceReg res] srv)))
                             (toolsOf rs) = true).
      { apply forallb_forall. intros tl0 Hin.
        rewrite forallb_forall in Hft. specialize (Hft tl0 Hin).
        unfold sdk_hasTool in *. cbn in *. rewrite app_nil_r. exact Hft. }
      rewrite Hft'. cbn [andb].
      assert (Hfr' : forallb (fun r0 => negb (sdk_hasResource (resource_uri r0)
                                                (sdk_added [ResourceReg res] srv)))
                             (resourcesOf rs) = true).
      { apply forallb_forall. intros r0 Hin.
        rewrite forallb_forall in Hfr. specialize (Hfr r0 Hin).
        apply negb_true_iff in Hfr. apply negb_true_iff.
        unfold sdk_hasResource in *.
        cbn [sdk_added registeredResources resourcesOf flat_map app].
        rewrite map_app, existsb_eqb_app. cbn [map existsb].
        apply orb_false_iff in Hfr. destruct Hfr as [Hk Hi].
        rewrite Hk, Hi, !orb_false_r. cbn [orb].
        apply (existsb_eqb_false _ (map resource_uri (resourcesOf rs))); [exact Hfresh|].
        apply in_map, Hin. }
      rewrite Hfr'. cbn [andb].
      unfold sdk_added, sdk_connected in *. cbn in *.
      rewrite orb_true_r, orb_false_r, orb_true_r. cbn [andb].
      destruct (transport srv); cbn in *; [|reflexivity].
      apply andb_true_iff in Hh. destruct Hh as [Hh _]. rewrite Hh. reflexivity.
Qed.

Lemma sdk_connected_added rs srv : sdk_connected (sdk_added rs srv) = sdk_connected srv.
Proof. reflexivity. Qed.

(** Accepted registrations are all made, in order; a connected instance
    announces each. *)
Lemma sdk_registerAll_accepts rs srv :
  accepts rs srv = true ->
  sdk_registerAll rs srv = (Resolved tt, sdk_added rs srv, sdk_announced rs srv).
Proof.
  revert srv. induction rs as [|r rs IH]; intros srv Hacc.
  - cbn. rewrite sdk_added_nil. unfold sdk_announced.
    destruct (sdk_connected srv); reflexivity.
  - apply accepts_cons in Hacc. destruct Hacc as [Hr Hrest].
    cbn [sdk_registerAll]. rewrite Hr, (IH _ Hrest).
    change (r :: rs) with ([r] ++ rs). rewrite sdk_added_app.
    unfold sdk_announced. rewrite sdk_connected_added.
    destruct (sdk_connected srv); reflexivity.
Qed.


(** A name the instance has is refused, and nothing changes. *)
Lemma sdk_registerAll_taken tl rs srv :
  sdk_hasTool (tool_name tl) srv = true ->
  sdk_registerAll (ToolReg tl :: rs) srv
  = (Rejected ("Tool " +:+ tool_name tl +:+ " is already registered"), srv, []).
Proof.
  intros Hhas. cbn [sdk_registerAll sdk_register]. unfold sdk_registerTool.
  rewrite Hhas. reflexivity.
Qed.

(** *** Calls on the instances of the class *)

Lemma core_fields st st' :
  core st = core st' ->
  things st = things st' /\ properties st = properties st'
  /\ actions st = actions st' /\ events st = events st'
  /\ eventBuffer st = eventBuffer st' /\ nextObject st = nextObject st'
  /\ sessions st = sessions st' /\ stdioServer st = stdioServer st'
  /\ serverSubscriptions st = serverSubscriptions st' /\ config st = config st'
  /\ httpServer st = httpServer st' /\ propertyReader st = propertyReader st'
  /\ propertyWriter st = propertyWriter st' /\ actionInvoker st = actionInvoker st'.
Proof.
  intros H.
  change (things (core st) = things (core st')
          /\ properties (core st) = properties (core st')
          /\ actions (core st) = actions (core st')
          /\ events (core st) = events (core st')
          /\ eventBuffer (core st) = eventBuffer (core st')
          /\ nextObject (core st) = nextObject (core st')
          /\ sessions (core st) = sessions (core st')
          /\ stdioServer (core st) = stdioServer (core st')
          /\ serverSubscriptions (core st) = serverSubscriptions (core st')
          /\ config (core st) = config (core st')
          /\ httpServer (core st) = httpServer (core st')
          /\ propertyReader (core st) = propertyReader (core st')
          /\ propertyWriter (core st) = propertyWriter (core st')
          /\ actionInvoker (core st) = actionInvoker (core st')).
  rewrite H. repeat split.
Qed.



Lemma callServer_core server call st : core (snd (callServer server call st)) = core st.
Proof.
  unfold callServer. destruct (instances st !! server) as [srv|]; [|reflexivity].
  destruct (call srv) as [[o s] n]. reflexivity.
Qed.

Lemma callServer_some server call st srv :
  instances st !! server = Some srv ->
  callServer server call st
  = (fst (fst (call srv)),
     set_notifications
       (notifications st ++ map (fun n => (server, n)) (snd (call srv)))
       (set_instances (<[server := snd (fst (call srv))]> (instances st)) st)).
Proof.
  intros H. unfold callServer. rewrite H. destruct (call srv) as [[o s] n]. reflexivity.
Qed.

Lemma callServer_nil server st :
  callServer server (sdk_registerAll []) st = (Resolved tt, st).
Proof.
  unfold callServer. destruct (instances st !! server) as [srv|] eqn:Hsrv; [|reflexivity].
  cbn [sdk_registerAll map]. f_equal.
  destruct st. unfold set_notifications, set_instances. cbn in *.
  rewrite app_nil_r, insert_id by exact Hsrv. reflexivity.
Qed.

Lemma callServer_one server r st :
  callServer server (sdk_register r) st = callServer server (sdk_registerAll [r]) st.
Proof.
  unfold callServer. destruct (instances st !! server) as [srv|]; [|reflexivity].
  rewrite sdk_registerAll_one. reflexivity.
Qed.

Lemma callServer_app server rs1 rs2 st :
  andThen (callServer server (sdk_registerAll rs1))
          (callServer server (sdk_registerAll rs2)) st
  = callServer server (sdk_registerAll (rs1 ++ rs2)) st.
Proof.
  unfold andThen, callServer.
  destruct (instances st !! server) as [srv|] eqn:Hsrv.
  - rewrite sdk_registerAll_app.
    destruct (sdk_registerAll rs1 srv) as [[[u|e] srv1] sent1]; [|reflexivity].
    cbn [instances set_notifications set_instances]. rewrite lookup_insert_eq.
    destruct (sdk_registerAll rs2 srv1) as [[o srv2] sent2].
    f_equal. unfold set_notifications, set_instances; cbn.
    rewrite insert_insert_eq, map_app, app_assoc. reflexivity.
  - rewrite Hsrv. reflexivity.
Qed.

Lemma andThen_done (a : McpServer.t -> Settled unit * McpServer.t) st :
  andThen a (fun st => (Resolved tt, st)) st = a st.
Proof. unfold andThen. destruct (a st) as [[[]|e] st1]; reflexivity. Qed.


(** Two sequences agree when their first parts agree and their second
    parts agree on the states the first can lead to. *)
Lemma andThen_ext (a a' b b' : McpServer.t -> Settled unit * McpServer.t) st :
  a st = a' st -> core (snd (a' st)) = core st ->
  (forall st1, core st1 = core st -> b st1 = b' st1) ->
  andThen a b st = andThen a' b' st.
Proof.
  intros Ha Hcore Hb. unfold andThen. rewrite Ha.
  destruct (a' st) as [[u|e] st1]; [|reflexivity]. apply Hb. exact Hcore.
Qed.

Lemma andThen_core (a b : McpServer.t -> Settled unit * McpServer.t) st :
  core (snd (a st)) = core st ->
  (forall st1, core st1 = core st -> core (snd (b st1)) = core st1) ->
  core (snd (andThen a b st)) = core st.
Proof.
  intros Ha Hb. unfold andThen. destruct (a st) as [[u|e] st1]; cbn [snd] in *.
  - rewrite (Hb st1 Ha). exact Ha.
  - exact Ha.
Qed.

Lemma forEach_core {X : Type} (body : X -> McpServer.t -> Settled unit * McpServer.t)
  (l : list X) st :
  (forall x st1, core st1 = core st -> core (snd (body x st1)) = core st1) ->
  core (snd (forEach body l st)) = core st.
Proof.
  intros Hbody. revert st Hbody.
  induction l as [|x l IH]; intros st Hbody; cbn [forEach]; [reflexivity|].
  apply andThen_core; [apply Hbody; reflexivity|].
  intros st1 H1. apply IH. intros y st2 H2. apply Hbody. congruence.
Qed.


(** A loop whose body makes registrations on one server makes their
    concatenation, up to the first that throws. *)
Lemma forEach_calls {X : Type} server
  (body : X -> McpServer.t -> Settled unit * McpServer.t)
  (regs : X -> list Registration) :
  (forall x st, body x st = callServer server (sdk_registerAll (regs x)) st) ->
  forall l st,
    forEach body l st = callServer server (sdk_registerAll (concat (map regs l))) st.
Proof.
  intros Hbody. induction l as [|x l IH]; intros st; cbn [forEach map concat].
  - symmetry. apply callServer_nil.
  - rewrite <- callServer_app. unfold andThen. rewrite Hbody.
    destruct (callServer server (sdk_registerAll (regs x)) st) as [[u|e] st1];
      [apply IH|reflexivity].
Qed.

Lemma registerPropertyTools_calls server prop st :
  registerPropertyTools server prop st
  = callServer server (sdk_registerAll (map ToolReg (propertyTools prop))) st.
Proof.
  unfold registerPropertyTools, propertyTools,
    registerPropertySetterToolOnServer, registerPropertyGetterToolOnServer.
  change (sdk_registerTool (getterToolName prop) (GetterHandler prop))
    with (sdk_register (ToolReg (getterTool prop))).
  change (sdk_registerTool (setterToolName prop) (SetterHandler prop))
    with (sdk_register (ToolReg (setterTool prop))).
  destruct (prop_writable prop); cbn [map].
  - change [ToolReg (getterTool prop); ToolReg (setterTool prop)]
      with ([ToolReg (getterTool prop)] ++ [ToolReg (setterTool prop)]).
    rewrite <- callServer_app. unfold andThen.
    rewrite callServer_one.
    destruct (callServer server (sdk_registerAll [ToolReg (getterTool prop)]) st)
      as [[u|e] st1]; [apply callServer_one|reflexivity].
  - rewrite andThen_done. apply callServer_one.
Qed.

Lemma registerActionTool_calls server action st :
  registerActionToolOnServer server action st
  = callServer server (sdk_registerAll [ToolReg (actionTool action)]) st.
Proof. apply (callServer_one server (ToolReg (actionTool action))). Qed.

Lemma registerEventResource_calls server event st :
  registerEventResourceOnServer server event st
  = callServer server (sdk_registerAll [ResourceReg (eventResource event)]) st.
Proof. apply (callServer_one server (ResourceReg (eventResource event))). Qed.

(** The tool loops of the explicit strategy. *)
Lemma explicit_loops server props acts st :
  andThen (forEach (registerPropertyTools server) props)
          (forEach (registerActionToolOnServer server) acts) st
  = callServer server (sdk_registerAll (map ToolReg (explicitTools props acts))) st.
Proof.
  unfold explicitTools. rewrite map_app, <- callServer_app.
  apply andThen_ext.
  - rewrite (forEach_calls server _ (fun p => map ToolReg (propertyTools p))
               (registerPropertyTools_calls server)).
    rewrite concat_map, map_map. reflexivity.
  - apply callServer_core.
  - intros st1 _.
    rewrite (forEach_calls server _ (fun a => [ToolReg (actionTool a)])
               (registerActionTool_calls server)).
    rewrite (concat_singletons (fun a => ToolReg (actionTool a))), map_map. reflexivity.
Qed.

(** The resource loop of both strategies. *)
Lemma event_loop server evs st :
  forEach (registerEventResourceOnServer server) evs st
  = callServer server
      (sdk_registerAll (map (fun e => ResourceReg (eventResource e)) evs)) st.
Proof.
  rewrite (forEach_calls server _ (fun e => [ResourceReg (eventResource e)])
             (registerEventResource_calls server)).
  rewrite (concat_singletons (fun e => ResourceReg (eventResource e))). reflexivity.
Qed.


Lemma applyThingToServer_eq thing server st :
  applyThingToServer thing server st
  = callServer server (sdk_registerAll (thingRegistrations (strategyOf st) thing)) st.
Proof.
  unfold applyThingToServer, thingRegistrations, newTools.
  rewrite <- callServer_app.
  apply andThen_ext.
  - destruct (strategyOf st).
    + apply explicit_loops.
    + symmetry. apply callServer_nil.
  - apply callServer_core.
  - intros st1 _. apply event_loop.
Qed.

Lemma applyThingToServer_core thing server st :
  core (snd (applyThingToServer thing server st)) = core st.
Proof. rewrite applyThingToServer_eq. apply callServer_core. Qed.




(** *** The registry loops of [registerThing] *)

Lemma fold_set_properties props st :
  fold_left (fun st prop =>
               set_properties (JsMap.set (prop_uri prop) prop (properties st)) st)
            props st
  = set_properties (JsMap.setAll prop_uri id props (properties st)) st.
Proof.
  revert st. induction props as [|p l IH]; intros st; cbn [fold_left].
  - destruct st; reflexivity.
  - rewrite IH. reflexivity.
Qed.

Lemma fold_set_actions acts st :
  fold_left (fun st action =>
               set_actions (JsMap.set (action_name action) action (actions st)) st)
            acts st
  = set_actions (JsMap.setAll action_name id acts (actions st)) st.
Proof.
  revert st. induction acts as [|a l IH]; intros st; cbn [fold_left].
  - destruct st; reflexivity.
  - rewrite IH. reflexivity.
Qed.

Lemma fold_set_events evs st :
  fold_left (fun st event =>
               let st := set_events (JsMap.set (event_uri event) event (events st)) st in
               set_eventBuffer
                 (EventBuffer.initialize (event_uri event) (eventBuffer st)) st)
            evs st
  = set_eventBuffer
      (fold_left (fun eb event => EventBuffer.initialize (event_uri event) eb)
                 evs (eventBuffer st))
      (set_events (JsMap.setAll event_uri id evs (events st)) st).
Proof.
  revert st. induction evs as [|e l IH]; intros st; cbn [fold_left].
  - destruct st; reflexivity.
  - rewrite IH. reflexivity.
Qed.

Lemma registerThing_eq thing st :
  registerThing thing st = applyThingToAllServers thing (storeDefinitions thing st).
Proof.
  unfold registerThing, storeDefinitions.
  rewrite fold_set_properties, fold_set_actions, fold_set_events. reflexivity.
Qed.

Lemma stored_initialize uri uri' eb :
  EventBuffer.stored (EventBuffer.initialize uri eb) uri' = EventBuffer.stored eb uri'.
Proof.
  unfold EventBuffer.initialize, EventBuffer.stored.
  destruct (EventBuffer.buffers eb !! uri) eqn:Hb; [reflexivity|].
  cbn [EventBuffer.set_buffers EventBuffer.buffers].
  destruct (decide (uri = uri')) as [<-|Hne].
  - rewrite lookup_insert_eq, Hb. reflexivity.
  - rewrite lookup_insert_ne by exact Hne. reflexivity.
Qed.

Lemma has_buffer_initialize uri uri' eb :
  is_Some (EventBuffer.buffers (EventBuffer.initialize uri eb) !! uri')
  <-> uri = uri' \/ is_Some (EventBuffer.buffers eb !! uri').
Proof.
  unfold EventBuffer.initialize.
  destruct (EventBuffer.buffers eb !! uri) eqn:Hb.
  - split; [auto|]. intros [<-|H]; [rewrite Hb; eauto|exact H].
  - cbn [EventBuffer.set_buffers EventBuffer.buffers].
    destruct (decide (uri = uri')) as [<-|Hne].
    + rewrite lookup_insert_eq. split; eauto.
    + rewrite lookup_insert_ne by exact Hne. split; [auto|]. intros [?|H]; [congruence|exact H].
Qed.

(** After the loop every event of the list has a buffer, holding what was
    stored for it before: nothing, if it had none. *)
Lemma fold_initialize (evs : list TranslatedEvent) eb :
  let eb' := fold_left (fun eb event => EventBuffer.initialize (event_uri event) eb) evs eb in
  (forall uri, EventBuffer.stored eb' uri = EventBuffer.stored eb uri)
  /\ (forall uri, is_Some (EventBuffer.buffers eb' !! uri)
                  <-> (exists e, In e evs /\ event_uri e = uri)
                      \/ is_Some (EventBuffer.buffers eb !! uri)).
Proof.
  induction evs as [|e l IH] using rev_ind; cbn zeta.
  - split; [reflexivity|]. intros uri. split; [auto|]. intros [(e & [] & _)|H]; exact H.
  - rewrite fold_left_app. cbn [fold_left]. cbn zeta in IH. destruct IH as [IHs IHb].
    split.
    + intros uri. rewrite stored_initialize. apply IHs.
    + intros uri. rewrite has_buffer_initialize, IHb. split.
      * intros [H|[(e' & He' & Hu)|H]].
        -- left. exists e. split; [apply in_or_app; right; left; reflexivity|exact H].
        -- left. exists e'. split; [apply in_or_app; left; exact He'|exact Hu].
        -- right. exact H.
      * intros [(e' & He' & Hu)|H]; [|right; right; exact H].
        apply in_app_or in He'. destruct He' as [He'|[->|[]]].
        -- right. left. eauto.
        -- left. exact Hu.
Qed.

End InstanceFacts.

(** ** Notifications *)

Section NotificationFacts.

Import Translator McpServer.

Implicit Types (st : McpServer.t) (server : ServerId).

(** A loop that notifies the servers satisfying a condition the
    notifications themselves do not change. *)
Lemma notify_loop (cond : ServerId -> McpServer.t -> bool) n servers st :
  (forall s s' st, cond s (notification s' n st) = cond s st) ->
  fold_left (fun st s => if cond s st then notification s n st else st) servers st
  = set_notifications
      (notifications st
         ++ map (fun s => (s, n)) (List.filter (fun s => cond s st) servers)) st.
Proof.
  intros Hcond. revert st.
  induction servers as [|x l IH]; intros st; cbn [fold_left List.filter map].
  - rewrite app_nil_r. destruct st; reflexivity.
  - destruct (cond x st) eqn:Hx.
    + rewrite IH.
      rewrite (List.filter_ext (fun s => cond s (notification x n st))
                               (fun s => cond s st)) by (intros; apply Hcond).
      unfold notification at 1 2. cbn [notifications set_notifications map].
      rewrite <- app_assoc. reflexivity.
    + apply IH.
Qed.

Lemma subscribed_spec server uri st :
  subscribed server uri st = true <-> inSubscriptionSet server uri st.
Proof.
  unfold subscribed, inSubscriptionSet.
  destruct (serverSubscriptions st !! server) as [subs|].
  - rewrite bool_decide_eq_true. split; [eauto|]. intros (? & [= <-] & H). exact H.
  - split; [discriminate|]. intros (? & [=] & _).
Qed.

Lemma session_active sid session st :
  JsMap.get sid (sessions st) = Some session ->
  In (session_server session) (activeServers st).
Proof.
  intros Hget. unfold activeServers. apply in_or_app. right.
  apply in_map, (jsmap_get_values sid), Hget.
Qed.

(** What [handleWotEvent] does, in one equation. *)
Lemma handleWotEvent_eq now thingId eventName d st :
  let uri := eventUri thingId eventName in
  handleWotEvent now thingId eventName d st
  = set_notifications
      (notifications st
         ++ map (fun s => (s, ResourcesUpdated uri))
                (List.filter (fun s => notifiable uri s st) (activeServers st)))
      (set_eventBuffer
         (snd (EventBuffer.push now uri eventName d (eventBuffer st))) st).
Proof.
  intros uri. unfold handleWotEvent. fold uri.
  set (st1 := set_eventBuffer _ st).
  change (fun st0 server =>
            if (hasTransport server st0 && subscribed server uri st0)%bool
            then notification server (ResourcesUpdated uri) st0 else st0)
    with (fun st0 server =>
            if notifiable uri server st0
            then notification server (ResourcesUpdated uri) st0 else st0).
  rewrite (notify_loop (notifiable uri)) by reflexivity.
  reflexivity.
Qed.

Lemma notifyResourceListChanged_eq st :
  notifyResourceListChanged st
  = set_notifications
      (notifications st
         ++ map (fun s => (s, ResourcesListChanged))
                (List.filter (fun s => hasTransport s st) (activeServers st))) st.
Proof.
  unfold notifyResourceListChanged.
  rewrite (notify_loop hasTransport) by reflexivity. reflexivity.
Qed.

Lemma last_tail_snoc {X : Type} (l : list X) (x : X) :
  l <> [] -> last (tail (l ++ [x])) = Some x.
Proof.
  destruct l as [|y l]; [congruence|]. intros _. cbn [app tail]. apply last_snoc.
Qed.

(** C1. A device event for resource [R] is pushed into the event buffer
    for [R] whatever the subscriptions are: the entry, stamped with the
    clock reading, is appended to what is stored for [R] (the oldest
    entry leaves if the cap is exceeded), so with a cap of at least one
    it is the newest entry stored for [R]; the last update of [R] is the
    clock reading, and what is stored for other resources stays. Then a
    live session (one in the session map whose server has its transport)
    is sent a resource-updated notification carrying [R] if and only if
    [R] is in the subscription set of its server; every notification the
    event causes carries [R] and goes to a subscriber. With [A] live and
    subscribed and [B] not subscribed, [A] is notified and [B] is sent
    nothing. *)
Theorem C1_event_fanout st now thingId eventName d :
  let uri := eventUri thingId eventName in
  let st' := handleWotEvent now thingId eventName d st in
  let entry := EventBuffer.mkEvent now eventName d in
  let appended := EventBuffer.stored (eventBuffer st) uri ++ [entry] in
  eventBuffer st' = snd (EventBuffer.push now uri eventName d (eventBuffer st))
  /\ EventBuffer.stored (eventBuffer st') uri
     = (if Z.of_nat (length appended) >? EventBuffer.maxEvents (eventBuffer st)
        then tail appended else appended)
  /\ (1 <= EventBuffer.maxEvents (eventBuffer st) ->
      last (EventBuffer.stored (eventBuffer st') uri) = Some entry)
  /\ EventBuffer.getLastUpdated uri (eventBuffer st') = Some now
  /\ (forall uri', uri <> uri' ->
        EventBuffer.stored (eventBuffer st') uri'
        = EventBuffer.stored (eventBuffer st) uri')
  /\ (forall sid session,
         JsMap.get sid (sessions st) = Some session ->
         hasTransport (session_server session) st = true ->
         (In (session_server session, ResourcesUpdated uri) (sentBy st st')
          <-> inSubscriptionSet (session_server session) uri st))
  /\ (forall server n,
         In (server, n) (sentBy st st') ->
         n = ResourcesUpdated uri /\ inSubscriptionSet server uri st)
  /\ (forall sidA sessionA sidB sessionB,
         JsMap.get sidA (sessions st) = Some sessionA ->
         hasTransport (session_server sessionA) st = true ->
         inSubscriptionSet (session_server sessionA) uri st ->
         JsMap.get sidB (sessions st) = Some sessionB ->
         ~ inSubscriptionSet (session_server sessionB) uri st ->
         In (session_server sessionA, ResourcesUpdated uri) (sentBy st st')
         /\ forall n, ~ In (session_server sessionB, n) (sentBy st st'))
  /\ notifications st' = notifications st ++ sentBy st st'.
Proof.
  intros uri st' entry appended.
  pose proof (handleWotEvent_eq now thingId eventName d st) as Heq.
  cbv zeta in Heq. fold uri in Heq. fold st' in Heq.
  assert (Hbuf : eventBuffer st'
                 = snd (EventBuffer.push now uri eventName d (eventBuffer st))).
  { rewrite Heq. reflexivity. }
  assert (Hstored : EventBuffer.stored (eventBuffer st') uri
                    = (if Z.of_nat (length appended)
                            >? EventBuffer.maxEvents (eventBuffer st)
                       then tail appended else appended)).
  { rewrite Hbuf. apply stored_push. }
  assert (Hsent : sentBy st st' =
            map (fun s => (s, ResourcesUpdated uri))
                (List.filter (fun s => notifiable uri s st) (activeServers st))).
  { unfold sentBy. rewrite Heq. cbn [notifications set_notifications].
    apply drop_app_length. }
  assert (Hin : forall server n,
            In (server, n) (sentBy st st') <->
            n = ResourcesUpdated uri /\ In server (activeServers st)
            /\ hasTransport server st = true /\ inSubscriptionSet server uri st).
  { intros server n. rewrite Hsent, in_map_iff. split.
    - intros (s & [= -> <-] & Hs). apply List.filter_In in Hs. destruct Hs as [Hs Hc].
      unfold notifiable in Hc. apply andb_true_iff in Hc. destruct Hc as [Ht Hsub].
      rewrite subscribed_spec in Hsub. auto.
    - intros (-> & Hs & Ht & Hsub). exists server. split; [reflexivity|].
      apply List.filter_In. split; [exact Hs|].
      unfold notifiable. rewrite Ht. apply subscribed_spec in Hsub. rewrite Hsub.
      reflexivity. }
  split; [exact Hbuf|]. split; [exact Hstored|].
  split.
  { intros Hcap. rewrite Hstored.
    destruct (Z.gtb_spec (Z.of_nat (length appended))
                         (EventBuffer.maxEvents (eventBuffer st))) as [Hgt|Hle].
    - apply last_tail_snoc. intros Hnil. unfold appended in Hgt.
      rewrite Hnil in Hgt. cbn in Hgt. lia.
    - apply last_snoc. }
  split.
  { rewrite Hbuf. unfold EventBuffer.getLastUpdated, EventBuffer.push.
    cbn [snd EventBuffer.lastUpdated EventBuffer.timestamp].
    apply lookup_insert_eq. }
  split.
  { intros uri' Hne. rewrite Hbuf. apply stored_push_other, Hne. }
  split.
  { intros sid session Hs Ht. rewrite Hin. split.
    - intros (_ & _ & _ & Hsub). exact Hsub.
    - intros Hsub. repeat split; auto. apply (session_active sid), Hs. }
  split.
  { intros server n Hn. apply Hin in Hn. destruct Hn as (-> & _ & _ & Hsub). auto. }
  split.
  { intros sidA sessionA sidB sessionB HA HtrA HsubA HB HsubB. split.
    - apply Hin. repeat split; auto. apply (session_active sidA), HA.
    - intros n Hn. apply Hin in Hn. destruct Hn as (_ & _ & _ & Hsub).
      exact (HsubB Hsub). }
  unfold sentBy. rewrite Heq. cbn [notifications set_notifications].
  rewrite drop_app_length. reflexivity.
Qed.

End NotificationFacts.

(** ** Sessions *)

Section SessionFacts.

Import Translator McpServer.

Implicit Types (st : McpServer.t) (server : ServerId).











(** *** The explicit tool set *)



Lemma explicitTools_In props acts tl :
  In tl (explicitTools props acts) <->
  (exists p, In p props /\ (tl = getterTool p
                            \/ (prop_writable p = true /\ tl = setterTool p)))
  \/ (exists a, In a acts /\ tl = actionTool a).
Proof.
  unfold explicitTools. rewrite in_app_iff, in_concat, in_map_iff.
  split.
  - intros [(ts & Hts & Htl)|(a & <- & Ha)]; [left|right; eauto].
    apply in_map_iff in Hts. destruct Hts as (p & <- & Hp).
    exists p. split; [exact Hp|]. unfold propertyTools in Htl.
    destruct Htl as [<-|Htl]; [left; reflexivity|].
    destruct (prop_writable p); [|destruct Htl].
    destruct Htl as [<-|[]]. right. split; reflexivity.
  - intros [(p & Hp & Htl)|(a & Ha & ->)]; [left|right; eauto].
    exists (propertyTools p). split; [apply in_map, Hp|].
    unfold propertyTools. destruct Htl as [->|[Hw ->]]; [left; reflexivity|].
    rewrite Hw. right. left. reflexivity.
Qed.



(** *** [registerThing] on the instances *)

Lemma registerThing_core thing st :
  core (snd (registerThing thing st)) = core (storeDefinitions thing st).
Proof.
  rewrite registerThing_eq. unfold applyThingToAllServers.
  apply forEach_core. intros server st1 _. apply applyThingToServer_core.
Qed.

(** Whether the SDK accepts the registrations or not, the registry and
    the buffers are written. *)
Lemma registerThing_registry thing st :
  let st' := snd (registerThing thing st) in
  things st' = JsMap.set (thing_id thing) thing (things st)
  /\ properties st' = JsMap.setAll prop_uri id (thing_properties thing) (properties st)
  /\ actions st' = JsMap.setAll action_name id (thing_actions thing) (actions st)
  /\ events st' = JsMap.setAll event_uri id (thing_events thing) (events st)
  /\ eventBuffer st'
     = fold_left (fun eb event => EventBuffer.initialize (event_uri event) eb)
                 (thing_events thing) (eventBuffer st)
  /\ nextObject st' = nextObject st.
Proof.
  cbv zeta.
  destruct (core_fields _ _ (registerThing_core thing st))
    as (H1 & H2 & H3 & H4 & H5 & H6 & _).
  rewrite H1, H2, H3, H4, H5, H6. repeat split; reflexivity.
Qed.










Lemma message_not_empty c s t : String.eqb (String c s +:+ t) "" = false.
Proof. reflexivity. Qed.

(** C6, as the code has it. [write_property] on a property that is not
    writable returns the error result "Error: Property '..' is
    read-only." and makes no device call. Under the explicit strategy the
    registration loops add a setter tool only for a writable property:
    whatever the SDK makes of the registrations, what an instance holds
    after the loops is what it held and the tools of [explicitTools] up
    to the point the loops reached (all of them if no call threw, and none
    throws where the instance accepts them), and
    [explicitTools] has no setter tool bound to a non-writable property.
    (The setter primitive itself does not look at the writable flag.) *)
Theorem C6_read_only_write st args thing prop :
  JsMap.get (device_id args) (things st) = Some thing ->
  findProperty thing (property_name args) = Some prop ->
  prop_writable prop = false ->
  write_property st args
  = (Resolved {| isError := true;
                 text := Plain ("Error: Property '" +:+ property_name args
                                  +:+ "' is read-only.") |}, [])
  /\ (forall (server : ServerId) props acts st0 srv,
         instances st0 !! server = Some srv ->
         let out := andThen (forEach (registerPropertyTools server) props)
                            (forEach (registerActionToolOnServer server) acts) st0 in
         exists srv' made rest,
           instances (snd out) !! server = Some srv'
           /\ registeredTools srv' = registeredTools srv ++ made
           /\ explicitTools props acts = made ++ rest
           /\ (fst out = Resolved tt -> made = explicitTools props acts)
           /\ (accepts (map ToolReg (explicitTools props acts)) srv = true ->
               fst out = Resolved tt))
  /\ (forall props acts tl p,
         In tl (explicitTools props acts) ->
         tool_handler tl = SetterHandler p ->
         In p props /\ prop_writable p = true)
  /\ (forall props acts tl,
         In tl (explicitTools props acts) -> tool_handler tl <> SetterHandler prop).
Proof.
  intros Hthing Hprop Hro.
  assert (Hsetter : forall props acts tl p,
            In tl (explicitTools props acts) ->
            tool_handler tl = SetterHandler p ->
            In p props /\ prop_writable p = true).
  { intros props acts tl p Hin Hh. apply explicitTools_In in Hin.
    destruct Hin as [(q & Hq & [->|[Hw ->]])|(a & _ & ->)]; cbn in Hh; try discriminate.
    injection Hh as ->. auto. }
  split.
  { unfold write_property. rewrite Hthing, Hprop, Hro. cbn [negb].
    unfold catch, throw, errorResult, ret.
    change ("Property '" +:+ property_name args +:+ "' is read-only.")
      with (String "P" ("roperty '" +:+ property_name args +:+ "' is read-only.")).
    cbn [String.eqb]. reflexivity. }
  split.
  { intros server props acts st0 srv Hsrv. cbv zeta.
    rewrite explicit_loops, (callServer_some _ _ _ _ Hsrv). cbn [fst snd].
    destruct (sdk_registerAll_records (map ToolReg (explicitTools props acts)) srv)
      as (made & rest & Hsplit & Htools & _ & _ & _ & Hall).
    exists (snd (fst (sdk_registerAll (map ToolReg (explicitTools props acts)) srv))),
           (toolsOf made), (toolsOf rest).
    cbn [instances set_notifications set_instances].
    split; [apply lookup_insert_eq|]. split; [exact Htools|].
    assert (Hsplit' : explicitTools props acts = toolsOf made ++ toolsOf rest).
    { rewrite <- toolsOf_app, <- Hsplit, toolsOf_tools. reflexivity. }
    split; [exact Hsplit'|].
    split.
    - intros Hout. rewrite (Hall Hout) in Hsplit'. cbn in Hsplit'.
      rewrite app_nil_r in Hsplit'. congruence.
    - intros Hacc. rewrite (sdk_registerAll_accepts _ _ Hacc). reflexivity. }
  split; [exact Hsetter|].
  intros props acts tl Hin Hh. destruct (Hsetter props acts tl prop Hin Hh) as [_ Hw].
  congruence.
Qed.



End SessionFacts.

(** ** The scenario *)

Section ScenarioFacts.

Import Translator McpServer Scenario.

Example lamp_properties :
  thing_id lamp = "my-light-01"
  /\ In status (thing_properties lamp)
  /\ thing_actions lamp = [toggle; fade].
Proof. repeat split. left. reflexivity. Qed.

Example sanitizeId_edges :
  sanitizeId "--My  Light__01--" = "my-light-01"
  /\ sanitizeId "-" = "" /\ sanitizeId "" = ""
  /\ extractThingId (mkTD (Some "http://example.org/things/Lamp 7/") "Fallback"
                           None None None None) = "".
Proof. repeat split. Qed.

Example property_uri_matches :
  Re.property_uri "wot://my-light-01/properties/status" = Some ("my-light-01", "status")
  /\ Re.property_uri "see wot://a/properties/b/c" = Some ("a", "b/c")
  /\ Re.property_uri_anchored "see wot://a/properties/b/c" = None
  /\ Re.property_uri "wot://a/b/properties/c" = None
  /\ getterToolName status = "get_status_my_light_01"
  /\ actionToolName fade = "fade_my_light_01".
Proof. repeat split. Qed.

Example slice_cases :
  Js.slice (-2) [1; 2; 3] = [2; 3] /\ Js.slice 0 [1; 2; 3] = [1; 2; 3]
  /\ Js.slice (-5) [1; 2; 3] = [1; 2; 3] /\ Js.slice 2 [1; 2; 3] = [3].
Proof. repeat split. Qed.

Example twoSessions_sessions :
  sessions twoSessions = [("session-a", sessionA); ("session-b", sessionB)]
  /\ activeServers twoSessions = [0%nat; 2%nat]
  /\ hasTransport 0%nat twoSessions = true /\ hasTransport 2%nat twoSessions = true.
Proof. repeat split. Qed.

(** C1 at work: session A subscribed to the overheat event, session B
    not; an overheat event is stored, notifies A's server and not B's. *)
Lemma C1_event_fanout_witness :
  let st' := handleWotEvent 1000 "my-light-01" "overheat" (Js.Num 90) subscribedA in
  In (0%nat, ResourcesUpdated overheat) (sentBy subscribedA st')
  /\ (forall n, ~ In (2%nat, n) (sentBy subscribedA st'))
  /\ last (EventBuffer.stored (eventBuffer st') overheat)
     = Some (EventBuffer.mkEvent 1000 "overheat" (Js.Num 90)).
Proof.
  destruct (C1_event_fanout subscribedA 1000 "my-light-01" "overheat" (Js.Num 90))
    as (_ & _ & Hlast & _ & _ & _ & _ & HAB & _).
  destruct (HAB "session-a" sessionA "session-b" sessionB) as [HA HB].
  - reflexivity.
  - reflexivity.
  - exists ({[overheat]} ∪ ∅). split; [reflexivity|].
    apply elem_of_union. left. apply elem_of_singleton. reflexivity.
  - reflexivity.
  - intros (subs & Hsubs & Hin).
    change (Some (∅ : gset string) = Some subs) in Hsubs.
    injection Hsubs as <-. exact (not_elem_of_empty _ Hin).
  - split; [exact HA|]. split; [exact HB|].
    apply Hlast. change (1 <= 100). lia.
Defined.

(** C2 at work: cap 2, three pushes, the first is evicted. *)
Lemma C2_buffer_bound_witness :
  EventBuffer.stored
    (EventBuffer.pushAll overheat
       [(1, "overheat", Js.Num 1); (2, "overheat", Js.Num 2); (3, "overheat", Js.Num 3)]
       (EventBuffer.after
          {| EventBuffer.maxEventsPerUri := Some 2; EventBuffer.eventTtlMs := None |} []))
    overheat
  = [EventBuffer.mkEvent 2 "overheat" (Js.Num 2);
     EventBuffer.mkEvent 3 "overheat" (Js.Num 3)].
Proof.
  apply (C2_buffer_bound
           {| EventBuffer.maxEventsPerUri := Some 2; EventBuffer.eventTtlMs := None |}
           [] overheat
           [(1, "overheat", Js.Num 1); (2, "overheat", Js.Num 2); (3, "overheat", Js.Num 3)]
           1).
  - cbn. lia.
  - reflexivity.
Defined.

(** C3 at work: pushed at 0, read one hour later, gone. *)
Lemma C3_ttl_pruning_witness :
  ~ In (EventBuffer.mkEvent 0 "overheat" (Js.Num 1))
       (fst (EventBuffer.get 3600000 overheat
               (snd (EventBuffer.push 0 overheat "overheat" (Js.Num 1)
                       (EventBuffer.new EventBuffer.no_options))))).
Proof.
  destruct (C3_ttl_pruning (EventBuffer.new EventBuffer.no_options) overheat
              3600000 0 "overheat" (Js.Num 1) 3600000)
    as (_ & _ & _ & Habsent & _).
  - cbn. lia.
  - exact Habsent.
Defined.

(** C10 at work: three buffered events; [getRecent 0] returns the three,
    [getRecent 2] the last two. *)
Lemma C10_getRecent_zero_witness :
  let eb := EventBuffer.pushAll overheat
              [(1, "overheat", Js.Num 1); (2, "overheat", Js.Num 2);
               (3, "overheat", Js.Num 3)]
              (EventBuffer.new EventBuffer.no_options) in
  length (fst (EventBuffer.getRecent 10 overheat 0 eb)) = 3%nat
  /\ length (fst (EventBuffer.getRecent 10 overheat 2 eb)) = 2%nat.
Proof.
  intros eb.
  destruct (C10_getRecent_zero eb overheat 10 2) as (Hzero & _ & _ & Hlen).
  - lia.
  - split; [rewrite Hzero; reflexivity|rewrite Hlen; reflexivity].
Defined.

(** C4 as the design document words it fails on an action without input:
    [toggle] declares no input schema, so its declared input is not an
    object-with-properties schema, and yet [inputWrapped] is false. *)
Lemma C4_counterexample :
  In toggle (translateActions "my-light-01" lampTd)
  /\ In ("toggle", toggleAffordance) (default [] (td_actions lampTd))
  /\ ~ (action_inputWrapped toggle = true
        <-> objectWithProperties (Js.member toggleAffordance "input") = false).
Proof.
  split; [left; reflexivity|]. split; [left; reflexivity|].
  intros [_ H]. specialize (H eq_refl). discriminate H.
Qed.

(** C4 at work: [fade] takes a bare integer; calling its tool with
    [{value: 42}] calls the invoker with 42. *)
Lemma C4_action_wrapping_witness :
  action_inputWrapped fade = true
  /\ snd (invokeActionTool started fade (Js.Obj [("value", Js.Num 42)]))
     = [InvokeCall "my-light-01" "fade" (Js.Num 42)].
Proof.
  destruct (C4_action_wrapping lampTd "my-light-01" fade started invoker (Js.Num 42))
    as (name & affordance & _ & Hname & _ & _ & _ & Hwrapped).
  - right. left. reflexivity.
  - reflexivity.
  - destruct (Hwrapped eq_refl) as (_ & _ & Hcall).
    cbn [action_wotName fade] in Hname. subst name.
    split; [reflexivity|exact Hcall].
Defined.

(** C6 as the design document words it fails on the setter primitive:
    applied to the read-only [status] property it calls the external
    write function and reports success. *)
Lemma C6_counterexample :
  prop_writable status = false
  /\ invokePropertySetter started status (Js.Obj [("value", Js.Num 1)])
     = (Resolved {| isError := false;
                    text := Plain "Property status updated successfully" |},
        [WriteCall "my-light-01" "status" (Js.Num 1)])
  /\ callExplicitTool started (SetterHandler status) (Js.Obj [("value", Js.Num 1)])
     = Some (invokePropertySetter started status (Js.Obj [("value", Js.Num 1)])).
Proof. repeat split. Qed.

(** C6 at work: [write_property] on the read-only [status]. *)
Lemma C6_read_only_write_witness :
  write_property withLamp
    {| device_id := "my-light-01"; property_name := "status"; value := Js.Num 1 |}
  = (Resolved {| isError := true;
                 text := Plain "Error: Property 'status' is read-only." |}, []).
Proof.
  apply (C6_read_only_write withLamp
           {| device_id := "my-light-01"; property_name := "status"; value := Js.Num 1 |}
           lamp status); reflexivity.
Defined.





(** Two properties whose names differ only in a hyphen get the same
    getter name: once such a thing is registered, no new instance can be
    initialized, and a request without identifier is never answered. *)
Example twin_collides :
  map getterToolName (thing_properties twin) = ["get_on_off_twin"; "get_on_off_twin"]
  /\ fst (registerThing twin started) = Resolved tt
  /\ fst (handleMcpRequest None POST "session-a" true (snd (registerThing twin started)))
     = Thrown "Tool get_on_off_twin is already registered"
  /\ sessions (snd (handleMcpRequest None POST "session-a" true
                      (snd (registerThing twin started)))) = []
  /\ fst (startStdio (snd (registerThing twin started)))
     = Rejected "Tool get_on_off_twin is already registered".
Proof. repeat split. Qed.



End ScenarioFacts.

(** ** Event buffer: reads, clears, statistics *)

Section BufferObserverFacts.

Import EventBuffer BufferObservers.

Implicit Types (eb : EventBuffer.t) (uri : string).

(** [pruneExpired] without its length test: the buffer of a known
    resource becomes its filtered self. *)
Lemma pruneExpired_eq now uri eb :
  pruneExpired now uri eb =
    match buffers eb !! uri with
    | None => eb
    | Some buffer =>
        set_buffers eb
          (<[uri := List.filter (fun e => timestamp e >? now - ttlMs eb) buffer]>
             (buffers eb))
    end.
Proof.
  unfold pruneExpired. destruct (buffers eb !! uri) as [b|] eqn:Hb; [|reflexivity].
  destruct (Nat.eqb_spec (length (List.filter (fun e => timestamp e >? now - ttlMs eb) b))
                         (length b)) as [Heq|Hne]; cbn [negb]; [|reflexivity].
  rewrite (filter_all _ _ Heq), (insert_id _ _ _ Hb). destruct eb; reflexivity.
Qed.

Lemma lastUpdated_pruneExpired now uri eb :
  lastUpdated (pruneExpired now uri eb) = lastUpdated eb.
Proof.
  rewrite pruneExpired_eq. destruct (buffers eb !! uri); reflexivity.
Qed.

Lemma filter_younger now later ttl (l : list BufferedEvent) :
  now <= later ->
  List.filter (fun e => timestamp e >? later - ttl)
              (List.filter (fun e => timestamp e >? now - ttl) l)
  = List.filter (fun e => timestamp e >? later - ttl) l.
Proof.
  intros Hle. induction l as [|e l IH]; cbn [List.filter]; [reflexivity|].
  destruct (Z.gtb_spec (timestamp e) (now - ttl)) as [Hn|Hn]; cbn [List.filter].
  - rewrite IH. reflexivity.
  - destruct (Z.gtb_spec (timestamp e) (later - ttl)) as [Hl|Hl]; [lia|exact IH].
Qed.

Lemma get_unknown now uri eb : buffers eb !! uri = None -> get now uri eb = ([], eb).
Proof.
  intros Hnone. unfold get. rewrite pruneExpired_eq, Hnone.
  unfold stored. rewrite Hnone. reflexivity.
Qed.

(** X1. Reading a resource that has no buffer returns nothing and creates
    nothing: [get], [getSince] and [getRecent] return the empty list and
    the unchanged object, [count] is 0 and [has] is false; [initialize]
    is what creates the empty buffer. *)
Theorem X1_unknown_resource eb uri now :
  buffers eb !! uri = None ->
  get now uri eb = ([], eb)
  /\ (forall sinceDate, getSince now uri sinceDate eb = ([], eb))
  /\ (forall n, getRecent now uri n eb = ([], eb))
  /\ count uri eb = 0%nat
  /\ has uri eb = false
  /\ buffers (initialize uri eb) !! uri = Some []
  /\ (forall uri', uri <> uri' ->
        buffers (initialize uri eb) !! uri' = buffers eb !! uri').
Proof.
  intros Hnone.
  pose proof (get_unknown now uri eb Hnone) as Hget.
  split; [exact Hget|].
  split; [intros s; unfold getSince; rewrite Hget; reflexivity|].
  split.
  { intros n. unfold getRecent. rewrite Hget. unfold Js.slice.
    rewrite drop_nil. reflexivity. }
  split; [unfold count; rewrite Hnone; reflexivity|].
  split; [unfold has; rewrite Hnone; reflexivity|].
  unfold initialize. rewrite Hnone. cbn [set_buffers buffers].
  split; [apply lookup_insert_eq|].
  intros uri' Hne. apply lookup_insert_ne, Hne.
Qed.

Lemma last_filter_snoc {A : Type} (f : A -> bool) l x :
  f x = true -> last (List.filter f (l ++ [x])) = Some x.
Proof.
  intros Hx. rewrite List.filter_app. cbn [List.filter]. rewrite Hx.
  apply last_snoc.
Qed.

(** X2. With a cap of at least one, [push] returns the entry it made and
    leaves it the newest entry of its resource: the stored list is the
    old one with the entry appended and at most one entry, the oldest,
    dropped; [lastUpdated] is its timestamp; no other resource changes;
    and a [get] at the same clock reading, with a positive TTL, returns
    it last. *)
Theorem X2_push_newest eb uri now ty d :
  1 <= maxEvents eb ->
  let ev := mkEvent now ty d in
  let eb' := snd (push now uri ty d eb) in
  fst (push now uri ty d eb) = ev
  /\ last (stored eb' uri) = Some ev
  /\ getLastUpdated uri eb' = Some now
  /\ has uri eb' = true
  /\ (exists dropped,
         stored eb uri ++ [ev] = dropped ++ stored eb' uri
         /\ (length dropped <= 1)%nat)
  /\ (0 < ttlMs eb -> last (fst (get now uri eb')) = Some ev)
  /\ (forall uri', uri <> uri' ->
        stored eb' uri' = stored eb uri'
        /\ getLastUpdated uri' eb' = getLastUpdated uri' eb).
Proof.
  intros Hcap ev eb'.
  assert (Hstored : stored eb' uri = stored eb uri ++ [ev]
                    \/ (exists e rest, stored eb uri ++ [ev] = e :: rest
                                       /\ rest <> [] /\ stored eb' uri = rest)).
  { unfold eb'. rewrite stored_push. cbv zeta. fold ev.
    destruct (Z.gtb_spec (Z.of_nat (length (stored eb uri ++ [ev]))) (maxEvents eb))
      as [Hgt|Hle]; [|left; reflexivity].
    right. rewrite length_app in Hgt. cbn [length] in Hgt.
    destruct (stored eb uri) as [|e rest]; [cbn in Hgt; lia|].
    exists e, (rest ++ [ev]). repeat split. destruct rest; discriminate. }
  assert (Hlast : last (stored eb' uri) = Some ev).
  { destruct Hstored as [->|(e & rest & Heq & Hne & ->)]; [apply last_snoc|].
    rewrite <- (last_snoc ev (stored eb uri)), Heq.
    destruct rest; [congruence|]. symmetry. apply last_cons_cons. }
  split; [reflexivity|]. split; [exact Hlast|].
  split; [unfold eb', getLastUpdated, push; cbn; apply lookup_insert_eq|].
  split.
  { assert (Hne : stored eb' uri <> []) by (intros H; rewrite H in Hlast; discriminate).
    unfold has. unfold stored in Hne.
    destruct (buffers eb' !! uri) as [b|]; [|contradiction].
    cbn in Hne. destruct b; [contradiction|reflexivity]. }
  split.
  { destruct Hstored as [->|(e & rest & Heq & _ & ->)].
    - exists []. split; [reflexivity|cbn; lia].
    - exists [e]. split; [exact Heq|cbn; lia]. }
  split.
  { intros Httl. unfold get; cbn [fst]. rewrite stored_pruneExpired.
    rewrite decide_True by reflexivity.
    apply last_Some in Hlast. destruct Hlast as [l' ->].
    apply last_filter_snoc. unfold eb'. rewrite ttlMs_push. cbn [timestamp ev].
    apply Z.gtb_lt. lia. }
  intros uri' Hne. split; [apply stored_push_other, Hne|].
  unfold eb', getLastUpdated, push; cbn. apply lookup_insert_ne, Hne.
Qed.

(** X3. A cap of zero is honoured, not replaced by the default: the
    server passes [eventBufferSize: 0] on as it is, and then no method
    ever leaves an entry stored, while [push] still returns its entry
    and advances [lastUpdated]. *)
Theorem X3_zero_cap options history uri now ty d :
  maxEvents (new options) = 0 ->
  let eb := after options history in
  stored eb uri = []
  /\ (forall t, fst (get t uri eb) = [])
  /\ count uri eb = 0%nat
  /\ stored (snd (push now uri ty d eb)) uri = []
  /\ getLastUpdated uri (snd (push now uri ty d eb)) = Some now
  /\ (forall cfg,
         McpServer.eventBufferSize cfg = Some 0 ->
         maxEvents (McpServer.eventBuffer (McpServer.new cfg)) = 0).
Proof.
  intros Hzero eb.
  assert (Hcap : 0 <= maxEvents (new options)) by lia.
  destruct (within_cap_after options history Hcap) as [Hin Hmax]. fold eb in Hin, Hmax.
  assert (Hempty : forall eb0, within_cap eb0 -> maxEvents eb0 = 0 -> stored eb0 uri = []).
  { intros eb0 H0 Hm. specialize (H0 uri). rewrite Hm in H0.
    destruct (stored eb0 uri); [reflexivity|cbn in H0; lia]. }
  assert (Hs : stored eb uri = []) by (apply Hempty; [exact Hin|lia]).
  split; [exact Hs|]. split.
  { intros t. unfold get; cbn [fst]. rewrite stored_pruneExpired.
    rewrite decide_True by reflexivity. rewrite Hs. reflexivity. }
  split.
  { unfold count. unfold stored in Hs. destruct (buffers eb !! uri) as [b|]; [|reflexivity].
    cbn in Hs. rewrite Hs. reflexivity. }
  split.
  { apply Hempty; [|rewrite maxEvents_push; lia].
    apply within_cap_push; [lia|exact Hin]. }
  split; [unfold getLastUpdated, push; cbn; apply lookup_insert_eq|].
  intros cfg Hcfg. unfold McpServer.new; cbn. rewrite Hcfg. reflexivity.
Qed.

(** X4. [lastUpdated] outlives the entries: the reads never change it,
    so once everything stored for a resource has expired, [get] returns
    the empty list from a buffer that is still there, and
    [getLastUpdated] still gives the time of the last push. *)
Theorem X4_lastUpdated_outlives eb uri t0 ty d later :
  t0 + ttlMs eb <= later ->
  (forall e, In e (stored eb uri) -> timestamp e + ttlMs eb <= later) ->
  let eb1 := snd (push t0 uri ty d eb) in
  let eb2 := snd (get later uri eb1) in
  fst (get later uri eb1) = []
  /\ buffers eb2 !! uri = Some []
  /\ getLastUpdated uri eb2 = Some t0
  /\ (forall c uri', isRead c = true ->
        getLastUpdated uri' (step eb c) = getLastUpdated uri' eb).
Proof.
  intros Ht0 Hold eb1 eb2.
  assert (Hall : forall e, In e (stored eb1 uri) -> timestamp e + ttlMs eb <= later).
  { intros e. unfold eb1. rewrite stored_push. cbv zeta.
    destruct (Z.of_nat _ >? maxEvents eb).
    - intros He. assert (He' : In e (stored eb uri ++ [mkEvent t0 ty d])).
      { destruct (stored eb uri ++ [mkEvent t0 ty d]); [destruct He|right; exact He]. }
      apply in_app_or in He'. destruct He' as [He'|[<-|[]]]; [apply Hold, He'|exact Ht0].
    - intros He. apply in_app_or in He.
      destruct He as [He|[<-|[]]]; [apply Hold, He|exact Ht0]. }
  assert (Hfilter : List.filter (fun e => timestamp e >? later - ttlMs eb1)
                                (stored eb1 uri) = []).
  { change (ttlMs eb1) with (ttlMs eb).
    induction (stored eb1 uri) as [|e l IH]; [reflexivity|].
    cbn [List.filter].
    destruct (Z.gtb_spec (timestamp e) (later - ttlMs eb)) as [Hy|Hy].
    - specialize (Hall e (or_introl eq_refl)). lia.
    - apply IH. intros e' He'. apply Hall. right. exact He'. }
  assert (Hkey : is_Some (buffers eb1 !! uri)).
  { unfold eb1, push; cbn. rewrite lookup_insert_eq. eauto. }
  split.
  { unfold get; cbn [fst]. rewrite stored_pruneExpired.
    rewrite decide_True by reflexivity. exact Hfilter. }
  split.
  { unfold eb2, get; cbn [snd]. rewrite pruneExpired_eq.
    destruct Hkey as [b Hb]. rewrite Hb. cbn [set_buffers buffers].
    rewrite lookup_insert_eq. f_equal.
    unfold stored in Hfilter. rewrite Hb in Hfilter. exact Hfilter. }
  split.
  { unfold eb2, get, getLastUpdated; cbn [snd]. rewrite lastUpdated_pruneExpired.
    unfold eb1, push; cbn. apply lookup_insert_eq. }
  intros c uri' Hc. unfold getLastUpdated.
  destruct c; try discriminate Hc; cbn [step];
    unfold getSince, getRecent, get; cbn [snd];
    rewrite lastUpdated_pruneExpired; reflexivity.
Qed.

(** X5. [clear] forgets one resource and nothing else: its buffer and
    [lastUpdated] entry are gone, so [count] is 0, [has] is false and a
    later [get] returns the empty list without recreating the buffer;
    every other resource keeps its buffer and timestamp; clearing twice
    is clearing once. [clearAll] leaves no resource at all. *)
Theorem X5_clear eb uri :
  let eb' := clear uri eb in
  buffers eb' !! uri = None
  /\ getLastUpdated uri eb' = None
  /\ count uri eb' = 0%nat
  /\ has uri eb' = false
  /\ (forall now, get now uri eb' = ([], eb'))
  /\ (forall uri', uri <> uri' ->
        buffers eb' !! uri' = buffers eb !! uri'
        /\ getLastUpdated uri' eb' = getLastUpdated uri' eb)
  /\ clear uri eb' = eb'
  /\ maxEvents eb' = maxEvents eb /\ ttlMs eb' = ttlMs eb
  /\ (forall uri', buffers (clearAll eb) !! uri' = None
                   /\ getLastUpdated uri' (clearAll eb) = None).
Proof.
  intros eb'.
  assert (Hnone : buffers eb' !! uri = None) by (unfold eb', clear; cbn; apply lookup_delete_eq).
  split; [exact Hnone|].
  split; [unfold eb', clear, getLastUpdated; cbn; apply lookup_delete_eq|].
  split; [unfold count; rewrite Hnone; reflexivity|].
  split; [unfold has; rewrite Hnone; reflexivity|].
  split; [intros now; apply get_unknown, Hnone|].
  split.
  { intros uri' Hne. unfold eb', clear, getLastUpdated; cbn.
    rewrite !lookup_delete_ne by exact Hne. split; reflexivity. }
  split.
  { unfold eb', clear; cbn. rewrite !delete_delete_eq. reflexivity. }
  split; [reflexivity|]. split; [reflexivity|].
  intros uri'. unfold clearAll, getLastUpdated; cbn. rewrite !lookup_empty.
  split; reflexivity.
Qed.

Lemma pruneExpired_twice eb uri t1 t2 :
  t1 <= t2 -> pruneExpired t2 uri (pruneExpired t1 uri eb) = pruneExpired t2 uri eb.
Proof.
  intros H12. rewrite (pruneExpired_eq t1 uri eb).
  destruct (buffers eb !! uri) as [b|] eqn:Hb; [|reflexivity].
  rewrite !pruneExpired_eq. cbn [set_buffers buffers ttlMs].
  rewrite lookup_insert_eq, Hb, insert_insert_eq, filter_younger by exact H12.
  reflexivity.
Qed.

(** X6. Pruning composes: a [get] made at [now] does not change what a
    [get] made at [later >= now] returns or leaves behind, a second [get]
    at the same clock reading returns the same list and changes nothing,
    and a later read returns only entries an earlier read returned. *)
Theorem X6_get_twice eb uri now later :
  now <= later ->
  get later uri (snd (get now uri eb)) = get later uri eb
  /\ get now uri (snd (get now uri eb)) = (fst (get now uri eb), snd (get now uri eb))
  /\ (forall e, In e (fst (get later uri eb)) -> In e (fst (get now uri eb))).
Proof.
  intros Hle.
  split; [unfold get; cbn [snd]; rewrite pruneExpired_twice by exact Hle; reflexivity|].
  split; [unfold get; cbn [fst snd]; rewrite pruneExpired_twice by lia; reflexivity|].
  intros e. unfold get; cbn [fst]. rewrite !stored_pruneExpired.
  rewrite !decide_True by reflexivity. rewrite !List.filter_In.
  intros [Hin Hy]. split; [exact Hin|]. apply Z.gtb_lt. apply Z.gtb_lt in Hy. lia.
Qed.

(** *** The order of strings *)

Lemma ascii_compare_refl (a : ascii) : Ascii.compare a a = Eq.
Proof. unfold Ascii.compare. apply N.compare_refl. Qed.

Lemma ascii_compare_trans (a b c : ascii) :
  Ascii.compare a b = Lt -> Ascii.compare b c = Lt -> Ascii.compare a c = Lt.
Proof.
  unfold Ascii.compare. rewrite !N.compare_lt_iff. apply N.lt_trans.
Qed.

Lemma string_compare_refl (s : string) : String.compare s s = Eq.
Proof.
  induction s as [|a s IH]; cbn [String.compare]; [reflexivity|].
  rewrite ascii_compare_refl. exact IH.
Qed.

Lemma string_compare_trans (s1 s2 s3 : string) :
  String.compare s1 s2 = Lt -> String.compare s2 s3 = Lt -> String.compare s1 s3 = Lt.
Proof.
  revert s2 s3. induction s1 as [|a s1 IH]; intros [|b s2] [|c s3];
    cbn [String.compare]; try discriminate; try reflexivity.
  destruct (Ascii.compare a b) eqn:Hab; try discriminate;
    destruct (Ascii.compare b c) eqn:Hbc; try discriminate; intros H12 H23.
  - apply Ascii.compare_eq_iff in Hab, Hbc. subst.
    rewrite ascii_compare_refl. apply (IH s2); assumption.
  - apply Ascii.compare_eq_iff in Hab. subst. rewrite Hbc. reflexivity.
  - apply Ascii.compare_eq_iff in Hbc. subst. rewrite Hab. reflexivity.
  - rewrite (ascii_compare_trans a b c Hab Hbc). reflexivity.
Qed.

Lemma ltb_irrefl (s : string) : String.ltb s s = false.
Proof. unfold String.ltb. rewrite string_compare_refl. reflexivity. Qed.

Lemma ltb_trans (s1 s2 s3 : string) :
  String.ltb s1 s2 = true -> String.ltb s2 s3 = true -> String.ltb s1 s3 = true.
Proof.
  unfold String.ltb. intros H12 H23.
  destruct (String.compare s1 s2) eqn:H1; try discriminate.
  destruct (String.compare s2 s3) eqn:H2; try discriminate.
  rewrite (string_compare_trans s1 s2 s3 H1 H2). reflexivity.
Qed.

Lemma ltb_asym (s1 s2 : string) : String.ltb s1 s2 = true -> String.ltb s2 s1 = false.
Proof.
  intros H. destruct (String.ltb s2 s1) eqn:H'; [|reflexivity].
  rewrite <- (ltb_irrefl s1). symmetry. apply (ltb_trans s1 s2 s1); assumption.
Qed.

Lemma ltb_total (s1 s2 : string) :
  String.ltb s1 s2 = false -> String.ltb s2 s1 = false -> s1 = s2.
Proof.
  unfold String.ltb. rewrite (String.compare_antisym s2 s1).
  destruct (String.compare s1 s2) eqn:H; cbn; try discriminate.
  intros _ _. apply String.compare_eq_iff, H.
Qed.

(** the lesser of two strings, as the loop keeps it *)
Lemma lesser_comm (a b o : string) :
  (if String.ltb a (if String.ltb b o then b else o) then a
   else if String.ltb b o then b else o)
  = (if String.ltb b (if String.ltb a o then a else o) then b
     else if String.ltb a o then a else o).
Proof.
  destruct (String.ltb b o) eqn:Hbo, (String.ltb a o) eqn:Hao;
    rewrite ?Hbo, ?Hao.
  - destruct (String.ltb a b) eqn:Hab, (String.ltb b a) eqn:Hba; try reflexivity.
    + rewrite (ltb_asym a b Hab) in Hba. discriminate.
    + apply ltb_total; assumption.
  - destruct (String.ltb a b) eqn:Hab; [|reflexivity].
    rewrite (ltb_trans a b o Hab Hbo) in Hao. discriminate.
  - destruct (String.ltb b a) eqn:Hba; [|reflexivity].
    rewrite (ltb_trans b a o Hba Hao) in Hbo. discriminate.
  - reflexivity.
Qed.

(** The loop of [getStats] gives the same result in whatever order it
    meets the buffers. *)
Lemma statsStep_comm k1 b1 k2 b2 acc :
  statsStep k1 b1 (statsStep k2 b2 acc) = statsStep k2 b2 (statsStep k1 b1 acc).
Proof.
  destruct acc as [total oldest]. unfold statsStep. f_equal; [lia|].
  destruct b1 as [|e1 ?], b2 as [|e2 ?]; try reflexivity. cbv zeta.
  set (a := isoTimestamp e1). set (b := isoTimestamp e2).
  destruct oldest as [o|].
  - pose proof (lesser_comm a b o) as H.
    destruct (String.ltb b o), (String.ltb a o);
      repeat match goal with
             | |- context [String.ltb ?x ?y] => destruct (String.ltb x y)
             end; congruence.
  - destruct (String.ltb a b) eqn:Hab, (String.ltb b a) eqn:Hba; try reflexivity.
    + rewrite (ltb_asym a b Hab) in Hba. discriminate.
    + f_equal. apply ltb_total; assumption.
Qed.

(** What the loop of [getStats] has computed over a map all of whose
    buffers hold at most [cap] entries. *)
Lemma stats_fold (cap : nat) (m : gmap string (list BufferedEvent)) :
  (forall uri b, m !! uri = Some b -> (length b <= cap)%nat) ->
  let r := map_fold statsStep (0%nat, None) m in
  (fst r <= size m * cap)%nat
  /\ (snd r = None <-> fst r = 0%nat)
  /\ (forall uri e rest, m !! uri = Some (e :: rest) ->
        exists o, snd r = Some o /\ String.ltb (isoTimestamp e) o = false)
  /\ (forall o, snd r = Some o ->
        exists uri e rest, m !! uri = Some (e :: rest) /\ isoTimestamp e = o).
Proof.
  cbv zeta.
  apply (map_fold_weak_ind
           (fun r m =>
              (forall uri b, m !! uri = Some b -> (length b <= cap)%nat) ->
              (fst r <= size m * cap)%nat
              /\ (snd r = None <-> fst r = 0%nat)
              /\ (forall uri e rest, m !! uri = Some (e :: rest) ->
                    exists o, snd r = Some o /\ String.ltb (isoTimestamp e) o = false)
              /\ (forall o, snd r = Some o ->
                    exists uri e rest, m !! uri = Some (e :: rest) /\ isoTimestamp e = o))).
  - intros _. cbn [fst snd]. rewrite map_size_empty.
    split; [lia|]. split; [tauto|].
    split; [intros uri e rest H; rewrite lookup_empty in H; discriminate|].
    intros o [=].
  - intros i b m0 [total oldest] Hfresh IH Hcap.
    assert (Hcap0 : forall uri b0, m0 !! uri = Some b0 -> (length b0 <= cap)%nat).
    { intros uri b0 Hb0. apply (Hcap uri). rewrite lookup_insert_ne; [exact Hb0|].
      intros ->. congruence. }
    destruct (IH Hcap0) as (Hsum & Hnone & Hmin & Hatt). cbn [fst snd] in *.
    assert (Hb : (length b <= cap)%nat) by (apply (Hcap i), lookup_insert_eq).
    rewrite map_size_insert_None by exact Hfresh.
    unfold statsStep. cbn [fst snd]. cbv zeta.
    split; [lia|].
    split.
    { destruct b as [|e rest]; cbn [length].
      - rewrite Nat.add_0_r. exact Hnone.
      - destruct oldest as [o|]; [destruct (String.ltb (isoTimestamp e) o)|];
          split; try discriminate; lia. }
    split.
    { intros uri e rest Hlook.
      destruct (decide (i = uri)) as [<-|Hne].
      - rewrite lookup_insert_eq in Hlook. injection Hlook as ->.
        destruct oldest as [o|]; [|eexists; split; [reflexivity|apply ltb_irrefl]].
        destruct (String.ltb (isoTimestamp e) o) eqn:Hlt; eexists;
          (split; [reflexivity|]); [apply ltb_irrefl|exact Hlt].
      - rewrite lookup_insert_ne in Hlook by exact Hne.
        destruct (Hmin uri e rest Hlook) as (o & -> & Ho).
        destruct b as [|e0 rest0]; [eauto|].
        destruct (String.ltb (isoTimestamp e0) o) eqn:Hlt; eexists;
          (split; [reflexivity|]); [|exact Ho].
        destruct (String.ltb (isoTimestamp e) (isoTimestamp e0)) eqn:Hlt'; [|reflexivity].
        rewrite (ltb_trans _ _ _ Hlt' Hlt) in Ho. discriminate. }
    intros o Ho.
    assert (Hold : oldest = Some o ->
                   exists uri e rest, <[i:=b]> m0 !! uri = Some (e :: rest)
                                      /\ isoTimestamp e = o).
    { intros Hold. destruct (Hatt o Hold) as (uri & e & rest & Hlook & He).
      exists uri, e, rest. split; [|exact He].
      rewrite lookup_insert_ne; [exact Hlook|]. intros ->. congruence. }
    destruct b as [|e0 rest0]; [apply Hold, Ho|].
    assert (Hnew : isoTimestamp e0 = o ->
                   exists uri e rest, <[i:=e0 :: rest0]> m0 !! uri = Some (e :: rest)
                                      /\ isoTimestamp e = o).
    { intros He. exists i, e0, rest0. split; [apply lookup_insert_eq|exact He]. }
    destruct oldest as [o'|].
    + destruct (String.ltb (isoTimestamp e0) o'); [|apply Hold, Ho].
      injection Ho as Ho. apply Hnew, Ho.
    + injection Ho as Ho. apply Hnew, Ho.
Qed.

(** X7. In every state the methods can bring a buffer with a non-negative
    cap to, with the clock readings of a [Date], [getStats] reports a
    total of at most [uriCount] times the cap (the memory the buffer
    holds is bounded by the resources it knows), an [oldestEvent] exactly
    when the total is not 0, and as [oldestEvent] the timestamp of the
    first entry of a non-empty buffer than which the timestamp of no
    first entry is less: the timestamps are ISO strings and are compared
    as strings. *)
Theorem X7_getStats_bounds options history :
  0 <= maxEvents (new options) ->
  Forall validCall history ->
  let eb := after options history in
  let stats := getStats eb in
  Z.of_nat (totalEvents stats) <= Z.of_nat (uriCount stats) * maxEvents (new options)
  /\ uriCount stats = size (buffers eb)
  /\ (oldestEvent stats = None <-> totalEvents stats = 0%nat)
  /\ (forall uri e rest,
         buffers eb !! uri = Some (e :: rest) ->
         exists o, oldestEvent stats = Some o
                   /\ String.ltb (isoTimestamp e) o = false)
  /\ (forall o,
         oldestEvent stats = Some o ->
         exists uri e rest, buffers eb !! uri = Some (e :: rest) /\ isoTimestamp e = o).
Proof.
  intros Hcap _ eb stats.
  destruct (within_cap_after options history Hcap) as [Hin Hmax]. fold eb in Hin, Hmax.
  assert (Hbound : forall uri b, buffers eb !! uri = Some b ->
                                 (length b <= Z.to_nat (maxEvents (new options)))%nat).
  { intros uri b Hb. specialize (Hin uri). unfold stored in Hin.
    rewrite Hb, Hmax in Hin. exact Hin. }
  destruct (stats_fold (Z.to_nat (maxEvents (new options))) (buffers eb) Hbound)
    as (Hsum & Hnone & Hmin & Hatt).
  unfold stats, getStats.
  destruct (map_fold statsStep (0%nat, None) (buffers eb)) as [total oldest].
  cbn [fst snd totalEvents uriCount oldestEvent] in *.
  split; [nia|]. split; [reflexivity|]. split; [exact Hnone|].
  split; [exact Hmin|exact Hatt].
Qed.

(** The order of the strings is not the order of the readings once a
    year has more than four digits: an entry of the year 10000 is
    reported as older than one of 1970. *)
Example getStats_year_10000 :
  Js.toISOString 1000 = "1970-01-01T00:00:01.000Z"
  /\ Js.toISOString 253402300800000 = "+010000-01-01T00:00:00.000Z"
  /\ Js.toISOString (-1) = "1969-12-31T23:59:59.999Z"
  /\ Js.toISOString 951782400000 = "2000-02-29T00:00:00.000Z"
  /\ Js.toISOString (-62198755200000) = "-000001-01-01T00:00:00.000Z"
  /\ oldestEvent
       (getStats (after no_options
                    [CallPush 253402300800000 "wot://a/events/x" "x" (Js.Num 1);
                     CallPush 1000 "wot://b/events/y" "y" (Js.Num 2)]))
     = Some "+010000-01-01T00:00:00.000Z".
Proof. repeat split; vm_compute; reflexivity. Qed.

End BufferObserverFacts.

(** ** Identifiers and resource addresses *)

Section IdentifierFacts.

Import Translator.

(** A property of characters holds of all of them if it holds of the 256. *)
Lemma ascii_forall (P : ascii -> bool) :
  forallb (fun n => P (ascii_of_nat n)) (List.seq 0 256) = true ->
  forall c, P c = true.
Proof.
  intros H c. rewrite forallb_forall in H.
  specialize (H (nat_of_ascii c)). rewrite ascii_nat_embedding in H.
  apply H. apply in_seq. pose proof (nat_ascii_bounded c). lia.
Qed.

Lemma id_char_facts c :
  (is_lower_alnum c || is_hyphen c)%bool = true ->
  Re.is_slash c = false /\ Ascii.eqb c "_"%char = false
  /\ lower_char c = c /\ Re.is_line_terminator c = false
  /\ (is_lower_alnum c = false -> c = hyphen).
Proof.
  intros Hc.
  pose proof (ascii_forall
                (fun c => implb (is_lower_alnum c || is_hyphen c)
                                (negb (Re.is_slash c)
                                 && negb (Ascii.eqb c "_"%char)
                                 && Ascii.eqb (lower_char c) c
                                 && negb (Re.is_line_terminator c)
                                 && (is_lower_alnum c || Ascii.eqb c hyphen)))%bool
                ltac:(vm_compute; reflexivity) c) as H.
  cbv beta in H. rewrite Hc in H. cbn [implb] in H.
  repeat (apply andb_true_iff in H; destruct H as [H ?]).
  repeat match goal with
         | H : negb _ = true |- _ => apply negb_true_iff in H
         end.
  repeat split; try assumption.
  - apply Ascii.eqb_eq. assumption.
  - intros Hn. apply Ascii.eqb_eq.
    match goal with
    | H : (is_lower_alnum c || _)%bool = true |- _ => rewrite Hn in H; exact H
    end.
Qed.

(** *** Fixed points of [sanitizeId] *)

Lemma strip_trailing_single s :
  no_double_hyphen s = true -> no_double_hyphen (strip_trailing_hyphen s) = true.
Proof.
  induction s as [|c s IH]; [reflexivity|].
  rewrite strip_trailing_cons. cbn [no_double_hyphen]. intros H.
  apply andb_true_iff in H. destruct H as [Hc Hs].
  destruct s as [|c' s'].
  - destruct (is_hyphen c) eqn:Hy; cbn [no_double_hyphen starts_with_hyphen];
      [reflexivity|]. rewrite andb_false_r. reflexivity.
  - cbn [no_double_hyphen]. rewrite (IH Hs), andb_true_r.
    destruct (starts_with_hyphen (String c' s')) eqn:Hstart.
    + rewrite andb_true_r in Hc. apply negb_true_iff in Hc. rewrite Hc. reflexivity.
    + rewrite (strip_trailing_start _ Hstart), andb_false_r. reflexivity.
Qed.

Lemma toLowerCase_id s : id_chars s = true -> toLowerCase s = s.
Proof.
  induction s as [|c s IH]; cbn [id_chars toLowerCase]; [reflexivity|].
  intros H. apply andb_true_iff in H. destruct H as [Hc Hs].
  destruct (id_char_facts c Hc) as (_ & _ & -> & _). rewrite (IH Hs). reflexivity.
Qed.

Lemma replace_runs_id b s :
  id_chars s = true -> no_double_hyphen s = true ->
  (b = true -> starts_with_hyphen s = false) ->
  replace_runs b s = s.
Proof.
  revert b. induction s as [|c s IH]; intros b; cbn [id_chars no_double_hyphen replace_runs];
    [reflexivity|].
  intros Hchars Hsingle Hstart.
  apply andb_true_iff in Hchars. destruct Hchars as [Hc Hs].
  apply andb_true_iff in Hsingle. destruct Hsingle as [Hcs Hss].
  destruct (is_lower_alnum c) eqn:Ha.
  - rewrite (IH false Hs Hss) by discriminate. reflexivity.
  - cbn [orb] in Hc. apply Ascii.eqb_eq in Hc. subst c. cbn [starts_with_hyphen] in Hstart.
    destruct b; [specialize (Hstart eq_refl); discriminate|].
    rewrite (IH true Hs Hss); [reflexivity|].
    intros _. change (is_hyphen hyphen) with true in Hcs. cbn [andb] in Hcs.
    apply negb_true_iff in Hcs. exact Hcs.
Qed.

Lemma strip_trailing_id s : ends_with_hyphen s = false -> strip_trailing_hyphen s = s.
Proof.
  induction s as [|c s IH]; [reflexivity|].
  rewrite strip_trailing_cons. destruct s as [|c' s'].
  - cbn [ends_with_hyphen]. intros ->. reflexivity.
  - intros H. rewrite IH; [reflexivity|exact H].
Qed.

Lemma strip_leading_id s : starts_with_hyphen s = false -> strip_leading_hyphen s = s.
Proof. destruct s as [|c s]; cbn; [reflexivity|]. intros ->. reflexivity. Qed.

Lemma strip_trailing_length s :
  (String.length (strip_trailing_hyphen s) <= String.length s)%nat
  /\ (ends_with_hyphen s = true -> (String.length (strip_trailing_hyphen s) < String.length s)%nat).
Proof.
  induction s as [|c s IH]; [split; [reflexivity|discriminate]|].
  rewrite strip_trailing_cons. destruct s as [|c' s'].
  - cbn [ends_with_hyphen]. destruct (is_hyphen c); cbn; split; intros; (lia || discriminate).
  - destruct IH as [IH1 IH2]. cbn [String.length] in *.
    change (ends_with_hyphen (String c (String c' s')))
      with (ends_with_hyphen (String c' s')).
    split; [lia|]. intros H. specialize (IH2 H). lia.
Qed.

Lemma trim_hyphens_fixed s :
  trim_hyphens s = s <-> starts_with_hyphen s = false /\ ends_with_hyphen s = false.
Proof.
  unfold trim_hyphens. split.
  - intros H.
    assert (Hlen : String.length (strip_trailing_hyphen (strip_leading_hyphen s)) = String.length s)
      by (rewrite H; reflexivity).
    destruct (strip_trailing_length (strip_leading_hyphen s)) as [Hle Hlt].
    assert (Hstart : starts_with_hyphen s = false).
    { destruct s as [|c s]; [reflexivity|]. cbn [starts_with_hyphen strip_leading_hyphen] in *.
      destruct (is_hyphen c); [|reflexivity]. cbn [String.length] in *. lia. }
    split; [exact Hstart|].
    rewrite (strip_leading_id s Hstart) in Hlt.
    destruct (ends_with_hyphen s); [|reflexivity].
    specialize (Hlt eq_refl). rewrite (strip_leading_id s Hstart) in Hlen. lia.
  - intros [Hs He]. rewrite (strip_leading_id s Hs). apply strip_trailing_id, He.
Qed.

Lemma sanitizeId_single str : no_double_hyphen (sanitizeId str) = true.
Proof.
  unfold sanitizeId, trim_hyphens. apply strip_trailing_single.
  apply strip_leading_single, replace_runs_single.
Qed.

Lemma append_cons c a b : String c a +:+ b = String c (a +:+ b).
Proof. reflexivity. Qed.

Lemma id_chars_no_separator s : id_chars s = true -> has_separator s = false.
Proof.
  induction s as [|c s IH]; cbn [id_chars has_separator]; [reflexivity|].
  intros H. apply andb_true_iff in H. destruct H as [Hc Hs].
  rewrite (IH Hs), orb_false_r.
  pose proof (ascii_forall
                (fun c => implb (is_lower_alnum c || is_hyphen c) (negb (is_separator c)))%bool
                ltac:(vm_compute; reflexivity) c) as H.
  cbv beta in H. rewrite Hc in H. apply negb_true_iff in H. exact H.
Qed.

(** the last part of [scheme:rest] is [rest] when [rest] has no separator *)
Lemma last_split_app a c b :
  is_separator c = true -> has_separator b = false ->
  List.last (split (a +:+ String c b)) "" = b.
Proof.
  intros Hc Hb. induction a as [|x a IH].
  - change ("" +:+ String c b) with (String c b). cbn [split]. rewrite Hc.
    rewrite (split_no_separator b Hb). reflexivity.
  - rewrite append_cons. cbn [split].
    destruct (is_separator x).
    + destruct (split (a +:+ String c b)) eqn:Hs; [destruct (split_not_nil _ Hs)|].
      exact IH.
    + destruct (split (a +:+ String c b)) as [|seg segs] eqn:Hs;
        [destruct (split_not_nil _ Hs)|].
      destruct segs as [|seg' segs'].
      * exfalso. destruct (split_separator (a +:+ String c b)) as (u & v & l & Hl).
        { clear -Hc. induction a as [|y a IH].
          - change ("" +:+ String c b) with (String c b). cbn [has_separator].
            rewrite Hc. reflexivity.
          - rewrite append_cons. cbn [has_separator]. rewrite IH. apply orb_true_r. }
        rewrite Hl in Hs. discriminate.
      * exact IH.
Qed.

Lemma nonempty_after_colon a b : negb (String.eqb (a +:+ ":" +:+ b) "") = true.
Proof. destruct a; reflexivity. Qed.

(** X8. [sanitizeId] is idempotent, and the strings it leaves unchanged
    are exactly the well-formed identifiers: only characters of
    [[a-z0-9-]], no two hyphens in a row, no hyphen first or last. So a
    thing id is stable: deriving an id from a title or identifier segment
    that already is a thing id gives it back. *)
Theorem X8_sanitizeId_fixed_points str :
  sanitizeId (sanitizeId str) = sanitizeId str
  /\ (sanitizeId str = str
      <-> id_chars str = true /\ no_double_hyphen str = true
          /\ starts_with_hyphen str = false /\ ends_with_hyphen str = false)
  /\ (forall scheme title description props acts evs,
         extractThingId (mkTD None (sanitizeId str) description props acts evs)
         = sanitizeId str
         /\ extractThingId (mkTD (Some (scheme +:+ ":" +:+ sanitizeId str)) title
                                 description props acts evs)
            = sanitizeId str).
Proof.
  assert (Hfixed : forall s,
            id_chars s = true -> no_double_hyphen s = true ->
            starts_with_hyphen s = false -> ends_with_hyphen s = false ->
            sanitizeId s = s).
  { intros s Hc Hd Hs He. unfold sanitizeId.
    rewrite (toLowerCase_id s Hc), (replace_runs_id false s Hc Hd) by discriminate.
    apply trim_hyphens_fixed. auto. }
  destruct (sanitizeId_shape str) as (Hc & Hs & He & _).
  pose proof (sanitizeId_single str) as Hd.
  split; [apply Hfixed; assumption|].
  split.
  { split.
    - intros <-. auto.
    - intros (H1 & H2 & H3 & H4). apply Hfixed; assumption. }
  intros scheme title description props acts evs.
  split; [apply Hfixed; assumption|].
  unfold extractThingId. cbn [td_id td_title].
  rewrite (nonempty_after_colon scheme).
  change (":" +:+ sanitizeId str) with (String ":"%char (sanitizeId str)).
  rewrite (last_split_app scheme ":"%char) by
      (reflexivity || apply id_chars_no_separator, Hc).
  apply Hfixed; assumption.
Qed.

End IdentifierFacts.

(** ** Addresses of affordances *)

Section AddressFacts.

Import Translator McpServer.

Lemma strip_prefix_app p s : Re.strip_prefix p (p +:+ s) = Some s.
Proof.
  induction p as [|c p IH]; [destruct s; reflexivity|].
  rewrite append_cons. cbn [Re.strip_prefix]. rewrite Ascii.eqb_refl. exact IH.
Qed.

Lemma prefix_cancel p a b : p +:+ a = p +:+ b -> a = b.
Proof.
  intros H. apply (f_equal (Re.strip_prefix p)) in H.
  rewrite !strip_prefix_app in H. congruence.
Qed.

(** [span] stops where the kept characters stop. *)
Lemma span_all_app keep a s :
  Re.span keep a = (a, "") ->
  match s with EmptyString => True | String c _ => keep c = false end ->
  Re.span keep (a +:+ s) = (a, s).
Proof.
  intros Ha Hs. revert Ha. induction a as [|c a IH]; intros Ha.
  - change ("" +:+ s) with s. destruct s as [|x s]; [reflexivity|].
    cbn [Re.span]. rewrite Hs. reflexivity.
  - rewrite append_cons. cbn [Re.span] in Ha |- *.
    destruct (keep c); [|discriminate].
    destruct (Re.span keep a) as [taken remainder].
    injection Ha as -> ->. rewrite (IH eq_refl). reflexivity.
Qed.

Lemma span_id_chars keep s :
  (forall c, (is_lower_alnum c || is_hyphen c)%bool = true -> keep c = true) ->
  id_chars s = true -> Re.span keep s = (s, "").
Proof.
  intros Hkeep. induction s as [|c s IH]; cbn [id_chars Re.span]; [reflexivity|].
  intros H. apply andb_true_iff in H. destruct H as [Hc Hs].
  rewrite (Hkeep c Hc), (IH Hs). reflexivity.
Qed.

Lemma span_no_slash s :
  id_chars s = true -> Re.span (fun c => negb (Re.is_slash c)) s = (s, "").
Proof.
  apply span_id_chars. intros c Hc.
  destruct (id_char_facts c Hc) as (-> & _). reflexivity.
Qed.

Lemma span_no_underscore s :
  id_chars s = true -> Re.span (fun c => negb (Ascii.eqb c "_"%char)) s = (s, "").
Proof.
  apply span_id_chars. intros c Hc.
  destruct (id_char_facts c Hc) as (_ & -> & _). reflexivity.
Qed.

Lemma span_one_line s :
  Names.one_line s = true -> Re.span (fun c => negb (Re.is_line_terminator c)) s = (s, "").
Proof.
  induction s as [|c s IH]; cbn [Names.one_line Re.span]; [reflexivity|].
  intros H. apply andb_true_iff in H. destruct H as [Hc Hs].
  rewrite Hc, (IH Hs). reflexivity.
Qed.

(** A slash-free [a] is recovered from [a/..]. *)
Lemma split_at_char keep x a a' r r' :
  keep x = false ->
  Re.span keep a = (a, "") -> Re.span keep a' = (a', "") ->
  a +:+ String x r = a' +:+ String x r' -> a = a' /\ r = r'.
Proof.
  intros Hx Ha Ha' H.
  pose proof (span_all_app keep a (String x r) Ha Hx) as H1.
  pose proof (span_all_app keep a' (String x r') Ha' Hx) as H2.
  rewrite H, H2 in H1. injection H1 as -> ->. auto.
Qed.

Lemma is_empty_false s : s <> "" -> Re.is_empty s = false.
Proof. destruct s; [congruence|reflexivity]. Qed.

(** The pattern of the getter and the setter, on a URI as the translator
    writes it. *)
Lemma property_uri_at_written thingId name :
  id_chars thingId = true -> thingId <> "" ->
  Names.one_line name = true -> name <> "" ->
  Re.property_uri_at ("wot://" +:+ thingId +:+ "/properties/" +:+ name)
  = Some (thingId, name, "").
Proof.
  intros Hid Hne Hline Hname. unfold Re.property_uri_at.
  rewrite strip_prefix_app.
  change ("/properties/" +:+ name) with (String "/"%char ("properties/" +:+ name)).
  rewrite (span_all_app _ thingId (String "/"%char ("properties/" +:+ name))
             (span_no_slash thingId Hid) eq_refl).
  rewrite (is_empty_false thingId Hne).
  change (String "/"%char ("properties/" +:+ name)) with ("/properties/" +:+ name).
  rewrite strip_prefix_app, (span_one_line name Hline), (is_empty_false name Hname).
  reflexivity.
Qed.

Lemma property_uri_head s thingId name remainder :
  Re.property_uri_at s = Some (thingId, name, remainder) ->
  Re.property_uri s = Some (thingId, name).
Proof. intros H. destruct s; cbn [Re.property_uri]; rewrite H; reflexivity. Qed.

(** What the three translations write into each entry. *)
Lemma translateProperties_In thingId td p :
  In p (translateProperties thingId td) ->
  exists entries prop,
    td_properties td = Some entries /\ In (prop_wotName p, prop) entries
    /\ prop_uri p = "wot://" +:+ thingId +:+ "/properties/" +:+ prop_wotName p
    /\ prop_writable p = negb (Js.truthy (Js.member prop "readOnly"))
    /\ prop_schema p = prop.
Proof.
  unfold translateProperties. destruct (td_properties td) as [entries|]; [|intros []].
  intros H. apply in_map_iff in H. destruct H as ([name prop] & <- & Hin).
  exists entries, prop. cbn. auto.
Qed.

Lemma translateEvents_In thingId td e :
  In e (translateEvents thingId td) ->
  exists entries event,
    td_events td = Some entries /\ In (event_wotName e, event) entries
    /\ event_uri e = "wot://" +:+ thingId +:+ "/events/" +:+ event_wotName e.
Proof.
  unfold translateEvents. destruct (td_events td) as [entries|]; [|intros []].
  intros H. apply in_map_iff in H. destruct H as ([name event] & <- & Hin).
  exists entries, event. cbn. auto.
Qed.

Lemma translateActions_names thingId td a :
  In a (translateActions thingId td) ->
  action_name a = thingId +:+ "_" +:+ action_wotName a /\ action_thingId a = thingId.
Proof.
  unfold translateActions. destruct (td_actions td) as [entries|]; [|intros []].
  intros H. apply in_map_iff in H. destruct H as ([name action] & <- & Hin).
  destruct (buildActionInputSchema (Js.member action "input")). cbn. auto.
Qed.

Lemma thing_id_chars td : id_chars (thing_id (translate td)) = true.
Proof.
  cbn [translate thing_id]. unfold extractThingId.
  destruct (td_id td) as [id|]; [destruct (negb (String.eqb id ""))|];
    apply sanitizeId_shape.
Qed.

(** X9. A translated property is addressed back to where it came from:
    the pattern the getter and the setter apply to its URI yields the
    thing's id and the property's name in the Thing Description, so a call
    of the getter reads exactly that property of that thing, once, and the
    setter writes it. The id must not be empty and the name must be a
    non-empty single line. *)
Theorem X9_property_address td p :
  In p (thing_properties (translate td)) ->
  thing_id (translate td) <> "" ->
  prop_wotName p <> "" -> Names.one_line (prop_wotName p) = true ->
  let thingId := thing_id (translate td) in
  Re.property_uri (prop_uri p) = Some (thingId, prop_wotName p)
  /\ getterToolName p
     = "get_" +:+ Re.underscore (prop_wotName p) +:+ "_" +:+ Re.underscore thingId
  /\ (forall st reader,
         propertyReader st = Some reader ->
         snd (invokePropertyGetter st p) = [ReadCall thingId (prop_wotName p)]
         /\ (forall v, reader thingId (prop_wotName p) = Resolved v ->
                       exists r, fst (invokePropertyGetter st p) = Resolved r
                                 /\ isError r = false)
         /\ (forall m, reader thingId (prop_wotName p) = Rejected m ->
                       fst (invokePropertyGetter st p) = Rejected m))
  /\ (forall st writer args,
         propertyWriter st = Some writer ->
         snd (invokePropertySetter st p args)
         = [WriteCall thingId (prop_wotName p) (Js.member args "value")]).
Proof.
  intros Hin Hid Hname Hline thingId.
  cbn [translate thing_properties] in Hin.
  destruct (translateProperties_In _ _ _ Hin) as (entries & prop & _ & _ & Huri & _).
  change (extractThingId td) with thingId in Huri.
  pose proof (property_uri_at_written thingId (prop_wotName p)
                (thing_id_chars td) Hid Hline Hname) as Hat.
  rewrite <- Huri in Hat.
  pose proof (property_uri_head _ _ _ _ Hat) as Hparse.
  split; [exact Hparse|]. split.
  { unfold getterToolName, Re.property_uri_anchored. rewrite Hat. reflexivity. }
  split.
  - intros st reader Hreader. unfold invokePropertyGetter. rewrite Hreader, Hparse.
    unfold bind, await, ret.
    destruct (reader thingId (prop_wotName p)) as [v|m]; cbn [fst snd].
    + split; [reflexivity|]. split; [|discriminate]. intros v' _. eauto.
    + split; [reflexivity|]. split; [discriminate|]. intros m' [= ->]. reflexivity.
  - intros st writer args Hwriter. unfold invokePropertySetter. rewrite Hwriter, Hparse.
    unfold bind, await, ret.
    destruct (writer thingId (prop_wotName p) (Js.member args "value")); reflexivity.
Qed.

(** the characters of [[a-z0-9]] that [sanitizeId] keeps are all there is
    to tell an empty id *)
Lemma hyphens_only s :
  id_chars s = true -> no_double_hyphen s = true -> starts_with_hyphen s = false ->
  alnum_part s = "" -> s = "".
Proof.
  destruct s as [|c s]; [reflexivity|].
  cbn [id_chars no_double_hyphen starts_with_hyphen alnum_part].
  intros Hc _ Hs. apply andb_true_iff in Hc. destruct Hc as [Hc _].
  rewrite Hs, orb_false_r in Hc. rewrite Hc. discriminate.
Qed.

Lemma sanitizeId_empty str :
  sanitizeId str = "" <-> alnum_part (toLowerCase str) = "".
Proof.
  destruct (sanitizeId_shape str) as (Hc & Hs & _ & Ha). split.
  - intros H. rewrite <- Ha, H. reflexivity.
  - intros H. apply hyphens_only; auto using sanitizeId_single. congruence.
Qed.

(** no match of the property pattern starts inside the prefix of a URI
    whose thing id is empty *)
Lemma property_uri_no_thing name :
  Re.property_uri ("wot:///properties/" +:+ name) = Re.property_uri name.
Proof.
  change ("wot:///properties/" +:+ name)
    with (String "w" (String "o" (String "t" (String ":" (String "/" (String "/"
         (String "/" (String "p" (String "r" (String "o" (String "p" (String "e"
         (String "r" (String "t" (String "i" (String "e" (String "s" (String "/"
          name)))))))))))))))))).
  reflexivity.
Qed.

(** X10. [sanitizeId] gives the empty id exactly when the lowercased
    string has no character of [[a-z0-9]]. The properties of a thing with
    the empty id cannot be reached: for a property whose own name holds
    no text the property pattern matches, the URI
    [wot:///properties/name] does not match the pattern, so the getter and
    the setter reject with [Invalid property URI] before any device call,
    and the generic [read_property] tool answers with that error. *)
Theorem X10_empty_thing_id td p :
  In p (thing_properties (translate td)) ->
  thing_id (translate td) = "" ->
  Re.property_uri (prop_wotName p) = None ->
  prop_uri p = "wot:///properties/" +:+ prop_wotName p
  /\ (forall str, sanitizeId str = "" <-> alnum_part (toLowerCase str) = "")
  /\ (forall st reader,
         propertyReader st = Some reader ->
         invokePropertyGetter st p
         = (Rejected ("Invalid property URI: " +:+ prop_uri p), []))
  /\ (forall st writer args,
         propertyWriter st = Some writer ->
         invokePropertySetter st p args
         = (Rejected ("Invalid property URI: " +:+ prop_uri p), []))
  /\ (forall st reader,
         propertyReader st = Some reader ->
         JsMap.get "" (things st) = Some (translate td) ->
         findProperty (translate td) (prop_wotName p) = Some p ->
         read_property st (mkPropertyArgs "" (prop_wotName p) Js.Undefined)
         = (Resolved {| isError := true;
                        text := Plain ("Error: Invalid property URI: " +:+ prop_uri p) |},
            [])).
Proof.
  intros Hin Hid Hname.
  cbn [translate thing_properties] in Hin.
  destruct (translateProperties_In _ _ _ Hin) as (entries & prop & _ & _ & Huri & _).
  change (extractThingId td) with (thing_id (translate td)) in Huri.
  rewrite Hid in Huri.
  change ("wot://" +:+ "" +:+ "/properties/" +:+ prop_wotName p)
    with ("wot:///properties/" +:+ prop_wotName p) in Huri.
  assert (Hparse : Re.property_uri (prop_uri p) = None)
    by (rewrite Huri, property_uri_no_thing; exact Hname).
  split; [exact Huri|]. split; [exact sanitizeId_empty|].
  split; [|split].
  - intros st reader Hreader. unfold invokePropertyGetter.
    rewrite Hreader, Hparse. reflexivity.
  - intros st writer args Hwriter. unfold invokePropertySetter.
    rewrite Hwriter, Hparse. reflexivity.
  - intros st reader Hreader Hthing Hfind. unfold read_property.
    cbn [device_id property_name]. rewrite Hthing, Hfind.
    unfold invokePropertyGetter. rewrite Hreader, Hparse.
    unfold catch, throw, errorResult, ret.
    change ("Invalid property URI: " +:+ prop_uri p)
      with (String "I" ("nvalid property URI: " +:+ prop_uri p)).
    reflexivity.
Qed.

(** X11. The keys under which the server stores what the translator
    produces identify the affordance: two property URIs, two event URIs
    or two action names are equal only for the same thing id and the same
    name in the Thing Description, and a property URI is never an event
    URI. So registering one thing does not overwrite the entries of a
    thing with another id. *)
Theorem X11_keys_identify td td' :
  let thingId := thing_id (translate td) in
  let thingId' := thing_id (translate td') in
  (forall p p', In p (thing_properties (translate td)) ->
                In p' (thing_properties (translate td')) ->
                prop_uri p = prop_uri p' ->
                thingId = thingId' /\ prop_wotName p = prop_wotName p')
  /\ (forall e e', In e (thing_events (translate td)) ->
                   In e' (thing_events (translate td')) ->
                   event_uri e = event_uri e' ->
                   thingId = thingId' /\ event_wotName e = event_wotName e')
  /\ (forall a a', In a (thing_actions (translate td)) ->
                   In a' (thing_actions (translate td')) ->
                   action_name a = action_name a' ->
                   thingId = thingId' /\ action_wotName a = action_wotName a')
  /\ (forall p e, In p (thing_properties (translate td)) ->
                  In e (thing_events (translate td')) ->
                  prop_uri p <> event_uri e).
Proof.
  intros thingId thingId'.
  pose proof (thing_id_chars td) as Hid. pose proof (thing_id_chars td') as Hid'.
  fold thingId in Hid. fold thingId' in Hid'.
  cbn [translate thing_properties thing_events thing_actions].
  change (extractThingId td) with thingId. change (extractThingId td') with thingId'.
  split; [|split; [|split]].
  - intros p p' H H' Heq.
    destruct (translateProperties_In _ _ _ H) as (? & ? & _ & _ & Hu & _).
    destruct (translateProperties_In _ _ _ H') as (? & ? & _ & _ & Hu' & _).
    rewrite Hu, Hu' in Heq. apply prefix_cancel in Heq.
    apply (split_at_char (fun c => negb (Re.is_slash c)) "/"%char) in Heq;
      auto using span_no_slash.
    destruct Heq as [Ht Heq]. apply (prefix_cancel "properties/") in Heq. auto.
  - intros e e' H H' Heq.
    destruct (translateEvents_In _ _ _ H) as (? & ? & _ & _ & Hu).
    destruct (translateEvents_In _ _ _ H') as (? & ? & _ & _ & Hu').
    rewrite Hu, Hu' in Heq. apply prefix_cancel in Heq.
    apply (split_at_char (fun c => negb (Re.is_slash c)) "/"%char) in Heq;
      auto using span_no_slash.
    destruct Heq as [Ht Heq]. apply (prefix_cancel "events/") in Heq. auto.
  - intros a a' H H' Heq.
    destruct (translateActions_names _ _ _ H) as [Hn _].
    destruct (translateActions_names _ _ _ H') as [Hn' _].
    rewrite Hn, Hn' in Heq.
    apply (split_at_char (fun c => negb (Ascii.eqb c "_"%char)) "_"%char) in Heq;
      auto using span_no_underscore.
  - intros p e H H' Heq.
    destruct (translateProperties_In _ _ _ H) as (? & ? & _ & _ & Hu & _).
    destruct (translateEvents_In _ _ _ H') as (? & ? & _ & _ & Hu').
    rewrite Hu, Hu' in Heq. apply prefix_cancel in Heq.
    apply (split_at_char (fun c => negb (Re.is_slash c)) "/"%char) in Heq;
      auto using span_no_slash.
    destruct Heq as [_ Heq]. discriminate Heq.
Qed.

End AddressFacts.

(** ** Tool names, and the client's identifiers *)

Section ClientFacts.

Import Translator McpServer.

Lemma tool_chars_app a b :
  Names.tool_chars (a +:+ b) = (Names.tool_chars a && Names.tool_chars b)%bool.
Proof.
  induction a as [|c a IH]; [reflexivity|].
  rewrite append_cons. cbn [Names.tool_chars]. rewrite IH, andb_assoc. reflexivity.
Qed.

Lemma underscore_chars s : Names.tool_chars (Re.underscore s) = true.
Proof.
  induction s as [|c s IH]; [reflexivity|].
  cbn [Re.underscore Names.tool_chars]. rewrite IH, andb_true_r.
  destruct (Re.is_alnum c) eqn:Hc; [rewrite Hc|]; reflexivity.
Qed.

Lemma underscore_length s : String.length (Re.underscore s) = String.length s.
Proof. induction s as [|c s IH]; cbn; [|rewrite IH]; reflexivity. Qed.

Lemma string_length_app a b :
  String.length (a +:+ b) = (String.length a + String.length b)%nat.
Proof.
  induction a as [|c a IH]; [reflexivity|].
  rewrite append_cons. cbn [String.length]. rewrite IH. reflexivity.
Qed.

Lemma property_tool_names p :
  exists rest,
    getterToolName p = "get_" +:+ rest /\ setterToolName p = "set_" +:+ rest
    /\ Names.tool_chars rest = true.
Proof.
  unfold getterToolName, setterToolName.
  destruct (Re.property_uri_anchored (prop_uri p)) as [[thingId propName]|].
  - eexists. split; [reflexivity|]. split; [reflexivity|].
    rewrite !tool_chars_app, !underscore_chars. reflexivity.
  - eexists. split; [reflexivity|]. split; [reflexivity|]. apply underscore_chars.
Qed.

(** X12. The names under which the explicit strategy registers tools use
    letters, digits and underscores only, whatever the names in the Thing
    Description; a getter is [get_] and a setter [set_] followed by the
    same rest, so no getter shares its name with a setter; an action tool
    is the action's name, an underscore and the thing's id, each with its
    other characters turned into underscores one for one. *)
Theorem X12_tool_names p a :
  Names.tool_chars (getterToolName p) = true
  /\ Names.tool_chars (setterToolName p) = true
  /\ Names.tool_chars (actionToolName a) = true
  /\ (exists rest, getterToolName p = "get_" +:+ rest
                   /\ setterToolName p = "set_" +:+ rest)
  /\ (forall p', getterToolName p <> setterToolName p')
  /\ String.length (actionToolName a)
     = (String.length (action_wotName a) + 1 + String.length (action_thingId a))%nat.
Proof.
  destruct (property_tool_names p) as (rest & Hg & Hs & Hrest).
  split; [rewrite Hg, tool_chars_app, Hrest; reflexivity|].
  split; [rewrite Hs, tool_chars_app, Hrest; reflexivity|].
  split.
  { unfold actionToolName. rewrite !tool_chars_app, !underscore_chars. reflexivity. }
  split; [eauto|]. split.
  { intros p'. destruct (property_tool_names p') as (rest' & _ & Hs' & _).
    rewrite Hg, Hs'. discriminate. }
  unfold actionToolName.
  rewrite !string_length_app, !underscore_length. cbn [String.length]. lia.
Qed.

(** *** The client's identifier and the translator's *)




(** A [consume] that rejected has stored nothing. *)
Lemma consume_rejected answers tdOrUrl c e :
  fst (WotClient.consume answers tdOrUrl c) = Rejected e ->
  WotClient.consumedThings (snd (WotClient.consume answers tdOrUrl c))
  = WotClient.consumedThings c.
Proof.
  unfold WotClient.consume, WotClient.start.
  destruct (WotClient.initialized c);
    [|destruct (WotClient.starting answers) as [[]|e0]];
    try (destruct tdOrUrl as [u|td0];
         [destruct (WotClient.fetching answers) as [td0|e1]|];
         destruct (WotClient.consuming answers) as [[]|e']);
    cbn [fst snd WotClient.consumedThings]; intros H; try discriminate H; reflexivity.
Qed.

Lemma consume_allWell td c :
  fst (WotClient.consume (WotClient.allWell td) (WotClient.Td td) c) = Resolved td
  /\ fst (WotClient.consume (WotClient.allWell td) (WotClient.Url "") c) = Resolved td.
Proof.
  unfold WotClient.consume, WotClient.start, WotClient.allWell.
  destruct (WotClient.initialized c); split; reflexivity.
Qed.



Lemma registerThing_callbacks thing st :
  let st' := snd (registerThing thing st) in
  propertyReader st' = propertyReader st /\ propertyWriter st' = propertyWriter st
  /\ actionInvoker st' = actionInvoker st /\ config st' = config st.
Proof.
  cbn zeta.
  destruct (core_fields _ _ (registerThing_core thing st))
    as (_ & _ & _ & _ & _ & _ & _ & _ & _ & H10 & _ & H12 & H13 & H14).
  rewrite H10, H12, H13, H14. auto.
Qed.

(** [addThing] of the bridge with its client, by how [consume] ends. *)
Lemma addThing_consume_rejected answers tdOrUrl subscribeToEvents subscribing w e :
  fst (WotClient.consume answers tdOrUrl (Wiring.client w)) = Rejected e ->
  let r := Wiring.addThing answers tdOrUrl subscribeToEvents subscribing w in
  fst r = Rejected e
  /\ Wiring.bridge (snd r) = Wiring.bridge w
  /\ WotClient.consumedThings (Wiring.client (snd r))
     = WotClient.consumedThings (Wiring.client w).
Proof.
  intros H. cbv zeta. unfold Wiring.addThing.
  pose proof (consume_rejected _ _ _ _ H) as Hkept.
  destruct (WotClient.consume answers tdOrUrl (Wiring.client w)) as [[td|e'] c'];
    cbn [fst snd] in *; [discriminate|].
  injection H as ->. repeat split. exact Hkept.
Qed.

Lemma addThing_consume_resolved answers tdOrUrl subscribeToEvents subscribing w td :
  fst (WotClient.consume answers tdOrUrl (Wiring.client w)) = Resolved td ->
  let c' := snd (WotClient.consume answers tdOrUrl (Wiring.client w)) in
  let out := WotMcpBridge.addThing td subscribeToEvents
               (WotClient.subscribeAllEvents c' (thing_id (translate td)) subscribing)
               (Wiring.bridge w) in
  Wiring.addThing answers tdOrUrl subscribeToEvents subscribing w
  = (fst out, {| Wiring.client := c'; Wiring.bridge := snd out |}).
Proof.
  intros H. cbv zeta. unfold Wiring.addThing.
  destruct (WotClient.consume answers tdOrUrl (Wiring.client w)) as [[td'|e'] c'];
    cbn [fst snd] in *; [|discriminate].
  injection H as ->.
  destruct (WotMcpBridge.addThing td subscribeToEvents _ (Wiring.bridge w)) as [o b].
  reflexivity.
Qed.


Lemma bridge_addThing_thrown td subscribeToEvents subscribing b e :
  fst (registerThing (translate td) (WotMcpBridge.mcpServer b)) = Rejected e ->
  WotMcpBridge.addThing td subscribeToEvents subscribing b
  = (Rejected e,
     {| WotMcpBridge.mcpServer :=
          snd (registerThing (translate td) (WotMcpBridge.mcpServer b));
        WotMcpBridge.translatedThings :=
          JsMap.set (thing_id (translate td)) (translate td)
                    (WotMcpBridge.translatedThings b) |}).
Proof.
  intros H. unfold WotMcpBridge.addThing.
  destruct (registerThing (translate td) (WotMcpBridge.mcpServer b)) as [[[]|e'] st'];
    cbn [fst snd] in *; [discriminate|]. injection H as ->. reflexivity.
Qed.




End ClientFacts.

(** ** The generic tools *)

Section GenericToolFacts.

Import Translator McpServer.

Lemma catch_resolved {A : Type} (a : A) calls h : catch (Resolved a, calls) h = (Resolved a, calls).
Proof. reflexivity. Qed.

Lemma catch_rejected m calls :
  catch (Rejected m, calls) errorResult
  = (Resolved {| isError := true;
                 text := Plain ("Error: " +:+ (if String.eqb m "" then "Error" else m)) |},
     calls).
Proof. unfold catch, errorResult, ret. rewrite app_nil_r. reflexivity. Qed.

(** What the [try]/[catch] of a generic tool makes of a body. *)
Lemma catch_cases (body : Async CallToolResult) :
  (exists r, body = (Resolved r, snd body) /\ catch body errorResult = body)
  \/ (exists m, body = (Rejected m, snd body)
                /\ catch body errorResult
                   = (Resolved {| isError := true;
                                  text := Plain ("Error: "
                                           +:+ (if String.eqb m "" then "Error" else m)) |},
                      snd body)).
Proof.
  destruct body as [[r|m] calls]; [left|right]; eexists; split;
    try reflexivity. apply catch_rejected.
Qed.

Lemma catch_settles (body : Async CallToolResult) :
  exists r, fst (catch body errorResult) = Resolved r
            /\ snd (catch body errorResult) = snd body.
Proof.
  destruct (catch_cases body) as [(r & Hb & ->)|(m & Hb & ->)].
  - exists r. rewrite Hb. auto.
  - eexists. split; reflexivity.
Qed.

Lemma getter_calls st prop : (length (snd (invokePropertyGetter st prop)) <= 1)%nat.
Proof.
  unfold invokePropertyGetter.
  destruct (propertyReader st) as [reader|]; [|cbn; lia].
  destruct (Re.property_uri (prop_uri prop)) as [[thingId propName]|]; [|cbn; lia].
  unfold bind, await, ret. destruct (reader thingId propName); cbn; lia.
Qed.

Lemma setter_calls st prop args :
  (length (snd (invokePropertySetter st prop args)) <= 1)%nat.
Proof.
  unfold invokePropertySetter.
  destruct (propertyWriter st) as [writer|]; [|cbn; lia].
  destruct (Re.property_uri (prop_uri prop)) as [[thingId propName]|]; [|cbn; lia].
  unfold bind, await, ret. destruct (writer thingId propName _); cbn; lia.
Qed.

Lemma action_calls st action args :
  (length (snd (invokeActionTool st action args)) <= 1)%nat.
Proof.
  unfold invokeActionTool.
  destruct (actionInvoker st) as [invoker|]; [|cbn; lia].
  unfold bind, await, ret. destruct (invoker _ _ _); cbn; lia.
Qed.

(** X15. The three generic tools always answer: whatever the arguments
    and however the device behaves, the call resolves, after at most one
    device call. A failure of the body (an unknown device or affordance, a
    missing callback, a device error) comes back as an error result whose
    text is [Error: ] and the message, where the explicit tool for the
    same affordance would reject; a success comes back unchanged. An
    unknown device or affordance is answered without a device call. *)
Theorem X15_generic_tools_answer st :
  (forall args,
      (exists r, fst (read_property st args) = Resolved r)
      /\ (length (snd (read_property st args)) <= 1)%nat
      /\ (exists r, fst (write_property st args) = Resolved r)
      /\ (length (snd (write_property st args)) <= 1)%nat)
  /\ (forall args,
         (exists r, fst (invoke_action st args) = Resolved r)
         /\ (length (snd (invoke_action st args)) <= 1)%nat)
  /\ (forall args thing prop,
         JsMap.get (device_id args) (things st) = Some thing ->
         findProperty thing (property_name args) = Some prop ->
         (forall r calls,
             invokePropertyGetter st prop = (Resolved r, calls) ->
             read_property st args = (Resolved r, calls))
         /\ (forall m calls,
                invokePropertyGetter st prop = (Rejected m, calls) ->
                read_property st args
                = (Resolved {| isError := true;
                               text := Plain ("Error: "
                                        +:+ (if String.eqb m "" then "Error" else m)) |},
                   calls)))
  /\ (forall args thing action,
         JsMap.get (action_device_id args) (things st) = Some thing ->
         findAction thing (action_name_arg args) = Some action ->
         (forall r calls,
             invokeActionTool st action (params args) = (Resolved r, calls) ->
             invoke_action st args = (Resolved r, calls))
         /\ (forall m calls,
                invokeActionTool st action (params args) = (Rejected m, calls) ->
                invoke_action st args
                = (Resolved {| isError := true;
                               text := Plain ("Error: "
                                        +:+ (if String.eqb m "" then "Error" else m)) |},
                   calls)))
  /\ (forall args,
         JsMap.get (device_id args) (things st) = None ->
         read_property st args
         = (Resolved {| isError := true;
                        text := Plain ("Error: Device '" +:+ device_id args
                                         +:+ "' not found.") |}, [])
         /\ write_property st args = read_property st args)
  /\ (forall args thing,
         JsMap.get (device_id args) (things st) = Some thing ->
         findProperty thing (property_name args) = None ->
         read_property st args
         = (Resolved {| isError := true;
                        text := Plain ("Error: Property '" +:+ property_name args
                                         +:+ "' not found on device '"
                                         +:+ device_id args +:+ "'.") |}, [])
         /\ write_property st args = read_property st args)
  /\ (forall args,
         JsMap.get (action_device_id args) (things st) = None ->
         invoke_action st args
         = (Resolved {| isError := true;
                        text := Plain ("Error: Device '" +:+ action_device_id args
                                         +:+ "' not found.") |}, [])).
Proof.
  split; [|split; [|split; [|split; [|split; [|split]]]]].
  - intros args. unfold read_property, write_property.
    match goal with
    | |- context [fst (catch ?b errorResult)] =>
        destruct (catch_settles b) as (r & Hr & Hc); rewrite Hr, Hc
    end.
    split; [eauto|]. split.
    { destruct (JsMap.get _ _) as [thing|]; [|cbn; lia].
      destruct (findProperty _ _) as [prop|]; [apply getter_calls|cbn; lia]. }
    match goal with
    | |- context [fst (catch ?b errorResult)] =>
        destruct (catch_settles b) as (r' & Hr' & Hc'); rewrite Hr', Hc'
    end.
    split; [eauto|].
    destruct (JsMap.get _ _) as [thing|]; [|cbn; lia].
    destruct (findProperty _ _) as [prop|]; [|cbn; lia].
    destruct (negb (prop_writable prop)); [cbn; lia|apply setter_calls].
  - intros args. unfold invoke_action.
    match goal with
    | |- context [fst (catch ?b errorResult)] =>
        destruct (catch_settles b) as (r & Hr & Hc); rewrite Hr, Hc
    end.
    split; [eauto|].
    destruct (JsMap.get _ _) as [thing|]; [|cbn; lia].
    destruct (findAction _ _) as [action|]; [apply action_calls|cbn; lia].
  - intros args thing prop Hthing Hprop. unfold read_property.
    rewrite Hthing, Hprop. split; intros ? calls ->;
      [apply catch_resolved|apply catch_rejected].
  - intros args thing action Hthing Haction. unfold invoke_action.
    rewrite Hthing, Haction. split; intros ? calls ->;
      [apply catch_resolved|apply catch_rejected].
  - intros args Hthing. unfold read_property, write_property. rewrite Hthing.
    unfold throw. rewrite catch_rejected.
    change (String.eqb ("Device '" +:+ device_id args +:+ "' not found.") "") with false.
    auto.
  - intros args thing Hthing Hprop. unfold read_property, write_property.
    rewrite Hthing, Hprop. unfold throw. rewrite catch_rejected.
    change (String.eqb ("Property '" +:+ property_name args +:+ "' not found on device '"
                          +:+ device_id args +:+ "'.") "") with false.
    auto.
  - intros args Hthing. unfold invoke_action. rewrite Hthing.
    unfold throw. rewrite catch_rejected.
    change (String.eqb ("Device '" +:+ action_device_id args +:+ "' not found.") "")
      with false.
    reflexivity.
Qed.

End GenericToolFacts.

(** ** Subscriptions and the end of a session *)

Section SubscriptionFacts.

Import Translator McpServer.

Lemma sent_by_event now thingId eventName d st :
  sentBy st (handleWotEvent now thingId eventName d st)
  = map (fun s => (s, ResourcesUpdated (eventUri thingId eventName)))
        (List.filter (fun s => notifiable (eventUri thingId eventName) s st)
                     (activeServers st)).
Proof.
  pose proof (handleWotEvent_eq now thingId eventName d st) as Heq.
  cbv zeta in Heq. rewrite Heq. unfold sentBy. cbn [notifications set_notifications].
  apply drop_app_length.
Qed.

Lemma sent_by_event_In now thingId eventName d st server n :
  In (server, n) (sentBy st (handleWotEvent now thingId eventName d st))
  <-> n = ResourcesUpdated (eventUri thingId eventName)
      /\ In server (activeServers st)
      /\ hasTransport server st = true
      /\ subscribed server (eventUri thingId eventName) st = true.
Proof.
  rewrite sent_by_event, in_map_iff. split.
  - intros (s & [= -> <-] & Hs). apply List.filter_In in Hs. destruct Hs as [Hs Hc].
    unfold notifiable in Hc. apply andb_true_iff in Hc. tauto.
  - intros (-> & Hs & Ht & Hsub). exists server. split; [reflexivity|].
    apply List.filter_In. split; [exact Hs|]. unfold notifiable. rewrite Ht, Hsub.
    reflexivity.
Qed.

Lemma sent_by_listChanged_In st server n :
  In (server, n) (sentBy st (notifyResourceListChanged st))
  <-> n = ResourcesListChanged /\ In server (activeServers st)
      /\ hasTransport server st = true.
Proof.
  rewrite notifyResourceListChanged_eq. unfold sentBy.
  cbn [notifications set_notifications]. rewrite drop_app_length, in_map_iff. split.
  - intros (s & [= -> <-] & Hs). apply List.filter_In in Hs. tauto.
  - intros (-> & Hs & Ht). exists server. split; [reflexivity|].
    apply List.filter_In. auto.
Qed.

Lemma subscribed_subscribe server uri server' uri' st :
  is_Some (serverSubscriptions st !! server) ->
  subscribed server' uri' (handleSubscribe server uri st)
  = if decide (server = server' /\ uri = uri') then true
    else subscribed server' uri' st.
Proof.
  intros [subs Hsubs]. unfold handleSubscribe, subscribed. rewrite Hsubs.
  cbn [serverSubscriptions set_serverSubscriptions].
  destruct (decide (server = server')) as [<-|Hne].
  - rewrite lookup_insert_eq, Hsubs.
    destruct (decide (server = server /\ uri = uri')) as [[_ <-]|Hn].
    + apply bool_decide_eq_true. apply elem_of_union. left.
      apply elem_of_singleton. reflexivity.
    + apply bool_decide_ext. rewrite elem_of_union, elem_of_singleton.
      split; [intros [->|H]; [tauto|exact H]|auto].
  - rewrite lookup_insert_ne by exact Hne.
    rewrite decide_False by tauto. reflexivity.
Qed.

Lemma subscribed_unsubscribe server uri server' uri' st :
  subscribed server' uri' (handleUnsubscribe server uri st)
  = if decide (server = server' /\ uri = uri') then false
    else subscribed server' uri' st.
Proof.
  unfold handleUnsubscribe, subscribed.
  destruct (serverSubscriptions st !! server) as [subs|] eqn:Hsubs.
  - cbn [serverSubscriptions set_serverSubscriptions].
    destruct (decide (server = server')) as [<-|Hne].
    + rewrite lookup_insert_eq, Hsubs.
      destruct (decide (server = server /\ uri = uri')) as [[_ <-]|Hn].
      * apply bool_decide_eq_false. rewrite elem_of_difference, elem_of_singleton.
        tauto.
      * apply bool_decide_ext. rewrite elem_of_difference, elem_of_singleton.
        split; [tauto|]. intros H. split; [exact H|]. intros ->. tauto.
    + rewrite lookup_insert_ne by exact Hne.
      rewrite decide_False by tauto. reflexivity.
  - destruct (decide (server = server' /\ uri = uri')) as [[<- _]|Hn]; [|reflexivity].
    rewrite Hsubs. reflexivity.
Qed.

Lemma subscribe_twice server uri st :
  handleSubscribe server uri (handleSubscribe server uri st)
  = handleSubscribe server uri st.
Proof.
  unfold handleSubscribe at 2.
  destruct (serverSubscriptions st !! server) as [subs|] eqn:Hsubs.
  - unfold handleSubscribe. cbn [serverSubscriptions set_serverSubscriptions].
    rewrite Hsubs, lookup_insert_eq. unfold set_serverSubscriptions. cbn.
    rewrite insert_insert_eq. do 2 f_equal.
    apply set_eq. intros x. rewrite !elem_of_union, elem_of_singleton. tauto.
  - unfold handleSubscribe. rewrite Hsubs. reflexivity.
Qed.

Lemma subscribe_frame server uri st :
  activeServers (handleSubscribe server uri st) = activeServers st
  /\ (forall s, hasTransport s (handleSubscribe server uri st) = hasTransport s st)
  /\ notifications (handleSubscribe server uri st) = notifications st
  /\ eventBuffer (handleSubscribe server uri st) = eventBuffer st
  /\ instances (handleSubscribe server uri st) = instances st.
Proof.
  unfold handleSubscribe. destruct (serverSubscriptions st !! server); repeat split.
Qed.

Lemma unsubscribe_frame server uri st :
  activeServers (handleUnsubscribe server uri st) = activeServers st
  /\ (forall s, hasTransport s (handleUnsubscribe server uri st) = hasTransport s st)
  /\ notifications (handleUnsubscribe server uri st) = notifications st
  /\ eventBuffer (handleUnsubscribe server uri st) = eventBuffer st
  /\ instances (handleUnsubscribe server uri st) = instances st.
Proof.
  unfold handleUnsubscribe. destruct (serverSubscriptions st !! server); repeat split.
Qed.

(** X16. A subscription lasts from the subscribe request to the
    unsubscribe request for the same URI on the same server: once the
    handlers are installed, subscribing makes the server a receiver of
    that URI's update notifications and of no other, a second subscribe
    changes nothing, and after unsubscribing an event on that URI is
    still buffered but no longer announced to that server. Other
    servers and other URIs are not affected by either request. *)
Theorem X16_subscriptions st server uri :
  is_Some (serverSubscriptions st !! server) ->
  let st1 := handleSubscribe server uri st in
  let st2 := handleUnsubscribe server uri st1 in
  subscribed server uri st1 = true
  /\ subscribed server uri st2 = false
  /\ (forall server' uri',
         ~ (server = server' /\ uri = uri') ->
         subscribed server' uri' st1 = subscribed server' uri' st
         /\ subscribed server' uri' st2 = subscribed server' uri' st)
  /\ handleSubscribe server uri st1 = st1
  /\ (forall now thingId eventName d,
         eventUri thingId eventName = uri ->
         (In server (activeServers st) -> hasTransport server st = true ->
          In (server, ResourcesUpdated uri)
             (sentBy st1 (handleWotEvent now thingId eventName d st1)))
         /\ (forall n, ~ In (server, n)
                         (sentBy st2 (handleWotEvent now thingId eventName d st2)))
         /\ eventBuffer (handleWotEvent now thingId eventName d st2)
            = snd (EventBuffer.push now uri eventName d (eventBuffer st))).
Proof.
  intros Hsome st1 st2.
  assert (Hsome1 : is_Some (serverSubscriptions st1 !! server)).
  { unfold st1, handleSubscribe. destruct Hsome as [subs Hsubs]. rewrite Hsubs.
    cbn [serverSubscriptions set_serverSubscriptions]. rewrite lookup_insert_eq. eauto. }
  assert (H1 : subscribed server uri st1 = true).
  { unfold st1. rewrite subscribed_subscribe by exact Hsome.
    rewrite decide_True by auto. reflexivity. }
  assert (H2 : subscribed server uri st2 = false).
  { unfold st2. rewrite subscribed_unsubscribe.
    rewrite decide_True by auto. reflexivity. }
  destruct (subscribe_frame server uri st) as (Ha1 & Ht1 & Hn1 & Hb1 & _).
  destruct (unsubscribe_frame server uri st1) as (Ha2 & Ht2 & Hn2 & Hb2 & _).
  fold st1 in Ha1, Ht1, Hn1, Hb1. fold st2 in Ha2, Ht2, Hn2, Hb2.
  split; [exact H1|]. split; [exact H2|]. split.
  { intros server' uri' Hne. unfold st2.
    rewrite subscribed_unsubscribe, decide_False by exact Hne.
    unfold st1. rewrite subscribed_subscribe, decide_False by assumption. auto. }
  split; [apply subscribe_twice|].
  intros now thingId eventName d Huri. split; [|split].
  - intros Hactive Htr. apply sent_by_event_In. rewrite Huri.
    rewrite Ha1, Ht1. auto.
  - intros n Hn. apply sent_by_event_In in Hn. destruct Hn as (_ & _ & _ & Hsub).
    rewrite Huri in Hsub. congruence.
  - pose proof (handleWotEvent_eq now thingId eventName d st2) as Heq.
    cbv zeta in Heq. rewrite Heq, Huri.
    cbn [eventBuffer set_notifications set_eventBuffer]. rewrite Hb2, Hb1. reflexivity.
Qed.

(** *** Closing a session *)

Lemma jsmap_get_None {V : Type} k (m : JsMap.t V) :
  JsMap.get k m = None <-> ~ In k (JsMap.keys m).
Proof.
  induction m as [|[k' v'] m IH]; cbn [JsMap.get JsMap.keys map fst]; [tauto|].
  destruct (String.eqb_spec k k') as [->|Hne].
  - split; [discriminate|]. intros H. destruct H. left. reflexivity.
  - rewrite IH. unfold JsMap.keys.
    split; [intros H [Hk|Hk]; [congruence|exact (H Hk)]|].
    intros H Hk. apply H. right. exact Hk.
Qed.

Lemma jsmap_get_delete_eq {V : Type} k (m : JsMap.t V) :
  List.NoDup (JsMap.keys m) -> JsMap.get k (JsMap.delete k m) = None.
Proof.
  induction m as [|[k' v'] m IH]; cbn [JsMap.delete JsMap.get JsMap.keys map fst];
    [reflexivity|].
  intros Hnd. apply List.NoDup_cons_iff in Hnd. destruct Hnd as [Hk Hnd].
  destruct (String.eqb_spec k k') as [->|Hne].
  - apply jsmap_get_None, Hk.
  - cbn [JsMap.get]. destruct (String.eqb_spec k k'); [congruence|]. apply IH, Hnd.
Qed.

Lemma jsmap_get_delete_ne {V : Type} k k' (m : JsMap.t V) :
  k <> k' -> JsMap.get k' (JsMap.delete k m) = JsMap.get k' m.
Proof.
  intros Hne. induction m as [|[k0 v0] m IH]; cbn [JsMap.delete JsMap.get]; [reflexivity|].
  destruct (String.eqb_spec k k0) as [->|Hk].
  - destruct (String.eqb_spec k' k0); [congruence|reflexivity].
  - cbn [JsMap.get]. destruct (String.eqb k' k0); [reflexivity|exact IH].
Qed.

(** X17. When the transport of a session closes, the session is gone:
    a later request with its id is answered 404, its server has no
    subscription set any more, so subscribe requests on it are dropped,
    and neither an event nor a change of the resource list is announced
    to it. The other sessions, the registry and the event buffer stay as
    they were. *)
Theorem X17_session_closed st sid session :
  List.NoDup (JsMap.keys (sessions st)) ->
  JsMap.get sid (sessions st) = Some session ->
  sid <> "" ->
  let server := session_server session in
  let st' := sessionClosed sid server st in
  (forall method newSessionId initialized,
      handleMcpRequest (Some sid) method newSessionId initialized st'
      = (Status404 "Session not found", st'))
  /\ (forall sid', sid <> sid' ->
        JsMap.get sid' (sessions st') = JsMap.get sid' (sessions st))
  /\ serverSubscriptions st' !! server = None
  /\ (forall server', server <> server' ->
        serverSubscriptions st' !! server' = serverSubscriptions st !! server')
  /\ (forall uri, handleSubscribe server uri st' = st'
                  /\ subscribed server uri st' = false)
  /\ hasTransport server st' = false
  /\ (forall now thingId eventName d n,
         ~ In (server, n) (sentBy st' (handleWotEvent now thingId eventName d st')))
  /\ (forall n, ~ In (server, n) (sentBy st' (notifyResourceListChanged st')))
  /\ things st' = things st /\ properties st' = properties st
  /\ actions st' = actions st /\ events st' = events st
  /\ eventBuffer st' = eventBuffer st /\ notifications st' = notifications st.
Proof.
  intros Hnd Hget Hsid server st'.
  assert (Hsessions : sessions st' = JsMap.delete sid (sessions st)) by reflexivity.
  assert (Hsubs : serverSubscriptions st' = delete server (serverSubscriptions st))
    by reflexivity.
  assert (Hnone : serverSubscriptions st' !! server = None)
    by (rewrite Hsubs; apply lookup_delete_eq).
  assert (Htr : hasTransport server st' = false).
  { unfold hasTransport, st', sessionClosed. rewrite instances_onServer.
    rewrite decide_True by reflexivity.
    cbn [instances set_serverSubscriptions set_sessions].
    destruct (instances st !! server); reflexivity. }
  split.
  { intros method newSessionId initialized. unfold handleMcpRequest.
    assert (Hno : noSessionId (Some sid) = false).
    { cbn [noSessionId]. destruct (String.eqb_spec sid ""); congruence. }
    rewrite Hno. cbn [default]. rewrite Hsessions, jsmap_get_delete_eq by exact Hnd.
    reflexivity. }
  split; [intros sid' Hne; rewrite Hsessions; apply jsmap_get_delete_ne, Hne|].
  split; [exact Hnone|].
  split; [intros server' Hne; rewrite Hsubs; apply lookup_delete_ne, Hne|].
  split.
  { intros uri. unfold handleSubscribe, subscribed. rewrite Hnone. auto. }
  split; [exact Htr|].
  split.
  { intros now thingId eventName d n Hn. apply sent_by_event_In in Hn.
    destruct Hn as (_ & _ & Ht & _). congruence. }
  split.
  { intros n Hn. apply sent_by_listChanged_In in Hn.
    destruct Hn as (_ & _ & Ht). congruence. }
  repeat split.
Qed.

End SubscriptionFacts.

(** ** Starting and stopping *)

Section LifecycleFacts.

Import Translator McpServer Lifecycle.


Lemma filter_none {A : Type} (f : A -> bool) l :
  (forall x, In x l -> f x = false) -> List.filter f l = [].
Proof.
  induction l as [|x l IH]; [reflexivity|]. intros H. cbn [List.filter].
  rewrite (H x) by (left; reflexivity). apply IH. intros y Hy. apply H. right. exact Hy.
Qed.


(** *** [stop] *)

Lemma close_loop_keeps (closes : string -> bool) l st :
  let st' := fold_left (fun st (entry : string * Session) =>
                          if closes (fst entry)
                          then sessionClosed (fst entry) (session_server (snd entry)) st
                          else st) l st in
  things st' = things st /\ properties st' = properties st
  /\ actions st' = actions st /\ events st' = events st
  /\ eventBuffer st' = eventBuffer st /\ notifications st' = notifications st
  /\ config st' = config st /\ stdioServer st' = stdioServer st
  /\ httpServer st' = httpServer st
  /\ (serverSubscriptions st = ∅ -> serverSubscriptions st' = ∅).
Proof.
  cbv zeta. revert st. induction l as [|[sid session] l IH]; intros st.
  - repeat split; auto.
  - cbn [fold_left fst snd].
    destruct (closes sid).
    + destruct (IH (sessionClosed sid (session_server session) st))
        as (-> & -> & -> & -> & -> & -> & -> & -> & -> & Hs).
      repeat split. intros He. apply Hs.
      change (serverSubscriptions (sessionClosed sid (session_server session) st))
        with (delete (session_server session) (serverSubscriptions st)).
      rewrite He. apply delete_empty.
    + apply IH.
Qed.

(** X19. [stop] forgets the clients and keeps the things: however the
    transports and the listener behave, every subscription set is gone
    afterwards, so later events are buffered but announced to nobody and
    subscribe requests are dropped, while the registered things, their
    properties, actions and events and the event buffer are as before.
    In HTTP mode all sessions are dropped. If the HTTP listener fails to
    close, [stop] rejects with that error and the stdio server is not
    closed; if [stop] resolves, no stdio server and no listener is left. *)
Theorem X19_stop closes listenerClosing stdioClosing r :
  let out := stop closes listenerClosing stdioClosing r in
  let st := server r in
  let st' := server (snd out) in
  serverSubscriptions st' = ∅
  /\ (things st' = things st /\ properties st' = properties st
      /\ actions st' = actions st /\ events st' = events st
      /\ eventBuffer st' = eventBuffer st /\ notifications st' = notifications st)
  /\ (httpServer st = true -> sessions st' = JsMap.empty /\ httpServer st' = false)
  /\ (forall s uri, handleSubscribe s uri st' = st')
  /\ (forall now thingId eventName d,
         sentBy st' (handleWotEvent now thingId eventName d st') = []
         /\ eventBuffer (handleWotEvent now thingId eventName d st')
            = snd (EventBuffer.push now (eventUri thingId eventName) eventName d
                     (eventBuffer st)))
  /\ (fst out = Resolved tt ->
      stdioServer st' = None /\ serverInstance (snd out) = false
      /\ (httpServer st = true ->
          activeServers st' = []
          /\ sentBy st' (notifyResourceListChanged st') = []))
  /\ (forall m, serverInstance r = true -> listenerClosing = Rejected m ->
                fst out = Rejected m /\ stdioServer st' = stdioServer st
                /\ serverInstance (snd out) = true)
  /\ (forall m s, stdioServer st = Some s -> stdioClosing = Rejected m ->
                  (serverInstance r = true -> exists u, listenerClosing = Resolved u) ->
                  fst out = Rejected m /\ stdioServer st' = Some s).
Proof.
  intros out st st'.
  set (st0 := set_serverSubscriptions ∅ st).
  set (st1 := if httpServer st0
              then set_httpServer false
                     (set_sessions JsMap.empty (closeSessions closes st0))
              else st0).
  destruct (close_loop_keeps closes (sessions st0) st0)
    as (Kth & Kpr & Kac & Kev & Kbuf & Kno & Kcfg & Kstdio & Khttp & Ksubs).
  cbv zeta in Kth, Kpr, Kac, Kev, Kbuf, Kno, Kcfg, Kstdio, Khttp, Ksubs.
  fold (closeSessions closes st0) in Kth, Kpr, Kac, Kev, Kbuf, Kno, Kcfg, Kstdio,
    Khttp, Ksubs.
  specialize (Ksubs eq_refl).
  assert (H1 : serverSubscriptions st1 = ∅
               /\ things st1 = things st /\ properties st1 = properties st
               /\ actions st1 = actions st /\ events st1 = events st
               /\ eventBuffer st1 = eventBuffer st /\ notifications st1 = notifications st
               /\ stdioServer st1 = stdioServer st
               /\ (httpServer st = true ->
                   sessions st1 = JsMap.empty /\ httpServer st1 = false)).
  { unfold st1. change (httpServer st0) with (httpServer st).
    destruct (httpServer st);
      cbn [serverSubscriptions things properties actions events eventBuffer notifications
           stdioServer sessions httpServer set_httpServer set_sessions];
      repeat split; try assumption; try reflexivity; discriminate. }
  destruct H1 as (Hsubs & Hth & Hpr & Hac & Hev & Hbuf & Hno & Hstdio & Hhttp).
  assert (Hfinal : forall listening0,
            let o := stopStdio stdioClosing
                       {| server := st1; serverInstance := listening0 |} in
            serverSubscriptions (server (snd o)) = ∅
            /\ things (server (snd o)) = things st
            /\ properties (server (snd o)) = properties st
            /\ actions (server (snd o)) = actions st
            /\ events (server (snd o)) = events st
            /\ eventBuffer (server (snd o)) = eventBuffer st
            /\ notifications (server (snd o)) = notifications st
            /\ sessions (server (snd o)) = sessions st1
            /\ httpServer (server (snd o)) = httpServer st1
            /\ serverInstance (snd o) = listening0
            /\ (fst o = Resolved tt -> stdioServer (server (snd o)) = None)
            /\ (forall m s, stdioServer st = Some s -> stdioClosing = Rejected m ->
                            fst o = Rejected m
                            /\ stdioServer (server (snd o)) = Some s)).
  { intros listening0. cbv zeta. unfold stopStdio. cbn [server serverInstance].
    rewrite Hstdio.
    destruct (stdioServer st) as [s|] eqn:Es.
    - destruct stdioClosing as [u|m]; cbn [fst snd server serverInstance].
      + repeat split; try assumption; congruence.
      + repeat split; try assumption; congruence.
    - cbn [fst snd server serverInstance].
      repeat split; try assumption; congruence. }
  assert (Hquiet : forall st2,
            serverSubscriptions st2 = ∅ -> eventBuffer st2 = eventBuffer st ->
            (forall s uri, handleSubscribe s uri st2 = st2)
            /\ (forall now thingId eventName d,
                   sentBy st2 (handleWotEvent now thingId eventName d st2) = []
                   /\ eventBuffer (handleWotEvent now thingId eventName d st2)
                      = snd (EventBuffer.push now (eventUri thingId eventName) eventName d
                               (eventBuffer st)))).
  { intros st2 He Hb. split.
    - intros s uri. unfold handleSubscribe. rewrite He, lookup_empty. reflexivity.
    - intros now thingId eventName d. split.
      + rewrite sent_by_event, filter_none; [reflexivity|].
        intros s _. unfold notifiable, subscribed. rewrite He, lookup_empty.
        apply andb_false_r.
      + pose proof (handleWotEvent_eq now thingId eventName d st2) as Heq.
        cbv zeta in Heq. rewrite Heq.
        cbn [eventBuffer set_notifications set_eventBuffer]. rewrite Hb. reflexivity. }
  assert (Hout : out = if serverInstance r
                       then match listenerClosing with
                            | Rejected e =>
                                (Rejected e, {| server := st1; serverInstance := true |})
                            | Resolved _ =>
                                stopStdio stdioClosing
                                  {| server := st1; serverInstance := false |}
                            end
                       else stopStdio stdioClosing
                              {| server := st1; serverInstance := false |})
    by reflexivity.
  assert (Hcases :
            (exists m, serverInstance r = true /\ listenerClosing = Rejected m
                       /\ out = (Rejected m, {| server := st1; serverInstance := true |}))
            \/ ((serverInstance r = true -> exists u, listenerClosing = Resolved u)
                /\ out = stopStdio stdioClosing
                           {| server := st1; serverInstance := false |})).
  { rewrite Hout. destruct (serverInstance r); [|right; split; [discriminate|reflexivity]].
    destruct listenerClosing as [u|m]; [right; split; eauto|left; eauto]. }
  clearbody out. unfold st'.
  destruct Hcases as [(m & Hl & Hr & ->)|(Hl & ->)].
  - cbn [fst snd server serverInstance].
    destruct (Hquiet st1 Hsubs Hbuf) as (Hq1 & Hq2).
    split; [exact Hsubs|]. split; [auto 10|]. split; [exact Hhttp|].
    split; [exact Hq1|]. split; [exact Hq2|].
    split; [discriminate|].
    split; [intros m' _ Hm; rewrite Hr in Hm; injection Hm as <-; auto|].
    intros m' s _ _ Hres. destruct (Hres Hl) as [u Hu]. congruence.
  - destruct (Hfinal false)
      as (Fsubs & Fth & Fpr & Fac & Fev & Fbuf & Fno & Fses & Fhttp & Flis & Fres & Frej).
    cbv zeta in Fsubs, Fth, Fpr, Fac, Fev, Fbuf, Fno, Fses, Fhttp, Flis, Fres, Frej.
    set (o := stopStdio stdioClosing {| server := st1; serverInstance := false |}) in *.
    destruct (Hquiet (server (snd o)) Fsubs Fbuf) as (Hq1 & Hq2).
    split; [exact Fsubs|]. split; [auto 10|].
    split; [intros Hh; rewrite Fses, Fhttp; apply Hhttp, Hh|].
    split; [exact Hq1|]. split; [exact Hq2|].
    split.
    { intros Hres. split; [apply Fres, Hres|]. split; [exact Flis|].
      intros Hh. assert (Hact : activeServers (server (snd o)) = []).
      { unfold activeServers. rewrite (Fres Hres), Fses.
        destruct (Hhttp Hh) as [-> _]. reflexivity. }
      split; [exact Hact|].
      rewrite notifyResourceListChanged_eq. unfold sentBy.
      cbn [notifications set_notifications]. rewrite drop_app_length, Hact. reflexivity. }
    split.
    { intros m Hi Hm. destruct (Hl Hi) as [u Hu]. congruence. }
    intros m s Hs Hm _. apply Frej; assumption.
Qed.

End LifecycleFacts.

(** ** Reading an event resource *)

Section EventResourceFacts.

Import Translator McpServer EventBuffer.

Lemma slice_last {A : Type} n (l : list A) :
  1 <= n -> Js.slice (- n) l = drop (length l - Z.to_nat n) l.
Proof.
  intros Hn. unfold Js.slice.
  destruct (Z.ltb_spec (- n) 0) as [_|Hge]; [|lia]. f_equal. lia.
Qed.

Lemma last_drop_lt {A : Type} k (l : list A) :
  (k < length l)%nat -> last (drop k l) = last l.
Proof.
  intros Hk. rewrite <- (take_drop k l) at 2. rewrite last_app.
  destruct (last (drop k l)) eqn:Hl; [reflexivity|].
  apply last_None in Hl. apply (f_equal length) in Hl.
  rewrite length_drop in Hl. cbn in Hl. lia.
Qed.

Lemma count_stored uri eb : count uri eb = length (stored eb uri).
Proof. unfold count, stored. destruct (buffers eb !! uri); reflexivity. Qed.

Lemma get_pruned now uri eb :
  fst (get now uri eb)
  = List.filter (fun e => timestamp e >? now - ttlMs eb) (stored eb uri)
  /\ stored (snd (get now uri eb)) uri = fst (get now uri eb)
  /\ lastUpdated (snd (get now uri eb)) = lastUpdated eb.
Proof.
  unfold get. cbn [fst snd]. rewrite stored_pruneExpired, decide_True by reflexivity.
  repeat split. apply lastUpdated_pruneExpired.
Qed.

Lemma stored_push_last now uri ty d eb :
  1 <= maxEvents eb ->
  exists older, stored (snd (push now uri ty d eb)) uri = older ++ [mkEvent now ty d].
Proof.
  intros Hcap. rewrite stored_push. cbv zeta.
  set (ev := mkEvent now ty d).
  destruct (Z.gtb_spec (Z.of_nat (length (stored eb uri ++ [ev]))) (maxEvents eb))
    as [Hgt|Hle]; [|eauto].
  rewrite length_app in Hgt. cbn [length] in Hgt.
  destruct (stored eb uri) as [|e rest]; [cbn in Hgt; lia|].
  exists rest. reflexivity.
Qed.

Lemma readEventResource_eq now event st :
  let pruned := fst (get now (event_uri event) (eventBuffer st)) in
  readEventResource now event st
  = ((drop (length pruned - 50) pruned, length pruned,
      getLastUpdated (event_uri event) (eventBuffer st)),
     set_eventBuffer (snd (get now (event_uri event) (eventBuffer st))) st).
Proof.
  cbv zeta. unfold readEventResource, getRecent.
  destruct (get_pruned now (event_uri event) (eventBuffer st)) as (_ & Hs & Hl).
  destruct (get now (event_uri event) (eventBuffer st)) as [events eb] eqn:Hget.
  cbn [fst snd] in *. rewrite count_stored, Hs. unfold getLastUpdated. rewrite Hl.
  rewrite (slice_last 50) by lia. reflexivity.
Qed.

(** X20. An event handed to [handleWotEvent] can be read from its
    resource: with a cap of at least one and a positive time to live, a
    read at the same clock reading ends with that event, counts at least
    one entry and gives the event's time as the last update. In general
    a read returns the at most 50 newest entries that have not expired,
    counts all that have not expired, sends no notification, and is
    repeatable. *)
Theorem X20_event_resource st now thingId eventName d event :
  event_uri event = eventUri thingId eventName ->
  1 <= maxEvents (eventBuffer st) ->
  0 < ttlMs (eventBuffer st) ->
  let st1 := handleWotEvent now thingId eventName d st in
  let r := fst (readEventResource now event st1) in
  last (fst (fst r)) = Some (mkEvent now eventName d)
  /\ (1 <= snd (fst r))%nat
  /\ snd r = Some now
  /\ (forall st0 t e,
         let pruned := fst (get t (event_uri e) (eventBuffer st0)) in
         let r0 := readEventResource t e st0 in
         fst (fst (fst r0)) = drop (length pruned - 50) pruned
         /\ (length (fst (fst (fst r0))) <= 50)%nat
         /\ snd (fst (fst r0)) = length pruned
         /\ snd (fst r0) = getLastUpdated (event_uri e) (eventBuffer st0)
         /\ notifications (snd r0) = notifications st0
         /\ fst (readEventResource t e (snd r0)) = fst r0).
Proof.
  intros Huri Hcap Httl st1 r.
  assert (Hbuf : eventBuffer st1
                 = snd (push now (event_uri event) eventName d (eventBuffer st))).
  { unfold st1. pose proof (handleWotEvent_eq now thingId eventName d st) as Heq.
    cbv zeta in Heq. rewrite Heq, Huri. reflexivity. }
  pose proof (readEventResource_eq now event st1) as Hr. cbv zeta in Hr.
  unfold r. rewrite Hr. cbn [fst snd].
  destruct (get_pruned now (event_uri event) (eventBuffer st1)) as (Hp & _).
  destruct (stored_push_last now (event_uri event) eventName d (eventBuffer st) Hcap)
    as [older Holder].
  set (pruned := fst (get now (event_uri event) (eventBuffer st1))) in *.
  rewrite Hbuf, Holder, ttlMs_push in Hp.
  assert (Hkeep : (timestamp (mkEvent now eventName d) >? now - ttlMs (eventBuffer st))
                  = true) by (apply Z.gtb_lt; cbn [timestamp]; lia).
  rewrite List.filter_app in Hp. cbn [List.filter] in Hp. rewrite Hkeep in Hp.
  assert (Hlen : (1 <= length pruned)%nat)
    by (rewrite Hp, length_app; cbn [length]; lia).
  split.
  { rewrite last_drop_lt by lia. rewrite Hp. apply last_snoc. }
  split; [exact Hlen|].
  split.
  { rewrite Hbuf. unfold getLastUpdated, push. cbn [lastUpdated snd timestamp].
    apply lookup_insert_eq. }
  intros st0 t e. cbv zeta.
  pose proof (readEventResource_eq t e st0) as H0. cbv zeta in H0. rewrite H0.
  cbn [fst snd]. split; [reflexivity|]. split; [rewrite length_drop; lia|].
  split; [reflexivity|]. split; [reflexivity|]. split; [reflexivity|].
  pose proof (readEventResource_eq t e
                (set_eventBuffer (snd (get t (event_uri e) (eventBuffer st0))) st0)) as H1.
  cbv zeta in H1. rewrite H1. cbn [fst eventBuffer set_eventBuffer].
  destruct (get_pruned t (event_uri e) (eventBuffer st0)) as (_ & _ & Hl).
  unfold getLastUpdated. rewrite Hl.
  assert (Hget : get t (event_uri e) (snd (get t (event_uri e) (eventBuffer st0)))
                 = get t (event_uri e) (eventBuffer st0)).
  { unfold get. cbn [snd]. rewrite pruneExpired_twice by lia. reflexivity. }
  rewrite Hget. reflexivity.
Qed.

End EventResourceFacts.

(** ** The device list *)

Section DeviceListFacts.

Import Translator McpServer Devices.

Lemma assoc_filter k (keep : string -> bool) members :
  Js.assoc k (List.filter (fun kv => keep (fst kv)) members)
  = if keep k then Js.assoc k members else Js.Undefined.
Proof.
  induction members as [|[k' v] members IH]; cbn [List.filter Js.assoc fst].
  - destruct (keep k); reflexivity.
  - destruct (keep k') eqn:Hk'; cbn [Js.assoc].
    + destruct (String.eqb_spec k k') as [->|Hne]; [rewrite Hk'; reflexivity|exact IH].
    + destruct (String.eqb_spec k k') as [->|Hne]; [rewrite Hk' in IH |- *; exact IH|exact IH].
Qed.

Lemma values_set_fresh {V : Type} k (v : V) m :
  JsMap.get k m = None -> JsMap.values (JsMap.set k v m) = JsMap.values m ++ [v].
Proof.
  intros H. rewrite (jsmap_set_fresh k v m H). unfold JsMap.values.
  rewrite map_app. reflexivity.
Qed.

Lemma values_set_length {V : Type} k (v : V) m :
  is_Some (JsMap.get k m) ->
  length (JsMap.values (JsMap.set k v m)) = length (JsMap.values m)
  /\ In v (JsMap.values (JsMap.set k v m)).
Proof.
  induction m as [|[k' v'] m IH]; cbn [JsMap.get JsMap.set JsMap.values map snd length].
  - intros [? [=]].
  - destruct (String.eqb k k'); cbn [map snd length].
    + intros _. split; [reflexivity|left; reflexivity].
    + intros H. destruct (IH H) as [Hl Hin]. unfold JsMap.values in Hl, Hin.
      rewrite Hl. split; [reflexivity|right; exact Hin].
Qed.

(** X21. [list_devices] answers with one entry per registered thing, in
    the order of first registration, without a device call and without an
    error: a thing registered under a new id is listed last, one
    registered again replaces its entry and the list keeps its length.
    In the schema shown for a property the six protocol-binding members
    ([forms], [op], [href], [contentType], [htv:methodName],
    [subprotocol]) are absent at the top level and every other member is
    as in the Thing Description, nested binding members included. *)
Theorem X21_list_devices st thing :
  let listed st := map deviceEntry (JsMap.values (things st)) in
  list_devices st = (Resolved {| isError := false; text := Json (Js.Arr (listed st)) |}, [])
  /\ length (listed st) = length (things st)
  /\ (JsMap.get (thing_id thing) (things st) = None ->
      listed (snd (registerThing thing st)) = listed st ++ [deviceEntry thing])
  /\ (is_Some (JsMap.get (thing_id thing) (things st)) ->
      length (listed (snd (registerThing thing st))) = length (listed st)
      /\ In (deviceEntry thing) (listed (snd (registerThing thing st))))
  /\ (forall p k,
         let shown := Js.member (propertyEntry p) "schema" in
         (isBindingKey k = true -> Js.member shown k = Js.Undefined)
         /\ (isBindingKey k = false -> forall members,
               prop_schema p = Js.Obj members ->
               Js.member shown k = Js.member (prop_schema p) k))
  /\ (forall p, Js.member (propertyEntry p) "type"
                = if Js.truthy (Js.member (prop_schema p) "type")
                  then Js.member (prop_schema p) "type" else Js.Str "unknown").
Proof.
  intros listed.
  destruct (registerThing_registry thing st) as (Hthings & _). cbv zeta in Hthings.
  split; [reflexivity|]. split.
  { unfold listed, JsMap.values. rewrite !length_map. reflexivity. }
  split.
  { intros Hnew. unfold listed. rewrite Hthings, values_set_fresh by exact Hnew.
    rewrite map_app. reflexivity. }
  split.
  { intros Hold. unfold listed. rewrite Hthings, !length_map.
    destruct (values_set_length (thing_id thing) thing (things st) Hold) as [Hl Hin].
    split; [exact Hl|]. apply in_map, Hin. }
  split.
  { intros p k. cbv zeta.
    change (Js.member (propertyEntry p) "schema") with (removeForms (prop_schema p)).
    split.
    - intros Hk. unfold removeForms.
      destruct (prop_schema p) as [| |b|n|s|items|members]; try reflexivity.
      + cbn [Js.member]. unfold indexed.
        induction items as [|x items IH] using rev_ind; [reflexivity|].
        rewrite imap_app. cbn [imap].
        assert (Happ : forall l l',
                  Js.assoc k l = Js.Undefined ->
                  (forall kv, In kv l -> fst kv <> k) ->
                  Js.assoc k (l ++ l') = Js.assoc k l').
        { intros l l' _ Hl. induction l as [|[k0 v0] l IHl]; [reflexivity|].
          cbn [app Js.assoc]. destruct (String.eqb_spec k k0) as [->|Hne].
          - exfalso. apply (Hl (k0, v0)); [left; reflexivity|reflexivity].
          - apply IHl. intros kv Hkv. apply Hl. right. exact Hkv. }
        rewrite Happ.
        * cbn [Js.assoc]. rewrite Nat.add_0_r.
          destruct (String.eqb_spec k (NilZero.string_of_uint (Nat.to_uint (length items))))
            as [->|Hne]; [|reflexivity].
          exfalso. revert Hk. unfold isBindingKey, bindingKeys. cbn [existsb].
          destruct (Nat.to_uint (length items)) as [|u|u|u|u|u|u|u|u|u|u];
            cbn; try discriminate;
            destruct u; cbn; discriminate.
        * exact IH.
        * intros kv Hkv Hfst. apply (in_map fst) in Hkv. rewrite Hfst in Hkv.
          rewrite fmap_imap in Hkv.
          apply list_elem_of_In, elem_of_lookup_imap in Hkv.
          destruct Hkv as (i & y & Hi & _). cbn [fst compose] in Hi.
          revert Hk. rewrite Hi. unfold isBindingKey, bindingKeys. cbn [existsb].
          destruct (Nat.to_uint i) as [|u|u|u|u|u|u|u|u|u|u];
            cbn; try discriminate;
            destruct u; cbn; discriminate.
      + cbn [Js.member].
        rewrite (assoc_filter k (fun k => negb (isBindingKey k))), Hk. reflexivity.
    - intros Hk members Hm. rewrite Hm. cbn [removeForms Js.member].
      rewrite (assoc_filter k (fun k => negb (isBindingKey k))), Hk. reflexivity. }
  intros p. reflexivity.
Qed.

End DeviceListFacts.

(** ** Adding several things *)

Section AddThingsFacts.

Import Translator McpServer.

Lemma getThing_kept td k (m : JsMap.t TranslatedThing) :
  is_Some (JsMap.get k m) ->
  is_Some (JsMap.get k (JsMap.set (thing_id (translate td)) (translate td) m)).
Proof.
  intros Hk. destruct (String.eqb_spec (thing_id (translate td)) k) as [<-|Hne].
  - rewrite jsmap_get_set_eq. eauto.
  - rewrite jsmap_get_set_ne by exact Hne. exact Hk.
Qed.

(** the bridge's [addThing], once the description is consumed, stores
    the translated thing however it ends *)
Lemma bridge_addThing_stores td subscribeToEvents subscribing b :
  let out := WotMcpBridge.addThing td subscribeToEvents subscribing b in
  WotMcpBridge.translatedThings (snd out)
  = JsMap.set (thing_id (translate td)) (translate td) (WotMcpBridge.translatedThings b)
  /\ (fst out = Resolved (translate td) \/ exists e, fst out = Rejected e).
Proof.
  cbv zeta. unfold WotMcpBridge.addThing.
  destruct (registerThing (translate td) (WotMcpBridge.mcpServer b)) as [[[]|e] st'].
  - destruct (subscribeToEvents && _)%bool; [destruct subscribing as [[]|e]|];
      cbn [fst snd WotMcpBridge.translatedThings]; split; eauto.
  - cbn [fst snd WotMcpBridge.translatedThings]. split; eauto.
Qed.

(** [addThing] either rejects in [consume], with nothing stored, or
    stores the translated thing, however it ends afterwards. *)
Lemma addThing_cases answers tdOrUrl subscribeToEvents subscribing w :
  let out := Wiring.addThing answers tdOrUrl subscribeToEvents subscribing w in
  (forall k, is_Some (Wiring.getThing k w) -> is_Some (Wiring.getThing k (snd out)))
  /\ ((exists e,
          fst (WotClient.consume answers tdOrUrl (Wiring.client w)) = Rejected e
          /\ fst out = Rejected e
          /\ Wiring.bridge (snd out) = Wiring.bridge w)
      \/ (exists td,
             fst (WotClient.consume answers tdOrUrl (Wiring.client w)) = Resolved td
             /\ Wiring.getThing (thing_id (translate td)) (snd out) = Some (translate td)
             /\ (fst out = Resolved (translate td) \/ exists e, fst out = Rejected e))).
Proof.
  cbv zeta.
  destruct (WotClient.consume answers tdOrUrl (Wiring.client w)) as [[td|e] c'] eqn:Hc.
  - assert (Hres : fst (WotClient.consume answers tdOrUrl (Wiring.client w)) = Resolved td)
      by (rewrite Hc; reflexivity).
    rewrite (addThing_consume_resolved _ _ subscribeToEvents subscribing _ _ Hres).
    cbv zeta. rewrite Hc. cbn [fst snd].
    set (sub := WotClient.subscribeAllEvents _ _ _).
    destruct (bridge_addThing_stores td subscribeToEvents sub (Wiring.bridge w))
      as (Hstored & Hout).
    cbv zeta in Hstored, Hout. unfold Wiring.getThing. cbn [Wiring.bridge].
    rewrite Hstored. split.
    + intros k. apply getThing_kept.
    + right. exists td. split; [reflexivity|]. split; [apply jsmap_get_set_eq|exact Hout].
  - assert (Hrej : fst (WotClient.consume answers tdOrUrl (Wiring.client w)) = Rejected e)
      by (rewrite Hc; reflexivity).
    destruct (addThing_consume_rejected _ _ subscribeToEvents subscribing _ _ Hrej)
      as (Hout & Hbridge & _).
    cbv zeta in Hout, Hbridge. split.
    + intros k. unfold Wiring.getThing. rewrite Hbridge. auto.
    + left. exists e. cbn [fst]. auto.
Qed.

Lemma addThings_resolved attempts w rs :
  fst (Wiring.addThings attempts w) = Resolved rs ->
  length rs = length attempts
  /\ snd (Wiring.addThings attempts w) = fold_left Wiring.addThingSafe attempts w.
Proof.
  revert w rs. induction attempts as [|a attempts IH]; intros w rs.
  - cbn. intros [= <-]. auto.
  - cbn [Wiring.addThings fold_left]. unfold Wiring.addThingSafe at 2.
    destruct (Wiring.addThing (Wiring.answers a) (Wiring.tdOrUrl a) true
                (Wiring.subscribing a) w) as [[translated|e] w1];
      cbn [fst snd] in *; [|discriminate].
    specialize (IH w1).
    destruct (Wiring.addThings attempts w1) as [[results|e] w2]; cbn [fst snd] in *;
      [|discriminate].
    intros [= <-]. destruct (IH results eq_refl) as [Hlen ->].
    cbn [length]. rewrite Hlen. auto.
Qed.

Lemma addAllConfigured_keeps entries w k :
  is_Some (Wiring.getThing k w) ->
  is_Some (Wiring.getThing k (Wiring.addAllConfigured entries w)).
Proof.
  unfold Wiring.addAllConfigured. revert w.
  induction entries as [|entry entries IH]; intros w Hk; [exact Hk|].
  cbn [fold_left]. apply IH. unfold Wiring.addConfigured.
  destruct (Wiring.attemptOf entry) as [a|]; [|exact Hk].
  unfold Wiring.addThingSafe.
  destruct (addThing_cases (Wiring.answers a) (Wiring.tdOrUrl a) true
              (Wiring.subscribing a) w) as (Hkeep & _).
  apply Hkeep, Hk.
Qed.

(** X22. [addThings] ends at the first rejection: it resolves only if
    every [addThing] does, to as many translated things as it was given
    entries; if it rejects, the entries before the failing one were
    added and the ones after it were never looked at. The failing one
    was rejected either by [consume], and then nothing of it is stored,
    or later, by [registerThing] or by the event subscription, and then
    the translated thing is stored all the same. The loop of [main],
    which catches each rejection, goes through the whole list: an entry
    it skips changes nothing, and every entry whose description comes to
    be consumed ends up stored. *)
Theorem X22_addThings attempts entries w :
  (forall rs,
      fst (Wiring.addThings attempts w) = Resolved rs ->
      length rs = length attempts
      /\ snd (Wiring.addThings attempts w) = fold_left Wiring.addThingSafe attempts w)
  /\ (forall e,
         fst (Wiring.addThings attempts w) = Rejected e ->
         exists done a rest translated,
           attempts = done ++ a :: rest
           /\ Wiring.addThings done w
              = (Resolved translated, fold_left Wiring.addThingSafe done w)
           /\ let w0 := fold_left Wiring.addThingSafe done w in
              Wiring.addThing (Wiring.answers a) (Wiring.tdOrUrl a) true
                (Wiring.subscribing a) w0
              = (Rejected e, snd (Wiring.addThings attempts w))
              /\ ((fst (WotClient.consume (Wiring.answers a) (Wiring.tdOrUrl a)
                          (Wiring.client w0)) = Rejected e
                   /\ Wiring.bridge (snd (Wiring.addThings attempts w))
                      = Wiring.bridge w0)
                  \/ (exists td,
                         fst (WotClient.consume (Wiring.answers a) (Wiring.tdOrUrl a)
                                (Wiring.client w0)) = Resolved td
                         /\ Wiring.getThing (thing_id (translate td))
                              (snd (Wiring.addThings attempts w))
                            = Some (translate td))))
  /\ (forall done entry rest,
         entries = done ++ entry :: rest ->
         let w0 := Wiring.addAllConfigured done w in
         (Wiring.attemptOf entry = None -> Wiring.addConfigured w0 entry = w0)
         /\ (forall a td,
                Wiring.attemptOf entry = Some a ->
                fst (WotClient.consume (Wiring.answers a) (Wiring.tdOrUrl a)
                       (Wiring.client w0)) = Resolved td ->
                is_Some (Wiring.getThing (thing_id (translate td))
                           (Wiring.addAllConfigured entries w)))
         /\ (forall a e,
                Wiring.attemptOf entry = Some a ->
                fst (WotClient.consume (Wiring.answers a) (Wiring.tdOrUrl a)
                       (Wiring.client w0)) = Rejected e ->
                Wiring.bridge (Wiring.addConfigured w0 entry) = Wiring.bridge w0)).
Proof.
  split; [intros rs; apply addThings_resolved|]. split.
  - revert w. induction attempts as [|a attempts IH]; intros w e.
    + cbn. discriminate.
    + cbn [Wiring.addThings].
      destruct (addThing_cases (Wiring.answers a) (Wiring.tdOrUrl a) true
                  (Wiring.subscribing a) w) as (_ & Hcase).
      cbv zeta in Hcase.
      destruct (Wiring.addThing (Wiring.answers a) (Wiring.tdOrUrl a) true
                  (Wiring.subscribing a) w) as [[translated|e0] w1] eqn:Hadd;
        cbn [fst snd] in *.
      * specialize (IH w1 e).
        destruct (Wiring.addThings attempts w1) as [[results|e1] w2] eqn:Hrest;
          cbn [fst snd] in *; [discriminate|].
        intros [= ->].
        destruct (IH eq_refl) as (done & a' & rest & tr & -> & Hdone & Hfail).
        exists (a :: done), a', rest, (translated :: tr).
        cbn [app Wiring.addThings fold_left].
        assert (Hsafe : Wiring.addThingSafe w a = w1)
          by (unfold Wiring.addThingSafe; rewrite Hadd; reflexivity).
        rewrite Hsafe, Hadd, Hdone. split; [reflexivity|]. split; [reflexivity|].
        exact Hfail.
      * intros [= ->].
        exists [], a, attempts, []. cbn [app Wiring.addThings fold_left].
        split; [reflexivity|]. split; [reflexivity|]. cbv zeta.
        split; [exact Hadd|].
        destruct Hcase as [(e' & Hc & [= <-] & Hb)|(td & Hc & Hget & _)].
        -- left. auto.
        -- right. eauto.
  - intros done entry rest -> w0.
    assert (Hall : Wiring.addAllConfigured (done ++ entry :: rest) w
                   = Wiring.addAllConfigured rest (Wiring.addConfigured w0 entry)).
    { unfold Wiring.addAllConfigured. rewrite fold_left_app. reflexivity. }
    split; [|split].
    + intros Hnone. unfold Wiring.addConfigured. rewrite Hnone. reflexivity.
    + intros a td Ha Hc. rewrite Hall. apply addAllConfigured_keeps.
      unfold Wiring.addConfigured. rewrite Ha. unfold Wiring.addThingSafe.
      destruct (addThing_cases (Wiring.answers a) (Wiring.tdOrUrl a) true
                  (Wiring.subscribing a) w0) as (_ & Hcase).
      cbv zeta in Hcase.
      destruct Hcase as [(e' & Hc' & _)|(td' & Hc' & Hget & _)]; [congruence|].
      assert (td' = td) by congruence. subst td'. rewrite Hget. eauto.
    + intros a e Ha Hc. unfold Wiring.addConfigured. rewrite Ha.
      unfold Wiring.addThingSafe.
      destruct (addThing_consume_rejected _ _ true (Wiring.subscribing a) _ _ Hc)
        as (_ & Hb & _).
      exact Hb.
Qed.

End AddThingsFacts.

(** ** Sessions opened before and after the things are registered *)

Section FleetFacts.

Import Translator McpServer Fleet.














End FleetFacts.

(** ** The client's event subscriptions *)

Section ClientEventFacts.

Import Translator McpServer ClientEvents.

Lemma lookup2_set t e t' inner m :
  lookup2 t' e (JsMap.set t inner m)
  = if String.eqb t t' then JsMap.get e inner else lookup2 t' e m.
Proof.
  unfold lookup2. destruct (String.eqb_spec t t') as [->|Hne].
  - rewrite jsmap_get_set_eq. reflexivity.
  - rewrite jsmap_get_set_ne by exact Hne. reflexivity.
Qed.

Lemma stopped_In sub l s :
  In s (stopped sub l) <-> In s l /\ live_id s <> sub.
Proof.
  unfold stopped. rewrite List.filter_In, negb_true_iff, Nat.eqb_neq. reflexivity.
Qed.

Lemma tracked_fewer c l :
  tracked c -> (forall s, In s l -> In s (live c)) -> tracked (with_live l c).
Proof. intros Hc Hl s Hs. apply Hc, Hl, Hs. Qed.

(** the step [if (!this.eventSubscriptions.has(thingId)) ..set(thingId, new Map())] *)
Lemma ensured thingId c :
  let c' := if JsMap.has thingId (eventSubscriptions c) then c
            else with_subscriptions
                   (JsMap.set thingId JsMap.empty (eventSubscriptions c)) c in
  live c' = live c /\ client c' = client c /\ nextSubscription c' = nextSubscription c
  /\ (forall t e, lookup2 t e (eventSubscriptions c') = lookup2 t e (eventSubscriptions c)).
Proof.
  cbv zeta. unfold JsMap.has.
  destruct (JsMap.get thingId (eventSubscriptions c)) as [inner|] eqn:Hget;
    [repeat split|].
  cbn [live client nextSubscription eventSubscriptions with_subscriptions].
  repeat split. intros t e. rewrite lookup2_set.
  destruct (String.eqb_spec thingId t) as [<-|Hne]; [|reflexivity].
  unfold lookup2. rewrite Hget. reflexivity.
Qed.

Lemma subscribeEvent_tracked thingId eventName stopping subscribing c :
  tracked c ->
  let out := subscribeEvent thingId eventName stopping subscribing c in
  tracked (snd out)
  /\ (fst out = Resolved tt ->
      In (mkLive thingId eventName (nextSubscription c)) (live (snd out))
      /\ forall s, In s (live (snd out)) ->
                   live_thing s = thingId -> live_event s = eventName ->
                   live_id s = nextSubscription c).
Proof.
  intros Hc. cbv zeta. unfold subscribeEvent.
  destruct (JsMap.get thingId (WotClient.consumedThings (client c))) as [td|];
    [|split; [exact Hc|discriminate]].
  destruct (ensured thingId c) as (Hlive & _ & Hnext & Hlook). cbv zeta in Hlive, Hnext, Hlook.
  set (c1 := if JsMap.has thingId (eventSubscriptions c) then c else _) in *.
  assert (Hc1 : tracked c1).
  { intros s Hs. rewrite Hlook. apply Hc. rewrite <- Hlive. exact Hs. }
  set (thingSubs := default JsMap.empty (JsMap.get thingId (eventSubscriptions c1))).
  assert (Hinner : forall e, JsMap.get e thingSubs = lookup2 thingId e (eventSubscriptions c1)).
  { intros e. unfold thingSubs, lookup2.
    destruct (JsMap.get thingId (eventSubscriptions c1)); reflexivity. }
  (* the state after the old subscription, if any, was stopped *)
  assert (Hafter : forall c2,
            tracked c2 -> eventSubscriptions c2 = eventSubscriptions c1 ->
            nextSubscription c2 = nextSubscription c ->
            (forall s, In s (live c2) ->
                       ~ (live_thing s = thingId /\ live_event s = eventName)) ->
            let out := match subscribing with
                       | Rejected e => (Rejected e, c2)
                       | Resolved _ =>
                           (Resolved tt,
                            {| client := client c2;
                               eventSubscriptions :=
                                 JsMap.set thingId
                                   (JsMap.set eventName (nextSubscription c2) thingSubs)
                                   (eventSubscriptions c2);
                               live := live c2
                                       ++ [mkLive thingId eventName (nextSubscription c2)];
                               nextSubscription := S (nextSubscription c2) |})
                       end in
            tracked (snd out)
            /\ (fst out = Resolved tt ->
                In (mkLive thingId eventName (nextSubscription c)) (live (snd out))
                /\ forall s, In s (live (snd out)) ->
                             live_thing s = thingId -> live_event s = eventName ->
                             live_id s = nextSubscription c)).
  { intros c2 Hc2 Hsubs Hn Hnone. cbv zeta.
    destruct subscribing as [u|e]; cbn [fst snd]; [|split; [exact Hc2|discriminate]].
    rewrite Hn. split.
    - intros s Hs. cbn [live eventSubscriptions] in *.
      rewrite lookup2_set. apply in_app_or in Hs. destruct Hs as [Hs|[<-|[]]].
      + destruct (String.eqb_spec thingId (live_thing s)) as [Ht|Ht].
        * destruct (String.eqb_spec eventName (live_event s)) as [He|He].
          -- exfalso. apply (Hnone s Hs). auto.
          -- rewrite jsmap_get_set_ne by exact He. rewrite Hinner, <- Hsubs, Ht.
             apply Hc2, Hs.
        * apply Hc2, Hs.
      + cbn [live_thing live_event live_id]. rewrite String.eqb_refl.
        apply jsmap_get_set_eq.
    - intros _. cbn [live]. split; [apply in_or_app; right; left; reflexivity|].
      intros s Hs Ht He. apply in_app_or in Hs. destruct Hs as [Hs|[<-|[]]].
      + exfalso. apply (Hnone s Hs). auto.
      + reflexivity. }
  destruct (JsMap.get eventName thingSubs) as [old|] eqn:Hold.
  - destruct stopping as [u|e]; [|split; [exact Hc1|discriminate]].
    apply Hafter.
    + apply tracked_fewer; [exact Hc1|]. intros s Hs. apply stopped_In in Hs. apply Hs.
    + reflexivity.
    + exact Hnext.
    + intros s Hs [Ht He]. cbn [live with_live] in Hs. apply stopped_In in Hs.
      destruct Hs as [Hs Hid]. specialize (Hc1 s Hs).
      rewrite Ht, He, <- Hinner, Hold in Hc1. congruence.
  - apply Hafter; [exact Hc1|reflexivity|exact Hnext|].
    intros s Hs [Ht He]. specialize (Hc1 s Hs).
    rewrite Ht, He, <- Hinner, Hold in Hc1. discriminate.
Qed.

Lemma unsubscribeEvent_tracked thingId eventName stopping c :
  tracked c ->
  let out := unsubscribeEvent thingId eventName stopping c in
  tracked (snd out)
  /\ (fst out = Resolved tt ->
      forall s, In s (live (snd out)) ->
                ~ (live_thing s = thingId /\ live_event s = eventName)).
Proof.
  intros Hc. cbv zeta. unfold unsubscribeEvent.
  assert (Hnone : lookup2 thingId eventName (eventSubscriptions c) = None ->
                  forall s, In s (live c) ->
                            ~ (live_thing s = thingId /\ live_event s = eventName)).
  { intros Hl s Hs [Ht He]. specialize (Hc s Hs). rewrite Ht, He, Hl in Hc.
    discriminate. }
  unfold lookup2 in Hnone.
  destruct (JsMap.get thingId (eventSubscriptions c)) as [thingSubs|] eqn:Hthing;
    [|split; [exact Hc|intros _; apply Hnone; reflexivity]].
  destruct (JsMap.get eventName thingSubs) as [sub|] eqn:Hsub;
    [|split; [exact Hc|intros _; apply Hnone; reflexivity]].
  destruct stopping as [u|e]; [|split; [exact Hc|discriminate]].
  cbn [fst snd live eventSubscriptions]. split.
  - intros s Hs. cbn [live eventSubscriptions] in *. apply stopped_In in Hs.
    destruct Hs as [Hs Hid]. specialize (Hc s Hs). rewrite lookup2_set.
    destruct (String.eqb_spec thingId (live_thing s)) as [Ht|Ht]; [|exact Hc].
    unfold lookup2 in Hc. rewrite <- Ht, Hthing in Hc.
    destruct (String.eqb_spec eventName (live_event s)) as [He|He].
    + rewrite <- He, Hsub in Hc. congruence.
    + rewrite jsmap_get_delete_ne by exact He. exact Hc.
  - intros _ s Hs [Ht He]. apply stopped_In in Hs. destruct Hs as [Hs Hid].
    specialize (Hc s Hs). unfold lookup2 in Hc. rewrite Ht, He, Hthing, Hsub in Hc.
    congruence.
Qed.

Lemma subscribeEach_tracked thingId names oracle c :
  tracked c -> tracked (snd (subscribeEach thingId names oracle c)).
Proof.
  revert c. induction names as [|name rest IH]; intros c Hc; [exact Hc|].
  cbn [subscribeEach].
  destruct (subscribeEvent_tracked thingId name (fst (oracle name)) (snd (oracle name))
              c Hc) as [Hnext _].
  cbv zeta in Hnext.
  destruct (subscribeEvent thingId name (fst (oracle name)) (snd (oracle name)) c)
    as [[u|e] c1]; cbn [snd] in *; [apply IH, Hnext|exact Hnext].
Qed.

Lemma recorded_In t e m sub : lookup2 t e m = Some sub -> In sub (recorded m).
Proof.
  unfold lookup2, recorded.
  destruct (JsMap.get t m) as [inner|] eqn:Hinner; [|discriminate].
  intros Hsub. apply in_concat. exists (JsMap.values inner).
  split; [|apply (jsmap_get_values e), Hsub].
  apply jsmap_get_values in Hinner. unfold JsMap.values in Hinner.
  apply in_map_iff in Hinner. destruct Hinner as ([k v] & <- & Hin).
  apply in_map_iff. exists (k, v). auto.
Qed.

Lemma stopAll_live stopping subs l :
  (forall s, In s (snd (stopAll stopping subs l)) -> In s l)
  /\ (forall u, fst (stopAll stopping subs l) = Resolved u ->
                forall s, In s (snd (stopAll stopping subs l)) -> ~ In (live_id s) subs).
Proof.
  revert l. induction subs as [|sub rest IH]; intros l; cbn [stopAll].
  - split; [auto|]. intros _ _ s _ [].
  - destruct (stopping sub) as [u|e]; [|split; [auto|discriminate]].
    destruct (IH (stopped sub l)) as [Hsub Hgone]. split.
    + intros s Hs. apply Hsub, stopped_In in Hs. apply Hs.
    + intros u' Hu s Hs [Heq|Hin].
      * apply Hsub, stopped_In in Hs. destruct Hs as [_ Hid]. congruence.
      * exact (Hgone u' Hu s Hs Hin).
Qed.

(** X24. The client keeps track of every subscription it has made on a
    device: in every state, a subscription the device is serving is the
    one recorded for its thing and event, so there is at most one per
    thing and event. [subscribeEvent] stops the recorded subscription
    before it makes a new one, [unsubscribeEvent] leaves none for that
    event, [subscribeAllEvents] keeps the record, and a [stop] that
    resolves leaves no subscription with the device, no consumed thing
    and an uninitialized client. *)
Theorem X24_client_subscriptions c :
  tracked c ->
  (forall s s', In s (live c) -> In s' (live c) ->
                live_thing s = live_thing s' -> live_event s = live_event s' ->
                live_id s = live_id s')
  /\ (forall thingId eventName stopping subscribing,
         let out := subscribeEvent thingId eventName stopping subscribing c in
         tracked (snd out)
         /\ (fst out = Resolved tt ->
             In (mkLive thingId eventName (nextSubscription c)) (live (snd out))
             /\ forall s, In s (live (snd out)) ->
                          live_thing s = thingId -> live_event s = eventName ->
                          live_id s = nextSubscription c))
  /\ (forall thingId eventName stopping,
         let out := unsubscribeEvent thingId eventName stopping c in
         tracked (snd out)
         /\ (fst out = Resolved tt ->
             forall s, In s (live (snd out)) ->
                       ~ (live_thing s = thingId /\ live_event s = eventName)))
  /\ (forall thingId oracle,
         tracked (snd (subscribeAllEvents thingId oracle c))
         /\ fst (subscribeAllEvents thingId oracle c)
            = WotClient.subscribeAllEvents (client c) thingId
                match WotClient.getThing thingId (client c) with
                | Some td =>
                    fst (subscribeEach thingId (map fst (default [] (td_events td)))
                           oracle c)
                | None => Resolved tt
                end)
  /\ (forall stopping shutdown,
         let out := stop stopping shutdown c in
         tracked (snd out)
         /\ (forall s, In s (live (snd out)) -> In s (live c))
         /\ (fst out = Resolved tt ->
             live (snd out) = []
             /\ eventSubscriptions (snd out) = JsMap.empty
             /\ WotClient.consumedThings (client (snd out)) = JsMap.empty
             /\ WotClient.initialized (client (snd out)) = false
             /\ forall thingId name device,
                  WotClient.readProperty (client (snd out)) thingId name device
                  = Rejected ("Thing not found: " +:+ thingId))).
Proof.
  intros Hc. split.
  { intros s s' Hs Hs' Ht He. pose proof (Hc s Hs) as H1. pose proof (Hc s' Hs') as H2.
    rewrite Ht, He, H2 in H1. congruence. }
  split; [intros; apply subscribeEvent_tracked, Hc|].
  split; [intros; apply unsubscribeEvent_tracked, Hc|].
  split.
  { intros thingId oracle.
    unfold subscribeAllEvents, WotClient.subscribeAllEvents, WotClient.getThing.
    destruct (JsMap.get thingId (WotClient.consumedThings (client c))) as [td|];
      [|split; [exact Hc|reflexivity]].
    destruct (td_events td) as [[|event events]|];
      [split; [exact Hc|reflexivity]| |split; [exact Hc|reflexivity]].
    split; [apply subscribeEach_tracked, Hc|reflexivity]. }
  intros stopping shutdown. cbv zeta. unfold stop.
  destruct (stopAll_live stopping (recorded (eventSubscriptions c)) (live c))
    as [Hsub Hgone].
  destruct (stopAll stopping (recorded (eventSubscriptions c)) (live c))
    as [[u|e] l]; cbn [fst snd] in *.
  - assert (Hl : l = []).
    { destruct l as [|s l']; [reflexivity|]. exfalso.
      apply (Hgone u eq_refl s (or_introl eq_refl)).
      apply (recorded_In (live_thing s) (live_event s)), Hc, Hsub. left. reflexivity. }
    subst l.
    destruct shutdown as [u'|e']; cbn [fst snd live eventSubscriptions client];
      (split; [intros s []|]); (split; [intros s []|]);
      [|discriminate].
    intros _. repeat split.
  - split; [apply tracked_fewer; [exact Hc|exact Hsub]|].
    split; [exact Hsub|discriminate].
Qed.

End ClientEventFacts.

(** ** From the device to the resource, and the two strategies *)

Section EndToEndFacts.

Import Translator McpServer EventBuffer.

Lemma initialize_keeps uri eb :
  maxEvents (initialize uri eb) = maxEvents eb /\ ttlMs (initialize uri eb) = ttlMs eb
  /\ lastUpdated (initialize uri eb) = lastUpdated eb.
Proof. unfold initialize. destruct (buffers eb !! uri); repeat split. Qed.

Lemma fold_initialize_keeps (evs : list TranslatedEvent) eb :
  let eb' := fold_left (fun eb event => initialize (event_uri event) eb) evs eb in
  maxEvents eb' = maxEvents eb /\ ttlMs eb' = ttlMs eb /\ lastUpdated eb' = lastUpdated eb.
Proof.
  cbv zeta. revert eb. induction evs as [|e evs IH]; intros eb; [auto|].
  cbn [fold_left]. destruct (IH (initialize (event_uri e) eb)) as (-> & -> & ->).
  apply initialize_keeps.
Qed.

Lemma get_fresh now uri eb :
  stored eb uri = [] -> fst (get now uri eb) = [].
Proof.
  intros H. destruct (get_pruned now uri eb) as (-> & _). rewrite H. reflexivity.
Qed.

(** X25. The resource of an event follows the device: for an event of a
    translated thing about which the buffer knew nothing, the resource
    reads as empty (no entries, count 0, no last update) once the thing is
    registered, and after the device has delivered the event once, under
    the thing's id and the event's name in the Thing Description, it
    reads as that one entry, count 1, with the time of delivery as last
    update. The URI the delivery is filed under is the URI of the
    registered resource. *)
Theorem X25_event_lifecycle td e st now d :
  In e (thing_events (translate td)) ->
  buffers (eventBuffer st) !! event_uri e = None ->
  getLastUpdated (event_uri e) (eventBuffer st) = None ->
  1 <= maxEvents (eventBuffer st) -> 0 < ttlMs (eventBuffer st) ->
  let thing := translate td in
  let st1 := snd (registerThing thing st) in
  let st2 := handleWotEvent now (thing_id thing) (event_wotName e) d st1 in
  eventUri (thing_id thing) (event_wotName e) = event_uri e
  /\ buffers (eventBuffer st1) !! event_uri e = Some []
  /\ fst (readEventResource now e st1) = ([], 0%nat, None)
  /\ fst (readEventResource now e st2)
     = ([mkEvent now (event_wotName e) d], 1%nat, Some now).
Proof.
  intros Hin Hnone Hlast Hcap Httl thing st1 st2.
  assert (Huri : eventUri (thing_id thing) (event_wotName e) = event_uri e).
  { cbn [translate thing_events] in Hin.
    destruct (translateEvents_In _ _ _ Hin) as (? & ? & _ & _ & ->). reflexivity. }
  destruct (registerThing_registry thing st) as (_ & _ & _ & _ & Hbuf & _).
  cbv zeta in Hbuf. fold st1 in Hbuf.
  destruct (fold_initialize (thing_events thing) (eventBuffer st)) as [Hstored Hsome].
  destruct (fold_initialize_keeps (thing_events thing) (eventBuffer st))
    as (Hmax & Httl' & Hupd).
  cbv zeta in Hstored, Hsome, Hmax, Httl', Hupd.
  rewrite <- Hbuf in Hstored, Hsome, Hmax, Httl', Hupd.
  assert (Hempty : stored (eventBuffer st1) (event_uri e) = []).
  { rewrite Hstored. unfold stored. rewrite Hnone. reflexivity. }
  assert (Hbuffer : buffers (eventBuffer st1) !! event_uri e = Some []).
  { destruct (proj2 (Hsome (event_uri e))) as [b Hb]; [left; eauto|].
    unfold stored in Hempty. rewrite Hb in Hempty |- *. cbn in Hempty. congruence. }
  split; [exact Huri|]. split; [exact Hbuffer|].
  split.
  { pose proof (readEventResource_eq now e st1) as Hr. cbv zeta in Hr. rewrite Hr.
    cbn [fst]. rewrite (get_fresh now _ _ Hempty). cbn [length drop].
    unfold getLastUpdated in *. rewrite Hupd, Hlast. reflexivity. }
  pose proof (readEventResource_eq now e st2) as Hr. cbv zeta in Hr. rewrite Hr.
  cbn [fst].
  assert (Hbuf2 : eventBuffer st2
                  = snd (push now (event_uri e) (event_wotName e) d (eventBuffer st1))).
  { unfold st2. pose proof (handleWotEvent_eq now (thing_id thing) (event_wotName e) d st1)
      as Heq. cbv zeta in Heq. rewrite Heq, Huri. reflexivity. }
  destruct (get_pruned now (event_uri e) (eventBuffer st2)) as (Hp & _).
  rewrite Hp, Hbuf2, stored_push, ttlMs_push, Hempty. cbv zeta. cbn [app length].
  destruct (Z.gtb_spec (Z.of_nat 1) (maxEvents (eventBuffer st1))) as [Hgt|_];
    [rewrite Hmax in Hgt; lia|].
  cbn [List.filter timestamp].
  destruct (Z.gtb_spec now (now - ttlMs (eventBuffer st1))) as [_|Hle];
    [|rewrite Httl' in Hle; lia].
  cbn [length drop Nat.sub]. unfold getLastUpdated, push. cbn [lastUpdated snd timestamp].
  rewrite lookup_insert_eq. reflexivity.
Qed.

Lemma find_by_key {X : Type} (key : X -> string) (l : list X) x :
  NoDup (map key l) -> In x l ->
  List.find (fun y => String.eqb (key y) (key x)) l = Some x.
Proof.
  induction l as [|y l IH]; intros Hnd Hin; [destruct Hin|].
  cbn [map] in Hnd. apply NoDup_cons in Hnd. destruct Hnd as [Hy Hnd].
  cbn [List.find]. destruct Hin as [->|Hin]; [rewrite String.eqb_refl; reflexivity|].
  destruct (String.eqb_spec (key y) (key x)) as [Heq|_]; [|apply IH; assumption].
  exfalso. apply Hy. rewrite Heq. apply list_elem_of_In, in_map, Hin.
Qed.

Lemma translated_names td :
  map prop_wotName (thing_properties (translate td))
  = map fst (default [] (td_properties td))
  /\ map action_wotName (thing_actions (translate td))
     = map fst (default [] (td_actions td)).
Proof.
  cbn [translate thing_properties thing_actions].
  unfold translateProperties, translateActions. split.
  - destruct (td_properties td) as [entries|]; [|reflexivity].
    cbn [default]. rewrite map_map. apply map_ext. intros [name prop]. reflexivity.
  - destruct (td_actions td) as [entries|]; [|reflexivity].
    cbn [default]. rewrite map_map. apply map_ext. intros [name action].
    destruct (buildActionInputSchema (Js.member action "input")). reflexivity.
Qed.

(** X26. The two tool strategies reach the same code for the same
    affordance. Once a translated thing is registered, the generic
    [read_property] called with the thing's id and a property's name runs
    that property's getter, [write_property] on a writable property runs
    its setter on [{value}], and [invoke_action] runs the action's
    handler on the parameters: each is the explicit tool's handler with
    rejections turned into error results. The names of a Thing
    Description's properties and actions are the keys of an object, so
    they are distinct. *)
Theorem X26_strategies_agree td st :
  NoDup (map fst (default [] (td_properties td))) ->
  NoDup (map fst (default [] (td_actions td))) ->
  let thing := translate td in
  let st' := snd (registerThing thing st) in
  (forall p v,
      In p (thing_properties thing) ->
      read_property st' (mkPropertyArgs (thing_id thing) (prop_wotName p) v)
      = catch (invokePropertyGetter st' p) errorResult
      /\ callExplicitTool st' (GetterHandler p) (Js.Obj [])
         = Some (invokePropertyGetter st' p)
      /\ (prop_writable p = true ->
          write_property st' (mkPropertyArgs (thing_id thing) (prop_wotName p) v)
          = catch (invokePropertySetter st' p (Js.Obj [("value", v)])) errorResult))
  /\ (forall a args,
         In a (thing_actions thing) ->
         invoke_action st' (mkActionArgs (thing_id thing) (action_wotName a) args)
         = catch (invokeActionTool st' a args) errorResult
         /\ callExplicitTool st' (ActionHandler a) args
            = Some (invokeActionTool st' a args)).
Proof.
  intros Hprops Hacts thing st'.
  destruct (translated_names td) as [Hpn Han]. fold thing in Hpn, Han.
  destruct (registerThing_registry thing st) as (Hthings & _). cbv zeta in Hthings.
  fold st' in Hthings.
  assert (Hthing : JsMap.get (thing_id thing) (things st') = Some thing)
    by (rewrite Hthings; apply jsmap_get_set_eq).
  split.
  - intros p v Hin.
    assert (Hfind : findProperty thing (prop_wotName p) = Some p).
    { unfold findProperty. apply find_by_key; [rewrite Hpn; exact Hprops|exact Hin]. }
    unfold read_property, write_property. cbn [device_id property_name value].
    rewrite Hthing, Hfind. split; [reflexivity|]. split; [reflexivity|].
    intros ->. reflexivity.
  - intros a args Hin.
    assert (Hfind : findAction thing (action_wotName a) = Some a).
    { unfold findAction. apply find_by_key; [rewrite Han; exact Hacts|exact Hin]. }
    unfold invoke_action. cbn [action_device_id action_name_arg params].
    rewrite Hthing, Hfind. split; reflexivity.
Qed.

End EndToEndFacts.

(** ** The further properties at work *)

Section FurtherScenarioFacts.

Import Translator McpServer Scenario.

(** X1 at work: nothing was ever pushed for the overheat event. *)
Lemma X1_unknown_resource_witness :
  EventBuffer.get 10 overheat (EventBuffer.new EventBuffer.no_options)
  = ([], EventBuffer.new EventBuffer.no_options)
  /\ EventBuffer.count overheat (EventBuffer.new EventBuffer.no_options) = 0%nat.
Proof.
  destruct (X1_unknown_resource (EventBuffer.new EventBuffer.no_options) overheat 10)
    as (Hget & _ & _ & Hcount & _).
  - reflexivity.
  - split; [exact Hget|exact Hcount].
Defined.

(** X2 at work: the default cap of 100. *)
Lemma X2_push_newest_witness :
  last (EventBuffer.stored
          (snd (EventBuffer.push 5 overheat "overheat" (Js.Num 90)
                  (EventBuffer.new EventBuffer.no_options))) overheat)
  = Some (EventBuffer.mkEvent 5 "overheat" (Js.Num 90)).
Proof.
  destruct (X2_push_newest (EventBuffer.new EventBuffer.no_options) overheat 5
              "overheat" (Js.Num 90)) as (_ & Hlast & _).
  - cbn. lia.
  - exact Hlast.
Defined.

(** X3 at work: a buffer made with a cap of zero. *)
Lemma X3_zero_cap_witness :
  EventBuffer.stored
    (EventBuffer.after
       {| EventBuffer.maxEventsPerUri := Some 0; EventBuffer.eventTtlMs := None |}
       [EventBuffer.CallPush 1 overheat "overheat" (Js.Num 90)]) overheat
  = [].
Proof.
  destruct (X3_zero_cap
              {| EventBuffer.maxEventsPerUri := Some 0; EventBuffer.eventTtlMs := None |}
              [EventBuffer.CallPush 1 overheat "overheat" (Js.Num 90)]
              overheat 2 "overheat" (Js.Num 91)) as (Hstored & _).
  - reflexivity.
  - exact Hstored.
Defined.

(** X4 at work: pushed at 0, read an hour later. *)
Lemma X4_lastUpdated_outlives_witness :
  let eb1 := snd (EventBuffer.push 0 overheat "overheat" (Js.Num 90)
                    (EventBuffer.new EventBuffer.no_options)) in
  fst (EventBuffer.get 3600000 overheat eb1) = []
  /\ EventBuffer.getLastUpdated overheat (snd (EventBuffer.get 3600000 overheat eb1))
     = Some 0.
Proof.
  destruct (X4_lastUpdated_outlives (EventBuffer.new EventBuffer.no_options) overheat 0
              "overheat" (Js.Num 90) 3600000) as (Hget & _ & Hlast & _).
  - cbn. lia.
  - intros e [].
  - split; [exact Hget|exact Hlast].
Defined.

(** X6 at work: a read at 10 does not change a read at 20. *)
Lemma X6_get_twice_witness :
  let eb := snd (EventBuffer.push 0 overheat "overheat" (Js.Num 90)
                   (EventBuffer.new EventBuffer.no_options)) in
  EventBuffer.get 20 overheat (snd (EventBuffer.get 10 overheat eb))
  = EventBuffer.get 20 overheat eb.
Proof.
  intros eb. destruct (X6_get_twice eb overheat 10 20) as (Hlater & _).
  - lia.
  - exact Hlater.
Defined.

(** X7 at work: one resource with one entry under the default cap. *)
Lemma X7_getStats_bounds_witness :
  let eb := EventBuffer.after EventBuffer.no_options
              [EventBuffer.CallPush 1 overheat "overheat" (Js.Num 90)] in
  Z.of_nat (BufferObservers.totalEvents (BufferObservers.getStats eb))
  <= Z.of_nat (BufferObservers.uriCount (BufferObservers.getStats eb)) * 100.
Proof.
  destruct (X7_getStats_bounds EventBuffer.no_options
              [EventBuffer.CallPush 1 overheat "overheat" (Js.Num 90)]) as (Hbound & _).
  - cbn. lia.
  - apply Forall_cons. split; [|apply Forall_nil; exact I].
    unfold BufferObservers.validCall, Js.validTime. lia.
  - exact Hbound.
Defined.

(** X9 at work: the lamp's status. *)
Lemma X9_property_address_witness :
  Re.property_uri (prop_uri status) = Some ("my-light-01", "status")
  /\ getterToolName status = "get_status_my_light_01".
Proof.
  destruct (X9_property_address lampTd status) as (Hparse & Hname & _).
  - left. reflexivity.
  - discriminate.
  - discriminate.
  - reflexivity.
  - split; [exact Hparse|exact Hname].
Defined.

(** X10 at work: a description titled [???]. *)
Lemma X10_empty_thing_id_witness :
  thing_id (translate Kitchen.namelessTd) = ""
  /\ forall st reader,
       propertyReader st = Some reader ->
       invokePropertyGetter st Kitchen.namelessOn
       = (Rejected "Invalid property URI: wot:///properties/on", []).
Proof.
  destruct (X10_empty_thing_id Kitchen.namelessTd Kitchen.namelessOn)
    as (_ & _ & Hgetter & _).
  - left. reflexivity.
  - reflexivity.
  - reflexivity.
  - split; [reflexivity|exact Hgetter].
Defined.



(** X16 at work: the first session subscribes to the overheat event and
    unsubscribes again. *)
Lemma X16_subscriptions_witness :
  subscribed 0%nat overheat (handleSubscribe 0%nat overheat twoSessions) = true
  /\ subscribed 0%nat overheat
       (handleUnsubscribe 0%nat overheat (handleSubscribe 0%nat overheat twoSessions))
     = false.
Proof.
  destruct (X16_subscriptions twoSessions 0%nat overheat) as (Hon & Hoff & _).
  - exists ∅. reflexivity.
  - split; [exact Hon|exact Hoff].
Defined.

(** X17 at work: the first session closes. *)
Lemma X17_session_closed_witness :
  let st' := sessionClosed "session-a" 0%nat twoSessions in
  handleMcpRequest (Some "session-a") POST "session-c" true st'
  = (Status404 "Session not found", st')
  /\ JsMap.get "session-b" (sessions st') = Some sessionB.
Proof.
  destruct (X17_session_closed twoSessions "session-a" sessionA)
    as (Hgone & Hothers & _).
  - change (JsMap.keys (sessions twoSessions)) with ["session-a"; "session-b"].
    apply List.NoDup_cons; [intros [H|[]]; discriminate H|].
    apply List.NoDup_cons; [intros []|apply List.NoDup_nil].
  - reflexivity.
  - discriminate.
  - split; [apply (Hgone POST "session-c" true)|].
    exact (eq_trans (Hothers "session-b" ltac:(discriminate)) eq_refl).
Defined.


(** X20 at work: an overheat event, read back from its resource. *)
Lemma X20_event_resource_witness :
  let st1 := handleWotEvent 1000 "my-light-01" "overheat" (Js.Num 90) withLamp in
  let event := {| event_uri := overheat; event_name := "overheat";
                  event_description := "Event stream for overheat from My Light";
                  event_mimeType := "application/json"; event_wotName := "overheat";
                  event_schema := Js.Obj [("type", Js.Str "number")] |} in
  last (fst (fst (fst (readEventResource 1000 event st1))))
  = Some (EventBuffer.mkEvent 1000 "overheat" (Js.Num 90)).
Proof.
  intros st1 event.
  destruct (X20_event_resource withLamp 1000 "my-light-01" "overheat" (Js.Num 90) event)
    as (Hlast & _).
  - reflexivity.
  - change (1 <= 100). lia.
  - change (0 < 3600000). lia.
  - exact Hlast.
Defined.



(** X24 at work: the lamp consumed, its overheat event subscribed to. *)
Lemma X24_client_subscriptions_witness :
  let c := {| ClientEvents.client :=
                snd (WotClient.consume (WotClient.allWell lampTd) (WotClient.Td lampTd)
                       WotClient.new);
              ClientEvents.eventSubscriptions := JsMap.empty;
              ClientEvents.live := [];
              ClientEvents.nextSubscription := 0%nat |} in
  In (ClientEvents.mkLive "my-light-01" "overheat" 0%nat)
     (ClientEvents.live
        (snd (ClientEvents.subscribeEvent "my-light-01" "overheat"
                (Resolved tt) (Resolved tt) c))).
Proof.
  intros c.
  destruct (X24_client_subscriptions c) as (_ & Hsubscribe & _).
  - intros s [].
  - destruct (Hsubscribe "my-light-01" "overheat" (Resolved tt) (Resolved tt))
      as (_ & Hlive).
    apply Hlive. reflexivity.
Defined.

(** X25 at work: the lamp's overheat event on a server just set up. *)
Lemma X25_event_lifecycle_witness :
  let st := setCallbacks reader writer invoker (new config) in
  let event := {| event_uri := overheat; event_name := "overheat";
                  event_description := "Event stream for overheat from My Light";
                  event_mimeType := "application/json"; event_wotName := "overheat";
                  event_schema := Js.Obj [("type", Js.Str "number")] |} in
  fst (readEventResource 1000 event (snd (registerThing lamp st))) = ([], 0%nat, None)
  /\ fst (readEventResource 1000 event
            (handleWotEvent 1000 "my-light-01" "overheat" (Js.Num 90)
               (snd (registerThing lamp st))))
     = ([EventBuffer.mkEvent 1000 "overheat" (Js.Num 90)], 1%nat, Some 1000).
Proof.
  intros st event.
  destruct (X25_event_lifecycle lampTd event st 1000 (Js.Num 90))
    as (_ & _ & Hempty & Hone).
  - left. reflexivity.
  - reflexivity.
  - reflexivity.
  - change (1 <= 100). lia.
  - change (0 < 3600000). lia.
  - split; [exact Hempty|exact Hone].
Defined.

(** X26 at work: the lamp's status read through the generic tool. *)
Lemma X26_strategies_agree_witness :
  read_property withLamp (mkPropertyArgs "my-light-01" "status" Js.Undefined)
  = catch (invokePropertyGetter withLamp status) errorResult.
Proof.
  destruct (X26_strategies_agree lampTd started) as (Hprops & _).
  - apply (bool_decide_unpack _). vm_compute. exact I.
  - apply (bool_decide_unpack _). vm_compute. exact I.
  - destruct (Hprops status Js.Undefined) as (Hread & _); [left; reflexivity|].
    exact Hread.
Defined.

End FurtherScenarioFacts.
